(** * graphql-json-scalar-ts: the JSON scalar and its structural validator

    A shallow embedding of [src/JSONScalar.ts] ([serialize], [parseValue],
    [parseLiteral]) and [src/types.ts] ([isJSONValue]), and of the naming
    of files in [scripts/rename-cjs.js].

    The program receives [value: unknown], so the embedding carries the
    part of the ECMAScript object model that the code observes: primitive
    values, a heap of objects with a [[Prototype]] link, own data
    properties and the internal slots of arrays, functions and dates.
    Objects are referred to by location, which is what gives "the same
    object" a meaning and lets an object graph contain a cycle. A
    computation threads the heap and ends in a value or in an exception;
    the validator, whose recursion follows the object graph, takes the
    number of call frames it may use.

    Scope of the object model: properties are writable data properties
    (string keys); accessors other than the intrinsic
    [Object.prototype.__proto__], proxies and symbol-keyed properties are
    not represented. The methods that the code calls on its input,
    [value.every] and [value.toISOString], are looked up on the value: the
    built-in functions [Array.prototype.every] and
    [Date.prototype.toISOString] are part of the development, and any
    other function that the lookup finds is code of the caller, a
    parameter ([Host]), as is [String(value)] on an object. *)

From Stdlib Require Import ZArith Ascii Floats.SpecFloat.
From stdpp Require Import base option list strings pretty gmap.

Local Open Scope string_scope.

(** ** Values *)

(** Numbers are IEEE 754 binary64 values. *)
Definition number : Type := spec_float.
Definition prec : Z := 53.
Definition emax : Z := 1024.

Definition NaN : number := S754_nan.
Definition Infinity : number := S754_infinity false.

(** The Number value of a mathematical integer (round to nearest, ties to
    even). *)
Definition number_of_Z (z : Z) : number := binary_normalize prec emax z 0 false.

Abbreviation loc := positive.

Inductive value : Type :=
  | VUndefined
  | VNull
  | VBoolean (b : bool)
  | VNumber (n : number)
  | VString (s : string)
  | VSymbol (id : positive) (description : string)
  | VBigInt (z : Z)
  | VObject (l : loc).

(** ** Objects *)

Record property : Type := Property {
  prop_value : value;
  prop_enumerable : bool
}.

(** Internal slots that the code can tell apart: [Array.isArray] sees the
    array exotic object, [typeof] sees [[Call]], the built-in
    [toISOString] reads [[DateValue]] ([None] is the time value NaN of an
    invalid date). An array keeps its index properties in the slot;
    [None] is a hole. *)
Inductive internal : Type :=
  | OrdinaryObject
  | ArrayObject (elements : list (option value))
  | FunctionObject
  | DateObject (time_value : option Z).

Record object : Type := Object {
  obj_prototype : option loc;
  obj_internal : internal;
  obj_properties : list (string * property)
}.

Abbreviation heap := (gmap loc object).

(** A location outside the heap cannot be produced by a program; reading
    one yields an object with no prototype and no properties. *)
Definition absent_object : object := Object None OrdinaryObject [].

Definition object_at (h : heap) (l : loc) : object :=
  default absent_object (h !! l).

(** ** Intrinsic objects of the realm *)

Module Intrinsics.
Definition Object : loc := 1%positive.
Definition Object_prototype : loc := 2%positive.
Definition Function : loc := 3%positive.
Definition Function_prototype : loc := 4%positive.
Definition Array : loc := 5%positive.
Definition Array_prototype : loc := 6%positive.
Definition Date : loc := 7%positive.
Definition Date_prototype : loc := 8%positive.
Definition RegExp : loc := 9%positive.
Definition RegExp_prototype : loc := 10%positive.
Definition Error : loc := 11%positive.
Definition Error_prototype : loc := 12%positive.
(** The functions [Array.prototype.every] and
    [Date.prototype.toISOString]. *)
Definition every : loc := 13%positive.
Definition toISOString : loc := 14%positive.
End Intrinsics.

Definition hidden (v : value) : property := Property v false.
Definition visible (v : value) : property := Property v true.

Definition constructor_object : object :=
  Object (Some Intrinsics.Function_prototype) FunctionObject [].

Definition prototype_object (internal_slots : internal)
    (parent : option loc) (constructor : loc) : object :=
  Object parent internal_slots [("constructor", hidden (VObject constructor))].

Definition builtin_function : object :=
  Object (Some Intrinsics.Function_prototype) FunctionObject [].

(** A prototype object that also holds a built-in method. *)
Definition prototype_with_method (internal_slots : internal)
    (parent : option loc) (constructor : loc) (name : string) (method : loc)
    : object :=
  Object parent internal_slots
    [("constructor", hidden (VObject constructor));
     (name, hidden (VObject method))].

(** The heap of a fresh realm: the constructors the code names and their
    [prototype] objects, each with its non-enumerable [constructor], and
    the two built-in methods that the code calls on its input, which
    [Array.prototype] and [Date.prototype] hold under the names [every]
    and [toISOString]. *)
Definition initial_heap : heap :=
  let Object_prototype := Some Intrinsics.Object_prototype in
  list_to_map [
    (Intrinsics.Object, constructor_object);
    (Intrinsics.Object_prototype,
       prototype_object OrdinaryObject None Intrinsics.Object);
    (Intrinsics.Function, constructor_object);
    (Intrinsics.Function_prototype,
       prototype_object FunctionObject Object_prototype Intrinsics.Function);
    (Intrinsics.Array, constructor_object);
    (Intrinsics.Array_prototype,
       prototype_with_method (ArrayObject []) Object_prototype Intrinsics.Array
         "every" Intrinsics.every);
    (Intrinsics.every, builtin_function);
    (Intrinsics.Date, constructor_object);
    (Intrinsics.Date_prototype,
       prototype_with_method OrdinaryObject Object_prototype Intrinsics.Date
         "toISOString" Intrinsics.toISOString);
    (Intrinsics.toISOString, builtin_function);
    (Intrinsics.RegExp, constructor_object);
    (Intrinsics.RegExp_prototype,
       prototype_object OrdinaryObject Object_prototype Intrinsics.RegExp);
    (Intrinsics.Error, constructor_object);
    (Intrinsics.Error_prototype,
       prototype_object OrdinaryObject Object_prototype Intrinsics.Error)
  ].

(** ** Observations of a value *)

(** [typeof value] *)
Definition typeof (h : heap) (v : value) : string :=
  match v with
  | VUndefined => "undefined"
  | VNull => "object"
  | VBoolean _ => "boolean"
  | VNumber _ => "number"
  | VString _ => "string"
  | VSymbol _ _ => "symbol"
  | VBigInt _ => "bigint"
  | VObject l =>
      match obj_internal (object_at h l) with
      | FunctionObject => "function"
      | _ => "object"
      end
  end.

(** The [[Prototype]] of an object. The one of [Object.prototype] is
    [null] and cannot be changed. *)
Definition prototype_of (h : heap) (l : loc) : option loc :=
  if Pos.eqb l Intrinsics.Object_prototype then None
  else obj_prototype (object_at h l).

(** Prototype chains are acyclic, so a walk visits at most every object of
    the heap once. *)
Definition chain_bound (h : heap) : nat := S (size h).

(** OrdinaryHasInstance: is [target] on the prototype chain of [l]?  The
    walk starts at the [[Prototype]] of [l], not at [l]. *)
Fixpoint in_prototype_chain (steps : nat) (h : heap) (l target : loc) : bool :=
  match steps with
  | O => false
  | S steps' =>
      match prototype_of h l with
      | None => false
      | Some p =>
          if Pos.eqb p target then true
          else in_prototype_chain steps' h p target
      end
  end.

(** [value instanceof C], for a constructor [C] whose [prototype] is the
    intrinsic [C_prototype]. A primitive is an instance of nothing. *)
Definition instanceof (h : heap) (v : value) (C_prototype : loc) : bool :=
  match v with
  | VObject l => in_prototype_chain (chain_bound h) h l C_prototype
  | _ => false
  end.

(** [Array.isArray(value)] *)
Definition Array_isArray (h : heap) (v : value) : bool :=
  match v with
  | VObject l =>
      match obj_internal (object_at h l) with
      | ArrayObject _ => true
      | _ => false
      end
  | _ => false
  end.

Definition digit_value (c : ascii) : option N :=
  let n := N_of_ascii c in
  if ((48 <=? n) && (n <=? 57))%N then Some (n - 48)%N else None.

Fixpoint decimal_value (acc : N) (s : string) : option N :=
  match s with
  | EmptyString => Some acc
  | String c rest =>
      match digit_value c with
      | Some d => decimal_value (10 * acc + d)%N rest
      | None => None
      end
  end.

(** An array index is a canonical numeric string below 2^32 - 1. *)
Definition array_index (key : string) : option N :=
  match key with
  | EmptyString => None
  | String "0"%char EmptyString => Some 0%N
  | String "0"%char _ => None
  | _ =>
      match decimal_value 0 key with
      | Some n => if (n <? 2 ^ 32 - 1)%N then Some n else None
      | None => None
      end
  end.

(** The own property of an object under a key. The index properties of
    an array are its elements: present ones are enumerable data
    properties, a hole is no property. *)
Definition own_property (o : object) (key : string) : option property :=
  let named :=
    snd <$> List.find (fun kp => String.eqb (fst kp) key) (obj_properties o) in
  match obj_internal o with
  | ArrayObject elements =>
      match array_index key with
      | Some i =>
          match elements !! N.to_nat i with
          | Some (Some v) => Some (visible v)
          | _ => None
          end
      | None => named
      end
  | _ => named
  end.

(** What a property key resolves to along the prototype chain: a data
    property, the intrinsic accessor [Object.prototype.__proto__], or
    nothing. An own data property of [Object.prototype] named [__proto__]
    cannot exist, the accessor occupies the key. *)
Inductive resolved : Type :=
  | DataProperty (holder : loc) (p : property)
  | ProtoAccessor
  | Unresolved.

Fixpoint resolve (steps : nat) (h : heap) (l : loc) (key : string) : resolved :=
  match steps with
  | O => Unresolved
  | S steps' =>
      if Pos.eqb l Intrinsics.Object_prototype && String.eqb key "__proto__"
      then ProtoAccessor
      else
        match own_property (object_at h l) key with
        | Some p => DataProperty l p
        | None =>
            match prototype_of h l with
            | Some parent => resolve steps' h parent key
            | None => Unresolved
            end
        end
  end.

(** [value.key] on an object: the ordinary [[Get]]. *)
Definition Get (h : heap) (l : loc) (key : string) : value :=
  match resolve (chain_bound h) h l key with
  | DataProperty _ p => prop_value p
  | ProtoAccessor =>
      match prototype_of h l with
      | Some p => VObject p
      | None => VNull
      end
  | Unresolved => VUndefined
  end.

(** ** Property order and [Object.values] *)

Fixpoint insert_by_index (entry : N * property) (sorted : list (N * property))
    : list (N * property) :=
  match sorted with
  | [] => [entry]
  | e :: rest =>
      if (fst entry <=? fst e)%N then entry :: sorted
      else e :: insert_by_index entry rest
  end.

(** OrdinaryOwnPropertyKeys: array indices in ascending order, then the
    other string keys in order of creation. *)
Definition ordered_properties (props : list (string * property)) : list property :=
  let indexed :=
    omap (fun kp => match array_index (fst kp) with
                    | Some i => Some (i, snd kp)
                    | None => None
                    end) props in
  let named :=
    omap (fun kp => match array_index (fst kp) with
                    | Some _ => None
                    | None => Some (snd kp)
                    end) props in
  (snd <$> foldr insert_by_index [] indexed) ++ named.

(** The elements an array holds, holes left out. *)
Definition present_elements (elements : list (option value)) : list value :=
  omap id elements.

Definition array_elements (h : heap) (l : loc) : list (option value) :=
  match obj_internal (object_at h l) with
  | ArrayObject elements => elements
  | _ => []
  end.

(** [Object.values(value)]: the values of the own enumerable string-keyed
    properties. The result array does not escape the caller and is kept
    as a list. *)
Definition Object_values (h : heap) (l : loc) : list value :=
  present_elements (array_elements h l) ++
  (prop_value <$>
     List.filter prop_enumerable (ordered_properties (obj_properties (object_at h l)))).

(** [a === b] *)
Definition strict_equals (a b : value) : bool :=
  match a, b with
  | VUndefined, VUndefined => true
  | VNull, VNull => true
  | VBoolean x, VBoolean y => Bool.eqb x y
  | VNumber x, VNumber y => SFeqb x y
  | VString x, VString y => String.eqb x y
  | VSymbol x _, VSymbol y _ => Pos.eqb x y
  | VBigInt x, VBigInt y => Z.eqb x y
  | VObject x, VObject y => Pos.eqb x y
  | _, _ => false
  end.

(** ** Computations: a heap is threaded, an exception aborts *)

Inductive exn : Type :=
  | TypeError (message : string)
  | RangeError (message : string).

Inductive completion (A : Type) : Type :=
  | Normal (a : A)
  | Throw (e : exn).
Arguments Normal {A} a.
Arguments Throw {A} e.

Definition M (A : Type) : Type := heap -> completion A * heap.

Definition ret {A} (a : A) : M A := fun h => (Normal a, h).
Definition throw {A} (e : exn) : M A := fun h => (Throw e, h).
Definition bind {A B} (m : M A) (k : A -> M B) : M B :=
  fun h =>
    match m h with
    | (Normal a, h') => k a h'
    | (Throw e, h') => (Throw e, h')
    end.

(** Read the heap without changing it. *)
Definition gets {A} (f : heap -> A) : M A := fun h => (Normal (f h), h).

Notation "x <- m ;; k" := (bind m (fun x => k))
  (at level 100, m at next level, right associativity).
Notation "m ;;; k" := (bind m (fun _ => k))
  (at level 100, right associativity).

(** The call stack is finite: a call that finds no frame left raises the
    engine's RangeError. *)
Definition stack_overflow : exn := RangeError "Maximum call stack size exceeded".

(** [ToBoolean(value)], which [Array.prototype.every] and [!] apply to
    what a call returns. *)
Definition ToBoolean (v : value) : bool :=
  match v with
  | VUndefined | VNull => false
  | VBoolean b => b
  | VNumber (S754_zero _) | VNumber S754_nan => false
  | VNumber _ => true
  | VString s => negb (String.eqb s "")
  | VSymbol _ _ => true
  | VBigInt z => negb (Z.eqb z 0)
  | VObject _ => true
  end.

(** A boolean is read as the value that holds it. *)
Coercion VBoolean : bool >-> value.
Arguments Normal {A} & a.
Arguments pair {A B}%_type_scope & _ _.

(** ** Code of the caller *)

(** The code reaches functions that are not its own in three places.
    [String(value)] on an object runs the [toString] and [valueOf] methods
    found on it. [value.every(...)] and [value.toISOString()] call what
    the lookup on the value finds, and that is the built-in function only
    when nothing shadows it: any other function is called with the
    receiver and, for [every], with the callback, which it may call on
    what it likes. Such code can write to the heap and can throw. The
    text with which the engine names the receiver in the message of a
    TypeError of its own is the engine's. All three are parameters of the
    development. *)
Class Host : Type := {
  object_to_string : loc -> M string;
  call_function : loc -> loc -> option (value -> M value) -> M value;
  describe_receiver : heap -> loc -> string
}.

(** ** The built-in methods that the code calls on its input *)

(** *** [Date.prototype.toISOString] *)

Local Open Scope Z_scope.

Definition ms_per_day : Z := 86400000.

(** Year, month (1..12) and day of the month (1..31) of a day number
    counted from 1970-01-01, in the proleptic Gregorian calendar. *)
Definition civil_from_days (days : Z) : Z * Z * Z :=
  let z := days + 719468 in
  let era := z / 146097 in
  let doe := z - era * 146097 in
  let yoe := (doe - doe / 1460 + doe / 36524 - doe / 146096) / 365 in
  let doy := doe - (365 * yoe + yoe / 4 - yoe / 100) in
  let mp := (5 * doy + 2) / 153 in
  let d := doy - (153 * mp + 2) / 5 + 1 in
  let m := if mp <? 10 then mp + 3 else mp - 9 in
  let y := yoe + era * 400 + (if m <=? 2 then 1 else 0) in
  (y, m, d).

Definition digit (n : Z) : ascii := ascii_of_N (48 + Z.to_N (n mod 10)).

Definition pad2 (n : Z) (rest : string) : string :=
  String (digit (n / 10)) (String (digit n) rest).
Definition pad3 (n : Z) (rest : string) : string :=
  String (digit (n / 100)) (pad2 n rest).
Definition pad4 (n : Z) (rest : string) : string :=
  String (digit (n / 1000)) (pad3 n rest).
Definition pad6 (n : Z) (rest : string) : string :=
  String (digit (n / 100000)) (String (digit (n / 10000)) (pad4 n rest)).

(** Years 0 to 9999 are written with four digits, any other year with a
    sign and six digits. *)
Definition iso_year (y : Z) (rest : string) : string :=
  if (0 <=? y) && (y <=? 9999) then pad4 y rest
  else if y <? 0 then String "-"%char (pad6 (- y) rest)
  else String "+"%char (pad6 y rest).

(** The string of a finite time value (milliseconds since the epoch). *)
Definition iso_string (tv : Z) : string :=
  let '(y, m, d) := civil_from_days (tv / ms_per_day) in
  let t := tv mod ms_per_day in
  iso_year y
    (String "-"%char (pad2 m
    (String "-"%char (pad2 d
    (String "T"%char (pad2 (t / 3600000)
    (String ":"%char (pad2 (t / 60000 mod 60)
    (String ":"%char (pad2 (t / 1000 mod 60)
    (String "."%char (pad3 (t mod 1000) "Z")))))))))))).

Local Close Scope Z_scope.

(** The built-in function, called on [this]: the receiver needs a
    [[DateValue]] slot, and the time value must not be NaN. *)
Definition Date_prototype_toISOString `{Host} (this : loc) : M string :=
  o <- gets (fun h => obj_internal (object_at h this)) ;;
  match o with
  | DateObject (Some tv) => ret (iso_string tv)
  | DateObject None => throw (RangeError "Invalid time value")
  | _ =>
      receiver <- gets (fun h => describe_receiver h this) ;;
      throw (TypeError
        ("Method Date.prototype.toISOString called on incompatible receiver "
         ++ receiver))
  end.

(** *** [Array.prototype.every] *)

(** The property key of an index. *)
Definition index_key (k : nat) : string := pretty (N.of_nat k).

(** What [every] finds at index [k] of the array [l]: HasProperty looks
    along the prototype chain, so a hole is visited when an object of the
    chain has a property under the key of [k], and [Get] then gives the
    inherited value. [None]: the array has no such property. *)
Definition array_item (h : heap) (l : loc) (k : nat) : option value :=
  match array_elements h l !! k with
  | Some (Some item) => Some item
  | _ =>
      match prototype_of h l with
      | Some parent =>
          match resolve (chain_bound h) h parent (index_key k) with
          | DataProperty _ p => Some (prop_value p)
          | ProtoAccessor | Unresolved => None
          end
      | None => None
      end
  end.

(** The loop of [every] from index [k], [count] indices before the length
    that was read when the call started. Each index is looked up when the
    loop reaches it, in the heap that the callbacks have left; the first
    falsy answer ends the loop. *)
Fixpoint every_from (callbackfn : value -> M value) (l : loc) (k count : nat)
    : M value :=
  match count with
  | O => ret (VBoolean true)
  | S count' =>
      kPresent <- gets (fun h => array_item h l k) ;;
      match kPresent with
      | None => every_from callbackfn l (S k) count'
      | Some kValue =>
          testResult <- callbackfn kValue ;;
          if ToBoolean testResult then every_from callbackfn l (S k) count'
          else ret (VBoolean false)
      end
  end.

(** The built-in function, called on [this]: a callback that is missing is
    a TypeError. The program calls it on arrays, whose length is the
    number of elements and holes. *)
Definition Array_prototype_every (this : loc)
    (callbackfn : option (value -> M value)) : M value :=
  len <- gets (fun h => length (array_elements h this)) ;;
  match callbackfn with
  | Some callbackfn => every_from callbackfn this 0 len
  | None => throw (TypeError "undefined is not a function")
  end.

(** The same loop over items that are known when it starts; [None] stands
    for an index at which the array has no property. This is the loop on
    the array that [Object.values] has just made, which has no hole and
    which nothing else can reach. *)
Fixpoint every_present (callbackfn : value -> M value)
    (items : list (option value)) : M value :=
  match items with
  | [] => ret (VBoolean true)
  | None :: rest => every_present callbackfn rest
  | Some item :: rest =>
      testResult <- callbackfn item ;;
      if ToBoolean testResult then every_present callbackfn rest
      else ret (VBoolean false)
  end.

Definition every (callbackfn : value -> M value) (items : list value) : M value :=
  every_present callbackfn (Some <$> items).

(** ** Writing to the heap *)

(** A new object gets a location that the heap does not use. *)
Definition alloc (o : object) : M loc :=
  fun h => let l := fresh (dom h) in (Normal l, <[l := o]> h).

(** A new array of the realm, holding [items]: what [Array.prototype.map]
    and [Object.values] return. *)
Definition new_array (items : list value) : M loc :=
  alloc (Object (Some Intrinsics.Array_prototype)
                (ArrayObject (Some <$> items)) []).

(** ** Calling a method *)

Section Calls.
Context `{host : Host}.

(** IsCallable *)
Definition is_callable (h : heap) (v : value) : bool :=
  String.eqb (typeof h v) "function".

(** [F.call(this, callbackfn)], for the function [F] that a lookup has
    found; [callee] is the text of the expression, which the engine quotes
    when [F] is no function. *)
Definition Call (F : value) (this : loc)
    (callbackfn : option (value -> M value)) (callee : string) : M value :=
  callable <- gets (fun h => is_callable h F) ;;
  match F with
  | VObject f =>
      if (callable : bool) then
        if Pos.eqb f Intrinsics.every then
          Array_prototype_every this callbackfn
        else if Pos.eqb f Intrinsics.toISOString then
          iso <- Date_prototype_toISOString this ;;
          ret (VString iso)
        else call_function f this callbackfn
      else throw (TypeError (callee ++ " is not a function"))
  | _ => throw (TypeError (callee ++ " is not a function"))
  end.

(** [value.every]: the built-in function and nothing else. *)
Definition every_builtin (h : heap) (l : loc) : bool :=
  strict_equals (Get h l "every") (VObject Intrinsics.every)
  && is_callable h (VObject Intrinsics.every).

(** ** src/types.ts *)

(** [isJSONValue(value)], with [depth] call frames available.

<<
  if (value === null) return true;
  if (typeof value === "string" || typeof value === "number" ||
      typeof value === "boolean") return true;
  if (typeof value === "undefined" || typeof value === "function" ||
      typeof value === "symbol") return false;
  if (value instanceof Date || value instanceof RegExp ||
      value instanceof Error) return false;
  if (Array.isArray(value)) return value.every((item) => isJSONValue(item));
  if (typeof value === "object" && value !== null) {
    if (value.constructor !== Object && value.constructor !== undefined)
      return false;
    return Object.values(value).every((val) => isJSONValue(val));
  }
  return false;
>>
    Past the [typeof] tests the value is an object or a bigint; the
    location of the object is needed to read it, and a bigint, being no
    array and not of type "object", falls to the last line.

    What [value.every(...)] returns is returned as it is. The array of
    [Object.values] is new, its [every] is the one of [Array.prototype],
    and nothing else holds it: when that is the built-in function the
    array is kept as a list, and when other code is called on it, it is
    put in the heap for that code to read. *)
Fixpoint isJSONValue (depth : nat) : value -> M value := fun value =>
  match depth with
  | O => throw stack_overflow
  | S depth' =>
      if strict_equals value VNull then ret (VBoolean true)
      else
        type <- gets (fun h => typeof h value) ;;
        if String.eqb type "string" || String.eqb type "number"
           || String.eqb type "boolean"
        then ret (VBoolean true)
        else if String.eqb type "undefined" || String.eqb type "function"
                || String.eqb type "symbol"
        then ret (VBoolean false)
        else
          rejected <- gets (fun h =>
            instanceof h value Intrinsics.Date_prototype
            || instanceof h value Intrinsics.RegExp_prototype
            || instanceof h value Intrinsics.Error_prototype) ;;
          if (rejected : bool) then ret (VBoolean false)
          else
            is_array <- gets (fun h => Array_isArray h value) ;;
            match value with
            | VObject l =>
                if (is_array : bool) then
                  method <- gets (fun h => Get h l "every") ;;
                  Call method l (Some (isJSONValue depth')) "value.every"
                else if String.eqb type "object"
                        && negb (strict_equals value VNull)
                then
                  constructor <- gets (fun h => Get h l "constructor") ;;
                  if negb (strict_equals constructor (VObject Intrinsics.Object))
                     && negb (strict_equals constructor VUndefined)
                  then ret (VBoolean false)
                  else
                    values <- gets (fun h => Object_values h l) ;;
                    builtin <- gets (fun h =>
                      every_builtin h Intrinsics.Array_prototype) ;;
                    if (builtin : bool) then
                      every (isJSONValue depth') values
                    else
                      array <- new_array values ;;
                      method <- gets (fun h => Get h array "every") ;;
                      Call method array (Some (isJSONValue depth'))
                        "Object.values(...).every"
                else ret (VBoolean false)
            | _ => ret (VBoolean false)
            end
  end.
End Calls.

(** ** Global functions the scalar calls *)

(** *** [parseInt] and [parseFloat]

    Strings are sequences of 8-bit code units here, so the white space
    that is trimmed is the part of StrWhiteSpaceChar below U+0100: tab,
    line feed, vertical tab, form feed, carriage return, space and the
    no-break space U+00A0. *)

Definition is_white_space (c : ascii) : bool :=
  let n := N_of_ascii c in
  ((9 <=? n) && (n <=? 13) || (n =? 32) || (n =? 160))%N.

Fixpoint trim_start (s : string) : string :=
  match s with
  | String c rest => if is_white_space c then trim_start rest else s
  | EmptyString => s
  end.

(** A leading sign: is it [-], and what follows it. *)
Definition strip_sign (s : string) : bool * string :=
  match s with
  | String "-"%char rest => (true, rest)
  | String "+"%char rest => (false, rest)
  | _ => (false, s)
  end.

(** The longest prefix of decimal digits, and what follows it. *)
Fixpoint span_digits (s : string) : string * string :=
  match s with
  | String c rest =>
      match digit_value c with
      | Some _ => let '(digits, tail) := span_digits rest in (String c digits, tail)
      | None => (EmptyString, s)
      end
  | EmptyString => (EmptyString, EmptyString)
  end.

Definition Z_of_digits (digits : string) : Z :=
  Z.of_N (default 0%N (decimal_value 0 digits)).

(** [parseInt(string, 10)]: no digit gives NaN, and the sign of a zero is
    the sign that was read. *)
Definition parseInt (string : string) : number :=
  let '(negative, unsigned) := strip_sign (trim_start string) in
  let '(digits, _) := span_digits unsigned in
  match digits with
  | EmptyString => NaN
  | _ =>
      let mathInt := Z_of_digits digits in
      binary_normalize prec emax (if negative then - mathInt else mathInt)%Z 0
        negative
  end.

(** The Number value of [m * 10^e] for a natural number [m], correctly
    rounded. *)
Definition round_decimal (negative : bool) (m e : Z) : number :=
  match m with
  | Zpos mantissa =>
      match e with
      | Zneg k =>
          SFdiv prec emax (S754_finite negative mantissa 0)
            (S754_finite false (10 ^ k)%positive 0)
      | _ => binary_normalize prec emax
               ((if negative then - m else m) * 10 ^ e)%Z 0 negative
      end
  | _ => S754_zero negative
  end.

Definition is_exponent_indicator (c : ascii) : bool :=
  let n := N_of_ascii c in ((n =? 101) || (n =? 69))%N.

(** [parseFloat(string)]: the longest prefix that is a StrDecimalLiteral. *)
Definition parseFloat (string : string) : number :=
  let '(negative, unsigned) := strip_sign (trim_start string) in
  if String.prefix "Infinity" unsigned then S754_infinity negative
  else
    let '(integer, after_integer) := span_digits unsigned in
    let '(fraction, after_fraction) :=
      match after_integer with
      | String "."%char rest => span_digits rest
      | _ => (EmptyString, after_integer)
      end in
    match integer ++ fraction with
    | EmptyString => NaN
    | digits =>
        let exponent :=
          match after_fraction with
          | String c rest =>
              if is_exponent_indicator c then
                let '(negative_exponent, unsigned_exponent) := strip_sign rest in
                let '(exponent_digits, _) := span_digits unsigned_exponent in
                if negative_exponent then (- Z_of_digits exponent_digits)%Z
                else Z_of_digits exponent_digits
              else 0%Z
          | EmptyString => 0%Z
          end in
        round_decimal negative (Z_of_digits digits)
          (exponent - Z.of_nat (String.length fraction))
    end.

(** ** Writing properties *)

Definition set_prototype (l : loc) (parent : option loc) : M unit :=
  fun h =>
    let o := object_at h l in
    (Normal tt, <[l := Object parent (obj_internal o) (obj_properties o)]> h).

Fixpoint assign_own (key : string) (v : value)
    (props : list (string * property)) : list (string * property) :=
  match props with
  | [] => [(key, visible v)]
  | (k, p) :: rest =>
      if String.eqb k key then (k, Property v (prop_enumerable p)) :: rest
      else (k, p) :: assign_own key v rest
  end.

(** Give [l] the own property [key]: an existing one keeps its place and
    its attributes, a new one is created enumerable after the others. *)
Definition define_own (l : loc) (key : string) (v : value) : M unit :=
  fun h =>
    let o := object_at h l in
    (Normal tt,
     <[l := Object (obj_prototype o) (obj_internal o)
                   (assign_own key v (obj_properties o))]> h).

(** The setter of [Object.prototype.__proto__]: an object or [null]
    becomes the [[Prototype]] of the receiver, unless that closes a cycle;
    any other value is ignored. *)
Definition set_proto_accessor (l : loc) (v : value) : M unit :=
  match v with
  | VObject parent =>
      cyclic <- gets (fun h =>
        Pos.eqb parent l || in_prototype_chain (chain_bound h) h parent l) ;;
      if (cyclic : bool) then throw (TypeError "Cyclic __proto__ value")
      else set_prototype l (Some parent)
  | VNull => set_prototype l None
  | _ => ret tt
  end.

(** [obj[key] = v] on an ordinary object: the ordinary [[Set]]. A data
    property that is inherited is shadowed by a new own property; the
    inherited accessor [__proto__] is called instead. *)
Definition Set_ (l : loc) (key : string) (v : value) : M unit :=
  found <- gets (fun h => resolve (chain_bound h) h l key) ;;
  match found with
  | ProtoAccessor => set_proto_accessor l v
  | DataProperty _ _ | Unresolved => define_own l key v
  end.

(** [{}] *)
Definition new_object : M loc :=
  alloc (Object (Some Intrinsics.Object_prototype) OrdinaryObject []).

(** ** The literal AST of graphql-js ([ValueNode]) *)

(** The union [ValueNode] of the package [graphql] and the strings of its
    [Kind] enumeration; the fields that the decoder does not read ([loc],
    [block]) are left out. *)

#[local] Unset Elimination Schemes.
Inductive ValueNode : Type :=
  | Variable_ (name : string)
  | IntValue (value : string)
  | FloatValue (value : string)
  | StringValue (value : string)
  | BooleanValue (value : bool)
  | NullValue
  | EnumValue (value : string)
  | ListValue (values : list ValueNode)
  | ObjectValue (fields : list ObjectFieldNode)
with ObjectFieldNode : Type :=
  | ObjectField (name : string) (value : ValueNode).
#[local] Set Elimination Schemes.

(** [ast.kind], a member of the [Kind] enumeration. *)
Definition kind (ast : ValueNode) : string :=
  match ast with
  | Variable_ _ => "Variable"
  | IntValue _ => "IntValue"
  | FloatValue _ => "FloatValue"
  | StringValue _ => "StringValue"
  | BooleanValue _ => "BooleanValue"
  | NullValue => "NullValue"
  | EnumValue _ => "EnumValue"
  | ListValue _ => "ListValue"
  | ObjectValue _ => "ObjectValue"
  end.

Definition supported_kinds : list string :=
  ["StringValue"; "IntValue"; "FloatValue"; "BooleanValue"; "NullValue";
   "ObjectValue"; "ListValue"].

Definition supported (ast : ValueNode) : bool :=
  bool_decide (kind ast ∈ supported_kinds).

(** ** src/JSONScalar.ts: the literal decoder *)

Definition unsupported_literal (kind : string) : exn :=
  TypeError
    (("JSON cannot represent value: " ++ kind ++ ".") ++
     "Only StringValue, IntValue, FloatValue, BooleanValue, NullValue, ObjectValue, and ListValue are supported").

(** <<
  switch (ast.kind) {
    case Kind.STRING:  return ast.value;
    case Kind.INT:     return parseInt(ast.value, 10);
    case Kind.FLOAT:   return parseFloat(ast.value);
    case Kind.BOOLEAN: return ast.value;
    case Kind.NULL:    return null;
    case Kind.LIST:    return ast.values.map((val) => parseLiteral(val));
    case Kind.OBJECT: {
      const obj = {};
      for (const field of ast.fields) {
        obj[field.name.value] = parseLiteral(field.value);
      }
      return obj;
    }
    default: throw new TypeError(...);
  }
>>
    The array of the LIST case is allocated once the elements are decoded;
    locations being opaque, a program cannot tell when it was. *)
Fixpoint parseLiteral (ast : ValueNode) : M value :=
  match ast with
  | StringValue value => ret (VString value)
  | IntValue value => ret (VNumber (parseInt value))
  | FloatValue value => ret (VNumber (parseFloat value))
  | BooleanValue value => ret (VBoolean value)
  | NullValue => ret VNull
  | ListValue values =>
      items <- (fix map (vals : list ValueNode) : M (list value) :=
                  match vals with
                  | [] => ret []
                  | val :: rest =>
                      item <- parseLiteral val ;;
                      items <- map rest ;;
                      ret (item :: items)
                  end) values ;;
      array <- new_array items ;;
      ret (VObject array)
  | ObjectValue fields =>
      obj <- new_object ;;
      (fix for_of (fields : list ObjectFieldNode) : M unit :=
         match fields with
         | [] => ret tt
         | ObjectField name value :: rest =>
             decoded <- parseLiteral value ;;
             Set_ obj name decoded ;;;
             for_of rest
         end) fields ;;;
      ret (VObject obj)
  | Variable_ _ | EnumValue _ => throw (unsupported_literal (kind ast))
  end.

(** *** [String(value)] *)

Local Open Scope Z_scope.

(** The decimal digits of a natural number. *)
Definition decimal_digits (n : Z) : string := pretty (Z.to_N n).

(** For a positive rational below one, the least [j] with
    [1 <= 10^j * num / den]. *)
Fixpoint fraction_shift (fuel : nat) (num den : Z) : Z :=
  match fuel with
  | O => 0
  | S fuel' =>
      if den <=? num * 10 then 1
      else 1 + fraction_shift fuel' (num * 10) den
  end.

(** [n] with [10^(n-1) <= num / den < 10^n]. *)
Definition decimal_exponent (num den : Z) : Z :=
  if den <=? num then Z.of_nat (String.length (decimal_digits (num / den)))
  else 1 - fraction_shift 400 num den.

(** Number::toString, step 5: the least number of digits [k], with the
    digits [s] and the exponent [n], such that [s * 10^(n-k)] reads back
    as [x]; of two such [s] the one nearer to [x]. Seventeen digits always
    suffice. *)
Fixpoint shortest_decimal (fuel : nat) (k : Z) (x : number) (num den n : Z)
    : Z * Z :=
  match fuel with
  | O => (0, 0)
  | S fuel' =>
      let scale := n - k in
      let '(a, b) :=
        if 0 <=? scale then (num, den * 10 ^ scale)
        else (num * 10 ^ (- scale), den) in
      let low := a / b in
      let high := low + 1 in
      let reads_back s := SFeqb (round_decimal false s scale) x in
      let pick s := if s =? 10 ^ k then (1, n + 1) else (s, n) in
      match reads_back low, reads_back high with
      | true, true =>
          match Z.compare (2 * a) ((low + high) * b) with
          | Lt => pick low
          | Gt => pick high
          | Eq => if Z.even low then pick low else pick high
          end
      | true, false => pick low
      | false, true => pick high
      | false, false => shortest_decimal fuel' (k + 1) x num den n
      end
  end.

Definition zeros (count : Z) : string :=
  Nat.iter (Z.to_nat count) (String "0"%char) EmptyString.

(** Number::toString, steps 6 to 10, for the digits [s] (there are [k])
    and the exponent [n]. *)
Definition format_decimal (s : string) (n : Z) : string :=
  let k := Z.of_nat (String.length s) in
  if (k <=? n) && (n <=? 21) then s ++ zeros (n - k)
  else if (0 <? n) && (n <=? 21) then
    String.substring 0 (Z.to_nat n) s ++ "." ++
    String.substring (Z.to_nat n) (Z.to_nat (k - n)) s
  else if (-6 <? n) && (n <=? 0) then "0." ++ zeros (- n) ++ s
  else
    let exponent :=
      (if 0 <=? n - 1 then "+" else "-") ++ decimal_digits (Z.abs (n - 1)) in
    if k =? 1 then s ++ "e" ++ exponent
    else String.substring 0 1 s ++ "." ++
         String.substring 1 (Z.to_nat (k - 1)) s ++ "e" ++ exponent.

(** Number::toString(x) in radix 10. *)
Definition Number_toString (x : number) : string :=
  match x with
  | S754_nan => "NaN"
  | S754_zero _ => "0"
  | S754_infinity negative => if negative then "-Infinity" else "Infinity"
  | S754_finite negative m e =>
      let num := Z.pos m * 2 ^ Z.max e 0 in
      let den := 2 ^ Z.max (- e) 0 in
      let '(s, n) :=
        shortest_decimal 17 1 (S754_finite false m e) num den
          (decimal_exponent num den) in
      (if negative then "-" else "") ++ format_decimal (decimal_digits s) n
  end.

Definition BigInt_toString (z : Z) : string :=
  (if z <? 0 then "-" else "") ++ decimal_digits (Z.abs z).

Local Close Scope Z_scope.

(** [String(value)]; on an object the conversion asks the object, which
    is code of the caller. *)
Definition JS_String `{Host} (v : value) : M string :=
  match v with
  | VUndefined => ret "undefined"
  | VNull => ret "null"
  | VBoolean b => ret (if b then "true" else "false")
  | VNumber n => ret (Number_toString n)
  | VString s => ret s
  | VSymbol _ description => ret ("Symbol(" ++ description ++ ")")
  | VBigInt z => ret (BigInt_toString z)
  | VObject l => object_to_string l
  end.

(** ** src/JSONScalar.ts: the value converters *)

Section Converters.
Context `{host : Host}.

(** <<
if (value instanceof Date) { return value.toISOString(); }
if (!isJSONValue(value)) {
  throw new TypeError(
    `JSON cannot represent value: ${String(value)}.` +
      "Only plain objects, arrays, and primitives are supported.");
}
return value;
>>
    An instance of [Date] is an object; [value.toISOString()] calls what
    the lookup on it finds, and what the call returns is returned. *)
Definition serialize (depth : nat) : value -> M value := fun value =>
  is_date <- gets (fun h => instanceof h value Intrinsics.Date_prototype) ;;
  if (is_date : bool) then
    match value with
    | VObject l =>
        method <- gets (fun h => Get h l "toISOString") ;;
        Call method l None "value.toISOString"
    | _ => ret value
    end
  else
    valid <- isJSONValue depth value ;;
    if negb (ToBoolean valid) then
      rendered <- JS_String value ;;
      throw (TypeError
        (("JSON cannot represent value: " ++ rendered ++ ".") ++
         "Only plain objects, arrays, and primitives are supported."))
    else ret value.

(** The body of [parseValue] repeats the one of [serialize]. *)
Definition parseValue (depth : nat) : value -> M value := fun value =>
  is_date <- gets (fun h => instanceof h value Intrinsics.Date_prototype) ;;
  if (is_date : bool) then
    match value with
    | VObject l =>
        method <- gets (fun h => Get h l "toISOString") ;;
        Call method l None "value.toISOString"
    | _ => ret value
    end
  else
    valid <- isJSONValue depth value ;;
    if negb (ToBoolean valid) then
      rendered <- JS_String value ;;
      throw (TypeError
        (("JSON cannot represent value: " ++ rendered ++ ".") ++
         "Only plain objects, arrays, and primitives are supported."))
    else ret value.
End Converters.

(** The scalar that the module exports: a name, a description and the
    three entry points. *)
Record GraphQLScalarType `{host : Host} : Type := {
  scalar_name : string;
  scalar_serialize : nat -> value -> M value;
  scalar_parseValue : nat -> value -> M value;
  scalar_parseLiteral : ValueNode -> M value
}.

Definition JSONScalar `{host : Host} : GraphQLScalarType := {|
  scalar_name := "JSON";
  scalar_serialize := serialize;
  scalar_parseValue := parseValue;
  scalar_parseLiteral := parseLiteral
|}.

Definition GraphQLJSON `{host : Host} : GraphQLScalarType := JSONScalar.

(** ** Notions used in the statements *)

(** A computation that only reads. *)
Definition reads {A} (m : M A) : Prop := forall h, snd (m h) = h.

(** [value instanceof Date || value instanceof RegExp || value instanceof
    Error] *)
Definition boxed_instance (h : heap) (v : value) : bool :=
  instanceof h v Intrinsics.Date_prototype
  || instanceof h v Intrinsics.RegExp_prototype
  || instanceof h v Intrinsics.Error_prototype.

(** [value.constructor !== Object && value.constructor !== undefined] *)
Definition foreign_constructor (constructor : value) : bool :=
  negb (strict_equals constructor (VObject Intrinsics.Object))
  && negb (strict_equals constructor VUndefined).

(** The items that [every] visits on the array [l], index by index;
    [None] at an index that the array does not have. *)
Definition array_items (h : heap) (l : loc) : list (option value) :=
  array_item h l <$> seq 0 (length (array_elements h l)).

(** The values that the validator goes on to when it accepts the object
    itself: the elements of an array, the property values of another
    object. *)
Definition contents (h : heap) (l : loc) : list value :=
  if Array_isArray h (VObject l) then present_elements (array_items h l)
  else Object_values h l.

(** [child] is one of the contents of [parent]. *)
Definition holds (h : heap) (parent child : value) : Prop :=
  exists l, parent = VObject l /\ child ∈ contents h l.

(** The [every] of the realm is the built-in function, and so is the
    [every] of each array that can be reached from [v] through contents:
    no array shadows the method, and each one inherits it. *)
Definition every_builtin_below (h : heap) (v : value) : Prop :=
  every_builtin h Intrinsics.Array_prototype = true
  /\ forall l, rtc (holds h) v (VObject l) ->
       Array_isArray h (VObject l) = true -> every_builtin h l = true.

(** The same, decided for a value of nesting depth below [n]. *)
Fixpoint arrays_builtin_within (n : nat) (h : heap) (v : value) : bool :=
  match n with
  | O => false
  | S n' =>
      match v with
      | VObject l =>
          (if Array_isArray h v then every_builtin h l else true)
          && forallb (arrays_builtin_within n' h) (contents h l)
      | _ => true
      end
  end.

Definition every_builtin_within (n : nat) (h : heap) (v : value) : bool :=
  every_builtin h Intrinsics.Array_prototype && arrays_builtin_within n h v.

(** [value.toISOString]: the built-in function and nothing else. *)
Definition toISOString_builtin (h : heap) (l : loc) : bool :=
  strict_equals (Get h l "toISOString") (VObject Intrinsics.toISOString)
  && is_callable h (VObject Intrinsics.toISOString).

(** A run that ends in the heap it started in, with a boolean or with the
    RangeError of the call stack. *)
Definition settled (m : M value) (h : heap) : Prop :=
  m h = (Normal true, h) \/ m h = (Normal false, h)
  \/ m h = (Throw stack_overflow, h).

(** The callback leaves the heap as it is on each item on which the loop
    of [every] goes on. *)
Fixpoint stable (callbackfn : value -> M value) (items : list (option value))
    (h : heap) : Prop :=
  match items with
  | [] => True
  | None :: rest => stable callbackfn rest h
  | Some item :: rest =>
      forall r h', callbackfn item h = (Normal r, h') -> ToBoolean r = true ->
        h' = h /\ stable callbackfn rest h
  end.

(** ** The JSON-Value domain, in the words of the specification *)

Definition date_like (h : heap) (v : value) : Prop :=
  instanceof h v Intrinsics.Date_prototype = true.
Definition regexp_like (h : heap) (v : value) : Prop :=
  instanceof h v Intrinsics.RegExp_prototype = true.
Definition error_like (h : heap) (v : value) : Prop :=
  instanceof h v Intrinsics.Error_prototype = true.

(** The constructor identity of an object is what [value.constructor]
    evaluates to: it is plain when that is the generic [Object], or when
    there is no constructor at all. *)
Definition constructor_identity (h : heap) (l : loc) : value :=
  Get h l "constructor".

Definition plain_constructor (c : value) : Prop :=
  c = VObject Intrinsics.Object \/ c = VUndefined.

(** Rules 1 to 7 of the specification, read as the conditions under which
    the verdict is [true]; a rule applies only when no earlier one does.
    The elements of an array are the values at the indices that it has. *)
Inductive JsonValueDomain (h : heap) : value -> Prop :=
  | json_null : JsonValueDomain h VNull
  | json_string s : JsonValueDomain h (VString s)
  | json_number n : JsonValueDomain h (VNumber n)
  | json_boolean b : JsonValueDomain h (VBoolean b)
  | json_array l :
      typeof h (VObject l) <> "function" ->
      ~ date_like h (VObject l) ->
      ~ regexp_like h (VObject l) ->
      ~ error_like h (VObject l) ->
      Array_isArray h (VObject l) = true ->
      (forall item, item ∈ present_elements (array_items h l) ->
         JsonValueDomain h item) ->
      JsonValueDomain h (VObject l)
  | json_object l :
      typeof h (VObject l) <> "function" ->
      ~ date_like h (VObject l) ->
      ~ regexp_like h (VObject l) ->
      ~ error_like h (VObject l) ->
      Array_isArray h (VObject l) = false ->
      plain_constructor (constructor_identity h l) ->
      (forall val, val ∈ Object_values h l -> JsonValueDomain h val) ->
      JsonValueDomain h (VObject l).

(** A value of nesting depth below [n]: every chain of element and
    property-value links that starts at it has fewer than [n] objects. A
    cyclic object graph has no such [n]. *)
Fixpoint nesting_within (n : nat) (h : heap) (v : value) : bool :=
  match n with
  | O => false
  | S n' =>
      match v with
      | VObject l => forallb (nesting_within n' h) (contents h l)
      | _ => true
      end
  end.

(** The message of the TypeError that the converters raise, around the
    rendering of the rejected value. *)
Definition cannot_represent (rendered : string) : string :=
  ("JSON cannot represent value: " ++ rendered ++ ".") ++
  "Only plain objects, arrays, and primitives are supported.".

Definition is_digit (c : ascii) : bool :=
  match digit_value c with Some _ => true | None => false end.

(** [YYYY-MM-DDTHH:mm:ss.sssZ] *)
Definition iso_pattern (s : string) : bool :=
  match String.list_ascii_of_string s with
  | [y1; y2; y3; y4; dash1; m1; m2; dash2; d1; d2; t;
     h1; h2; colon1; n1; n2; colon2; s1; s2; dot; f1; f2; f3; z] =>
      forallb is_digit
        [y1; y2; y3; y4; m1; m2; d1; d2; h1; h2; n1; n2; s1; s2; f1; f2; f3]
      && bool_decide ([dash1; dash2; t; colon1; colon2; dot; z] =
                      ["-"; "-"; "T"; ":"; ":"; "."; "Z"]%char)
  | _ => false
  end.

(** [±YYYYYY-MM-DDTHH:mm:ss.sssZ], the expanded form *)
Definition iso_pattern_expanded (s : string) : bool :=
  match String.list_ascii_of_string s with
  | [sign; y1; y2; y3; y4; y5; y6; dash1; m1; m2; dash2; d1; d2; t;
     h1; h2; colon1; n1; n2; colon2; s1; s2; dot; f1; f2; f3; z] =>
      forallb is_digit
        [y1; y2; y3; y4; y5; y6; m1; m2; d1; d2; h1; h2; n1; n2; s1; s2;
         f1; f2; f3]
      && bool_decide (sign = "+"%char \/ sign = "-"%char)
      && bool_decide ([dash1; dash2; t; colon1; colon2; dot; z] =
                      ["-"; "-"; "T"; ":"; ":"; "."; "Z"]%char)
  | _ => false
  end.

(** The calendar year of a time value. *)
Definition year_of (tv : Z) : Z := fst (fst (civil_from_days (tv / ms_per_day))).

(** ** What the decoder is to build, in the words of the specification *)

(** The JSON-Value domain as a tree. *)
#[local] Unset Elimination Schemes.
Inductive json : Type :=
  | JNull
  | JBoolean (b : bool)
  | JNumber (n : number)
  | JString (s : string)
  | JArray (items : list json)
  | JObject (members : list (string * json)).
#[local] Set Elimination Schemes.

(** Insert under a name; a name that is there already keeps its place and
    takes the later value. *)
Fixpoint insert_member (name : string) (j : json)
    (members : list (string * json)) : list (string * json) :=
  match members with
  | [] => [(name, j)]
  | (k, old) :: rest =>
      if String.eqb k name then (k, j) :: rest
      else (k, old) :: insert_member name j rest
  end.

(** The table of the literal decoder: [None] where it is to fail. *)
Fixpoint decoded (ast : ValueNode) : option json :=
  match ast with
  | StringValue value => Some (JString value)
  | IntValue value => Some (JNumber (parseInt value))
  | FloatValue value => Some (JNumber (parseFloat value))
  | BooleanValue value => Some (JBoolean value)
  | NullValue => Some JNull
  | ListValue values =>
      JArray <$>
        (fix each (vals : list ValueNode) : option (list json) :=
           match vals with
           | [] => Some []
           | val :: rest =>
               match decoded val, each rest with
               | Some j, Some js => Some (j :: js)
               | _, _ => None
               end
           end) values
  | ObjectValue fields =>
      JObject <$>
        (fix each (fs : list ObjectFieldNode) (members : list (string * json))
             : option (list (string * json)) :=
           match fs with
           | [] => Some members
           | ObjectField name value :: rest =>
               match decoded value with
               | Some j => each rest (insert_member name j members)
               | None => None
               end
           end) fields []
  | Variable_ _ | EnumValue _ => None
  end.

(** Does some object field of the literal, at any depth, bear this
    name? *)
Fixpoint names_field (name : string) (ast : ValueNode) : bool :=
  match ast with
  | ListValue values =>
      (fix any (vals : list ValueNode) : bool :=
         match vals with
         | [] => false
         | val :: rest => names_field name val || any rest
         end) values
  | ObjectValue fields =>
      (fix any (fs : list ObjectFieldNode) : bool :=
         match fs with
         | [] => false
         | ObjectField k value :: rest =>
             String.eqb k name || names_field name value || any rest
         end) fields
  | _ => false
  end.

(** The value [v] of the heap [h] is the tree [j], built from objects at
    locations of [L]: an array of [Array.prototype] holding the items in
    order, without a hole; an object of [Object.prototype] whose own
    properties, all enumerable, are the members in order. *)
Fixpoint represents_within (L : gset loc) (h : heap) (v : value) (j : json)
    {struct j} : Prop :=
  match j with
  | JNull => v = VNull
  | JBoolean b => v = VBoolean b
  | JNumber n => v = VNumber n
  | JString s => v = VString s
  | JArray items =>
      exists l elements,
        v = VObject l /\ l ∈ L
        /\ h !! l = Some (Object (Some Intrinsics.Array_prototype)
                                 (ArrayObject (Some <$> elements)) [])
        /\ (fix all (vs : list value) (js : list json) {struct js} : Prop :=
              match vs, js with
              | [], [] => True
              | v' :: vs', j' :: js' => represents_within L h v' j' /\ all vs' js'
              | _, _ => False
              end) elements items
  | JObject members =>
      exists l props,
        v = VObject l /\ l ∈ L
        /\ h !! l = Some (Object (Some Intrinsics.Object_prototype)
                                 OrdinaryObject props)
        /\ (fix all (ps : list (string * property)) (ms : list (string * json))
                {struct ms} : Prop :=
              match ps, ms with
              | [], [] => True
              | (k, p) :: ps', (name, j') :: ms' =>
                  k = name /\ prop_enumerable p = true
                  /\ represents_within L h (prop_value p) j' /\ all ps' ms'
              | _, _ => False
              end) props members
  end.

(** The same, with the lists of items and of members related pointwise. *)
Definition member_represented (L : gset loc) (h : heap)
    (kp : string * property) (m : string * json) : Prop :=
  fst kp = fst m /\ prop_enumerable (snd kp) = true
  /\ represents_within L h (prop_value (snd kp)) (snd m).

(** The heap [h'] has every object of [h], unchanged. *)
Definition extends (h h' : heap) : Prop :=
  forall l, l ∈ dom h -> h' !! l = h !! l.

(** The number of call frames that validating the tree takes. *)
Fixpoint json_depth (j : json) : nat :=
  match j with
  | JArray items =>
      S ((fix deepest (js : list json) : nat :=
            match js with
            | [] => 0
            | j' :: js' => Nat.max (json_depth j') (deepest js')
            end) items)
  | JObject members =>
      S ((fix deepest (ms : list (string * json)) : nat :=
            match ms with
            | [] => 0
            | (_, j') :: ms' => Nat.max (json_depth j') (deepest ms')
            end) members)
  | _ => 1
  end.

(** [Object.prototype] and [Array.prototype], with its method [every],
    are as the realm made them. *)
Definition realm_intact (h : heap) : Prop :=
  h !! Intrinsics.Object_prototype = initial_heap !! Intrinsics.Object_prototype
  /\ h !! Intrinsics.Array_prototype = initial_heap !! Intrinsics.Array_prototype
  /\ h !! Intrinsics.every = initial_heap !! Intrinsics.every.

(** The two loops of [parseLiteral], named. *)
Definition decode_values : list ValueNode -> M (list value) :=
  fix map (vals : list ValueNode) : M (list value) :=
    match vals with
    | [] => ret []
    | val :: rest =>
        item <- parseLiteral val ;;
        items <- map rest ;;
        ret (item :: items)
    end.

Definition assign_fields (obj : loc) : list ObjectFieldNode -> M unit :=
  fix for_of (fields : list ObjectFieldNode) : M unit :=
    match fields with
    | [] => ret tt
    | ObjectField name value :: rest =>
        decoded <- parseLiteral value ;;
        Set_ obj name decoded ;;;
        for_of rest
    end.

Definition decoded_values : list ValueNode -> option (list json) :=
  fix each (vals : list ValueNode) : option (list json) :=
    match vals with
    | [] => Some []
    | val :: rest =>
        match decoded val, each rest with
        | Some j, Some js => Some (j :: js)
        | _, _ => None
        end
    end.

Definition decoded_fields
    : list ObjectFieldNode -> list (string * json) -> option (list (string * json)) :=
  fix each (fs : list ObjectFieldNode) (members : list (string * json))
      : option (list (string * json)) :=
    match fs with
    | [] => Some members
    | ObjectField name value :: rest =>
        match decoded value with
        | Some j => each rest (insert_member name j members)
        | None => None
        end
    end.

(** What it is for the decoder to build the tree of one node. *)
Definition decodes_to_tree (ast : ValueNode) : Prop :=
  forall j h,
    decoded ast = Some j ->
    names_field "__proto__" ast = false ->
    exists v h',
      parseLiteral ast h = (Normal v, h')
      /\ extends h h'
      /\ represents_within (dom h' ∖ dom h) h' v j.

(** The object that the OBJECT case fills: it is at [obj], outside the
    locations [B] that existed before, and its properties are the members
    decoded so far, built from objects that are newer than [B] and are not
    [obj] itself. *)
Definition object_under_construction (B : gset loc) (obj : loc) (h : heap)
    (props : list (string * property)) (members : list (string * json)) : Prop :=
  h !! obj = Some (Object (Some Intrinsics.Object_prototype) OrdinaryObject props)
  /\ Forall2 (member_represented (dom h ∖ B ∖ {[obj]}) h) props members.

(** Does some member of the tree, at any depth, bear this name? *)
Fixpoint json_names (name : string) (j : json) : bool :=
  match j with
  | JArray items =>
      (fix any (js : list json) : bool :=
         match js with
         | [] => false
         | j' :: rest => json_names name j' || any rest
         end) items
  | JObject members =>
      (fix any (ms : list (string * json)) : bool :=
         match ms with
         | [] => false
         | (k, j') :: rest => String.eqb k name || json_names name j' || any rest
         end) members
  | _ => false
  end.

Definition member_names (name : string) (m : string * json) : bool :=
  String.eqb (fst m) name || json_names name (snd m).

(** ** Objects used in the examples *)

Module Examples.
Definition plain (props : list (string * value)) : object :=
  Object (Some Intrinsics.Object_prototype) OrdinaryObject
         (prod_map id visible <$> props).

Definition array (elements : list (option value)) : object :=
  Object (Some Intrinsics.Array_prototype) (ArrayObject elements) [].

Definition one : value := VNumber (number_of_Z 1).
Definition two : value := VNumber (number_of_Z 2).
Definition three : value := VNumber (number_of_Z 3).

(** [{a: 1, b: {c: [1, 2, {d: "test"}], e: null}, f: [true, false]}] *)
Definition nested : loc := 20%positive.
Definition nested_b : loc := 21%positive.
Definition nested_c : loc := 22%positive.
Definition nested_d : loc := 23%positive.
Definition nested_f : loc := 24%positive.

(** [class TestClass {}] and [new TestClass()] *)
Definition TestClass : loc := 30%positive.
Definition TestClass_prototype : loc := 31%positive.
Definition test_instance : loc := 32%positive.

(** [new Date("2023-01-01T00:00:00.000Z")], [new Date(NaN)] and
    [Object.create(Date.prototype)] *)
Definition new_year : loc := 40%positive.
Definition invalid_date : loc := 41%positive.
Definition date_impostor : loc := 42%positive.
(** [new Date(253402300800000)], the first instant of the year 10000 *)
Definition year_10000 : loc := 43%positive.
(** [const d = new Date(0); d.toISOString = 1], and
    [const s = new Date(0); s.toISOString = () => 7] *)
Definition shadowed_date : loc := 44%positive.
Definition stamped : loc := 45%positive.
Definition seven : loc := 46%positive.

(** [class MyArray extends Array {}] and [MyArray.of(1, "a")] *)
Definition MyArray : loc := 50%positive.
Definition MyArray_prototype : loc := 51%positive.
Definition my_array : loc := 52%positive.

(** [class Picky extends Array { every() { return false; } }] and
    [Picky.of(1)] *)
Definition Picky : loc := 53%positive.
Definition Picky_prototype : loc := 54%positive.
Definition Picky_every : loc := 55%positive.
Definition picky : loc := 56%positive.

(** [const filler = Object.create(Array.prototype); filler[0] = undefined]
    and [Object.setPrototypeOf([ , 1], filler)] *)
Definition filler : loc := 57%positive.
Definition filled : loc := 58%positive.

(** [const cyclic = []; cyclic.push(cyclic)] *)
Definition cyclic : loc := 60%positive.

(** [[1, undefined, 3]], [[1, , 3]], [{a: 1, b: () => {}}], [[]],
    [{}], and [Object.create(null)] with the property [x: undefined] *)
Definition with_undefined : loc := 70%positive.
Definition sparse : loc := 71%positive.
Definition with_function : loc := 72%positive.
Definition arrow : loc := 73%positive.
Definition empty_array : loc := 74%positive.
Definition empty_object : loc := 75%positive.
Definition bare : loc := 76%positive.

(** [Object.setPrototypeOf([1], null)], [const a = [1]; a.every = 1] and
    [Object.setPrototypeOf([1], Error.prototype)] *)
Definition bare_array : loc := 77%positive.
Definition shadowed : loc := 78%positive.
Definition error_array : loc := 79%positive.

Definition objects : list (loc * object) := [
  (nested, plain [("a", one); ("b", VObject nested_b); ("f", VObject nested_f)]);
  (nested_b, plain [("c", VObject nested_c); ("e", VNull)]);
  (nested_c, array [Some one; Some two; Some (VObject nested_d)]);
  (nested_d, plain [("d", VString "test")]);
  (nested_f, array [Some (VBoolean true); Some (VBoolean false)]);
  (TestClass, constructor_object);
  (TestClass_prototype,
     prototype_object OrdinaryObject (Some Intrinsics.Object_prototype) TestClass);
  (test_instance, Object (Some TestClass_prototype) OrdinaryObject []);
  (new_year,
     Object (Some Intrinsics.Date_prototype) (DateObject (Some 1672531200000%Z)) []);
  (invalid_date, Object (Some Intrinsics.Date_prototype) (DateObject None) []);
  (date_impostor, Object (Some Intrinsics.Date_prototype) OrdinaryObject []);
  (year_10000,
     Object (Some Intrinsics.Date_prototype) (DateObject (Some 253402300800000%Z)) []);
  (shadowed_date,
     Object (Some Intrinsics.Date_prototype) (DateObject (Some 0%Z))
            [("toISOString", visible one)]);
  (stamped,
     Object (Some Intrinsics.Date_prototype) (DateObject (Some 0%Z))
            [("toISOString", visible (VObject seven))]);
  (seven, builtin_function);
  (MyArray, Object (Some Intrinsics.Array) FunctionObject []);
  (MyArray_prototype,
     prototype_object OrdinaryObject (Some Intrinsics.Array_prototype) MyArray);
  (my_array,
     Object (Some MyArray_prototype) (ArrayObject [Some one; Some (VString "a")]) []);
  (Picky, Object (Some Intrinsics.Array) FunctionObject []);
  (Picky_prototype,
     prototype_with_method OrdinaryObject (Some Intrinsics.Array_prototype) Picky
       "every" Picky_every);
  (Picky_every, builtin_function);
  (picky, Object (Some Picky_prototype) (ArrayObject [Some one]) []);
  (filler,
     Object (Some Intrinsics.Array_prototype) OrdinaryObject
            [("0", visible VUndefined)]);
  (filled, Object (Some filler) (ArrayObject [None; Some one]) []);
  (cyclic, array [Some (VObject cyclic)]);
  (with_undefined, array [Some one; Some VUndefined; Some three]);
  (sparse, array [Some one; None; Some three]);
  (with_function, plain [("a", one); ("b", VObject arrow)]);
  (arrow, Object (Some Intrinsics.Function_prototype) FunctionObject []);
  (empty_array, array []);
  (empty_object, plain []);
  (bare, Object None OrdinaryObject [("x", visible VUndefined)]);
  (bare_array, Object None (ArrayObject [Some one]) []);
  (shadowed,
     Object (Some Intrinsics.Array_prototype) (ArrayObject [Some one])
            [("every", visible one)]);
  (error_array, Object (Some Intrinsics.Error_prototype) (ArrayObject [Some one]) [])
].

Definition example_heap : heap := list_to_map objects ∪ initial_heap.

(** [{constructor: 1}], [{__proto__: 1}] and [{__proto__: []}] as
    literals of a query document. *)
Definition constructor_literal : ValueNode :=
  ObjectValue [ObjectField "constructor" (IntValue "1")].
Definition proto_literal : ValueNode :=
  ObjectValue [ObjectField "__proto__" (IntValue "1")].
Definition proto_array_literal : ValueNode :=
  ObjectValue [ObjectField "__proto__" (ListValue [])].
End Examples.

(** ** The caller's code in the examples *)

(** [String(value)] on a primitive that is an element of an array; a
    symbol cannot be converted. *)
Definition element_text (v : value) : option string :=
  match v with
  | VUndefined | VNull => Some ""
  | VBoolean b => Some (if b then "true" else "false")
  | VNumber n => Some (Number_toString n)
  | VString s => Some s
  | VSymbol _ _ => None
  | VBigInt z => Some (BigInt_toString z)
  | VObject _ => None
  end.

(** [Array.prototype.join] with the separator ",", on the texts of the
    items. *)
Fixpoint join (texts : list string) : string :=
  match texts with
  | [] => ""
  | [text] => text
  | text :: rest => text ++ "," ++ join rest
  end.

(** The text of an object that has no conversion method of its own, with
    [fuel] nested calls at hand: an array that inherits from
    [Array.prototype] answers through [Array.prototype.toString], which
    joins the texts of its items, [undefined], [null] and an array that
    is being joined already giving the empty text; another object that
    inherits from [Object.prototype] answers through
    [Object.prototype.toString]; an object that inherits from neither has
    no method to answer with ([None]). *)
Fixpoint object_text (fuel : nat) (joining : list loc) (h : heap) (l : loc)
    : option string :=
  match fuel with
  | O => None
  | S fuel' =>
      if Array_isArray h (VObject l)
         && in_prototype_chain (chain_bound h) h l Intrinsics.Array_prototype
      then
        if bool_decide (l ∈ joining) then Some ""
        else
          join <$> mapM (fun item =>
            match item with
            | Some (VObject l') => object_text fuel' (l :: joining) h l'
            | Some v => element_text v
            | None => Some ""
            end) (array_items h l)
      else if Pos.eqb l Intrinsics.Object_prototype
              || in_prototype_chain (chain_bound h) h l Intrinsics.Object_prototype
      then Some (if Array_isArray h (VObject l) then "[object Array]"
                 else "[object Object]")
      else None
  end.

(** A host for the objects of the examples. It converts plain objects and
    arrays, none of which has a conversion method of its own; the text of
    a function, a date, a regular expression or an error, which the
    methods of their prototypes make, is not described by it. The
    functions of the examples that are called are the method of [Picky],
    which returns [false], and the one put on the date [stamped], which
    returns 7; any other is taken to return [undefined], as [() => {}]
    does. *)
Definition default_host : Host :=
  {| object_to_string := fun l =>
       text <- gets (fun h => object_text (chain_bound h) [] h l) ;;
       match text with
       | Some text => ret text
       | None => throw (TypeError "Cannot convert object to primitive value")
       end;
     call_function := fun f this callbackfn =>
       if Pos.eqb f Examples.Picky_every then ret (VBoolean false)
       else if Pos.eqb f Examples.seven then ret (VNumber (number_of_Z 7))
       else ret VUndefined;
     describe_receiver := fun h l =>
       if Array_isArray h (VObject l) then "[object Array]"
       else "[object Object]" |}.

(** ** Notions used in the further properties *)

(** The kind of the first node, in the order in which the decoder visits
    the literal, that is of no supported kind. *)
Fixpoint first_unsupported (ast : ValueNode) : option string :=
  match ast with
  | Variable_ _ | EnumValue _ => Some (kind ast)
  | ListValue values =>
      (fix first (vals : list ValueNode) : option string :=
         match vals with
         | [] => None
         | val :: rest =>
             match first_unsupported val with
             | Some k => Some k
             | None => first rest
             end
         end) values
  | ObjectValue fields =>
      (fix first (fs : list ObjectFieldNode) : option string :=
         match fs with
         | [] => None
         | ObjectField _ value :: rest =>
             match first_unsupported value with
             | Some k => Some k
             | None => first rest
             end
         end) fields
  | _ => None
  end.

(** The two loops of [first_unsupported], named. *)
Definition first_unsupported_value : list ValueNode -> option string :=
  fix first (vals : list ValueNode) : option string :=
    match vals with
    | [] => None
    | val :: rest =>
        match first_unsupported val with
        | Some k => Some k
        | None => first rest
        end
    end.

Definition first_unsupported_field : list ObjectFieldNode -> option string :=
  fix first (fs : list ObjectFieldNode) : option string :=
    match fs with
    | [] => None
    | ObjectField _ value :: rest =>
        match first_unsupported value with
        | Some k => Some k
        | None => first rest
        end
    end.

(** What it is for a run of the decoder to keep the heap it was given. *)
Definition keeps_objects (ast : ValueNode) : Prop :=
  forall h c h', parseLiteral ast h = (c, h') -> extends h h'.

(** The number of list and object nodes of a literal. *)
Fixpoint containers (ast : ValueNode) : nat :=
  match ast with
  | ListValue values =>
      S ((fix count (vals : list ValueNode) : nat :=
            match vals with
            | [] => 0
            | val :: rest => containers val + count rest
            end) values)
  | ObjectValue fields =>
      S ((fix count (fs : list ObjectFieldNode) : nat :=
            match fs with
            | [] => 0
            | ObjectField _ value :: rest => containers value + count rest
            end) fields)
  | _ => 0
  end.

Definition containers_of_values : list ValueNode -> nat :=
  fix count (vals : list ValueNode) : nat :=
    match vals with
    | [] => 0
    | val :: rest => containers val + count rest
    end.

Definition containers_of_fields : list ObjectFieldNode -> nat :=
  fix count (fs : list ObjectFieldNode) : nat :=
    match fs with
    | [] => 0
    | ObjectField _ value :: rest => containers value + count rest
    end.

(** The exceptions of the decoder: the TypeError that names an
    unsupported kind, and the one of the setter of [__proto__]. *)
Definition decoder_exception (e : exn) : Prop :=
  (exists k, e = unsupported_literal k /\ (k = "Variable" \/ k = "EnumValue"))
  \/ e = TypeError "Cyclic __proto__ value".

(** A run that has made at most [budget] objects and that, when it
    throws, throws an exception of the decoder. *)
Definition bounded {A} (budget : nat) (h : heap) (run : completion A * heap)
    : Prop :=
  size (snd run) <= size h + budget
  /\ match fst run with
     | Normal _ => True
     | Throw e => decoder_exception e
     end.

Definition bounded_run (ast : ValueNode) : Prop :=
  forall h, bounded (containers ast) h (parseLiteral ast h).

Definition throws_first_unsupported (ast : ValueNode) : Prop :=
  forall k h,
    names_field "__proto__" ast = false ->
    first_unsupported ast = Some k ->
    exists h', parseLiteral ast h = (Throw (unsupported_literal k), h').

Definition field_name (field : ObjectFieldNode) : string :=
  match field with ObjectField name _ => name end.

Definition field_value (field : ObjectFieldNode) : ValueNode :=
  match field with ObjectField _ value => value end.

(** A number, a string or a boolean, written as a literal. *)
Definition scalar_literal (ast : ValueNode) : bool :=
  match ast with
  | IntValue _ | FloatValue _ | StringValue _ | BooleanValue _ => true
  | _ => false
  end.

(** The fields of an object literal, those of one name left out. *)
Definition without_field (name : string) (fields : list ObjectFieldNode)
    : list ObjectFieldNode :=
  List.filter (fun field => negb (String.eqb (field_name field) name)) fields.

(** Is every field named [__proto__] given a number, a string or a
    boolean? *)
Definition proto_fields_scalar (fields : list ObjectFieldNode) : bool :=
  forallb (fun field =>
             negb (String.eqb (field_name field) "__proto__")
             || scalar_literal (field_value field)) fields.

(** The object at [obj] inherits from [Object.prototype] and has no own
    property [__proto__]: an assignment to that key reaches the setter. *)
Definition proto_setter_in_reach (obj : loc) (h : heap) : Prop :=
  obj ∈ dom h
  /\ obj_prototype (object_at h obj) = Some Intrinsics.Object_prototype
  /\ own_property (object_at h obj) "__proto__" = None.

(** The values that the validator goes on to validate when it is given
    the object at [l] and runs the built-in loop on it: the items of an
    array, index by index, or the values that [Object.values] lists for
    an object whose constructor passes the test. [None] when there is no
    such loop: the object is rejected before ([rejected_early]: a
    function, an instance of Date, RegExp or Error, an object with
    another constructor), or the [every] that the lookup finds is not the
    built-in function. *)
Definition rejected_early (h : heap) (l : loc) : bool :=
  String.eqb (typeof h (VObject l)) "function"
  || boxed_instance h (VObject l)
  || negb (Array_isArray h (VObject l))
     && foreign_constructor (Get h l "constructor").

Definition validated_children (h : heap) (l : loc) : option (list (option value)) :=
  if String.eqb (typeof h (VObject l)) "function" then None
  else if boxed_instance h (VObject l) then None
  else if Array_isArray h (VObject l) then
    if every_builtin h l then Some (array_items h l) else None
  else if foreign_constructor (Get h l "constructor") then None
  else if every_builtin h Intrinsics.Array_prototype
  then Some (Some <$> Object_values h l)
  else None.

(** ** scripts/rename-cjs.js

    The script moves the files that the CommonJS build has left in
    [dist-cjs] into [dist]. First comes the part that decides which file
    is moved and under which name, then the script on the files of the
    two directories. File names are the paths relative to [dist-cjs] that
    [readdirSync] lists, and a new name is relative to [dist]; a name is
    a sequence of code units, which is all that [endsWith] and [replace]
    look at. *)

(** The part of [s] before [suffix], when [s] ends with it. *)
Fixpoint strip_suffix (suffix s : string) : option string :=
  if String.eqb s suffix then Some EmptyString
  else
    match s with
    | EmptyString => None
    | String c rest => String c <$> strip_suffix suffix rest
    end.

(** [s.endsWith(searchString)] *)
Definition endsWith (s searchString : string) : bool :=
  match strip_suffix searchString s with
  | Some _ => true
  | None => false
  end.

(** [s.replace(/\.ext$/, replacement)], for a regular expression that is
    a literal extension anchored at the end of the input: the extension
    is replaced where it ends the string, and any other string is
    returned as it is. *)
Definition replace_at_end (extension replacement s : string) : string :=
  match strip_suffix extension s with
  | Some stem => stem ++ replacement
  | None => s
  end.

(** The body of the loop, for one [file]:
<<
  if (typeof file === "string" &&
      (file.endsWith(".js") || file.endsWith(".js.map"))) {
    const oldPath = join(distCjsDir, file);
    const newPath = join(distDir,
      file.replace(/\.js$/, ".cjs").replace(/\.map$/, ".map"));
    ...
    renameSync(oldPath, newPath);
  } else if (typeof file === "string" &&
             (file.endsWith(".d.ts") || file.endsWith(".d.ts.map"))) {
    // nothing
  }
>>
    [readdirSync] is called without [withFileTypes] and lists strings, so
    that [typeof file === "string"] holds of every entry. The result is
    the name under which the file is moved, [None] for a file that is not
    moved (and that goes when [dist-cjs] is removed). *)
Definition new_name (file : string) : option string :=
  if endsWith file ".js" || endsWith file ".js.map" then
    Some (replace_at_end ".map" ".map" (replace_at_end ".js" ".cjs" file))
  else None.

(** The moves that the loop makes, in the order of the listing. *)
Definition moves (files : list string) : list (string * string) :=
  omap (fun file => pair file <$> new_name file) files.

(** The files of a directory tree: the path of each file, relative to the
    root of the tree, and its content. Directories are not represented:
    the script creates the directory of a destination before it moves a
    file there ([mkdirSync] with [recursive]), and a listing may name
    directories, which the loop passes over unless their name ends like
    that of a script. A directory with such a name, which [renameSync]
    would move with all that is in it, is outside of this description:
    the names that end in [.js] or [.js.map] are taken to be names of
    files. *)
Abbreviation directory := (gmap string string).

(** [dist-cjs], which may not exist, and [dist]. *)
Record file_system : Type := FileSystem {
  dist_cjs : option directory;
  dist : directory
}.

(** How the script ends: it runs to its end, it calls [process.exit], or
    a call of [fs] throws. What it prints is left out. *)
Inductive termination : Type :=
  | Finished
  | Exited (code : Z)
  | Thrown (error : string).

(** The loop: [renameSync(oldPath, newPath)] takes the file away from
    [dist-cjs] and puts it at its new name in [dist], in the place of a
    file that is there already; it throws when there is nothing at
    [oldPath]. The result tells whether the loop came to its end. *)
Fixpoint move_files (files : list string) (source target : directory)
    : bool * directory * directory :=
  match files with
  | [] => (true, source, target)
  | file :: rest =>
      match new_name file with
      | Some name =>
          match source !! file with
          | Some content =>
              move_files rest (delete file source) (<[name := content]> target)
          | None => (false, source, target)
          end
      | None => move_files rest source target
      end
  end.

(** The script, given what [readdirSync(distCjsDir, { recursive: true })]
    lists:
<<
  if (!existsSync(distCjsDir)) {
    console.error("dist-cjs directory not found");
    process.exit(1);
  }
  const files = readdirSync(distCjsDir, { recursive: true });
  for (const file of files) { ... }
  rmSync(distCjsDir, { recursive: true, force: true });
>> *)
Definition rename_cjs (files : list string) (fs : file_system)
    : termination * file_system :=
  match dist_cjs fs with
  | None => (Exited 1, fs)
  | Some source =>
      match move_files files source (dist fs) with
      | (true, _, target) => (Finished, FileSystem None target)
      | (false, source', target) =>
          (Thrown "ENOENT", FileSystem (Some source') target)
      end
  end.

(** ** Further objects and literals for the examples *)

Module Gallery.
Import Examples.

(** [{a: 1, b: [2, RED, $x]}], with an enum value and a variable in the
    list, and [{a: 1, b: {c: [1, 2, {d: "test"}], e: null}, f: [true,
    false]}] as literals of a query document, the second with the tree
    that the table gives for it. *)
Definition enum_in_list : ValueNode :=
  ObjectValue [ObjectField "a" (IntValue "1");
               ObjectField "b" (ListValue [IntValue "2"; EnumValue "RED";
                                           Variable_ "x"])].

Definition nested_literal : ValueNode :=
  ObjectValue [
    ObjectField "a" (IntValue "1");
    ObjectField "b" (ObjectValue [
      ObjectField "c" (ListValue [IntValue "1"; IntValue "2";
                                  ObjectValue [ObjectField "d" (StringValue "test")]]);
      ObjectField "e" NullValue]);
    ObjectField "f" (ListValue [BooleanValue true; BooleanValue false])].

Definition nested_tree : json :=
  JObject [
    ("a", JNumber (number_of_Z 1));
    ("b", JObject [
       ("c", JArray [JNumber (number_of_Z 1); JNumber (number_of_Z 2);
                     JObject [("d", JString "test")]]);
       ("e", JNull)]);
    ("f", JArray [JBoolean true; JBoolean false])].

(** The fields of [{a: 1, __proto__: "x", b: true, __proto__: 2}] and of
    [{a: 1, constructor: {name: "Object"}}] *)
Definition proto_fields : list ObjectFieldNode :=
  [ObjectField "a" (IntValue "1");
   ObjectField "__proto__" (StringValue "x");
   ObjectField "b" (BooleanValue true);
   ObjectField "__proto__" (IntValue "2")].

Definition constructor_fields : list ObjectFieldNode :=
  [ObjectField "a" (IntValue "1");
   ObjectField "constructor"
     (ObjectValue [ObjectField "name" (StringValue "Object")])].

(** [const node = {name: "node"}; node.self = node], [[undefined, cyclic]]
    and [[cyclic, undefined]], [{when: new Date(...)}], [[1, 3]],
    [new Array(3)], an object made by [Object.create({greet() {}})] with
    the property [x: 1] and a non-enumerable [secret] that holds a
    function, and [[3, undefined, 1]]. *)
Definition self_object : loc := 80%positive.
Definition guarded : loc := 81%positive.
Definition with_date : loc := 82%positive.
Definition dense : loc := 83%positive.
Definition holes : loc := 84%positive.
Definition method_holder : loc := 85%positive.
Definition inheritor : loc := 86%positive.
Definition reordered : loc := 87%positive.
Definition cycle_first : loc := 88%positive.

Definition more_objects : list (loc * object) := [
  (self_object, plain [("name", VString "node"); ("self", VObject self_object)]);
  (guarded, array [Some VUndefined; Some (VObject cyclic)]);
  (with_date, plain [("when", VObject new_year)]);
  (dense, array [Some one; Some three]);
  (holes, array [None; None; None]);
  (method_holder, plain [("greet", VObject arrow)]);
  (inheritor,
     Object (Some method_holder) OrdinaryObject
            [("x", visible one); ("secret", hidden (VObject arrow))]);
  (reordered, array [Some three; Some VUndefined; Some one]);
  (cycle_first, array [Some (VObject cyclic); Some VUndefined])
].

Definition gallery_heap : heap := list_to_map more_objects ∪ example_heap.

(** [{__proto__: {admin: true}}] *)
Definition admin_fields : list ObjectFieldNode :=
  [ObjectField "admin" (BooleanValue true)].
Definition admin_literal : ValueNode :=
  ObjectValue [ObjectField "__proto__" (ObjectValue admin_fields)].
End Gallery.

Module Build.
(** A build of one module: what the CommonJS build has left in [dist-cjs]
    and what the ESM build has left in [dist]. *)
Definition cjs_output : directory :=
  list_to_map [("index.js", "cjs code"); ("index.js.map", "cjs map");
               ("index.d.ts", "cjs types")].
Definition esm_output : directory :=
  list_to_map [("index.js", "esm code"); ("index.js.map", "esm map");
               ("index.d.ts", "esm types")].
Definition listing : list string := ["index.d.ts"; "index.js"; "index.js.map"].
End Build.

(** * Properties *)

(** Case analysis on every test that the goal branches on. *)
Ltac split_tests :=
  repeat match goal with
         | |- context [if ?test then _ else _] => destruct test
         end.

(** ** Running a computation *)

Lemma bind_gets {A B} (f : heap -> A) (k : A -> M B) h :
  bind (gets f) k h = k (f h) h.
Proof. reflexivity. Qed.

Lemma bind_ret {A B} (a : A) (k : A -> M B) h : bind (ret a) k h = k a h.
Proof. reflexivity. Qed.

Lemma bind_normal {A B} (m : M A) (k : A -> M B) h a h' :
  m h = (Normal a, h') -> bind m k h = k a h'.
Proof. unfold bind. now intros ->. Qed.

Lemma bind_throw {A B} (m : M A) (k : A -> M B) h e h' :
  m h = (Throw e, h') -> bind m k h = (Throw e, h').
Proof. unfold bind. now intros ->. Qed.

Lemma reads_run {A} (m : M A) h r h' : reads m -> m h = (r, h') -> h' = h.
Proof. intros Hm Hrun. specialize (Hm h). rewrite Hrun in Hm. exact Hm. Qed.

(** ** The loop of [every] *)

Section Every.
Variable callbackfn : value -> M value.
Variable h : heap.

(** The loop answers [true] when every item passes. *)
Lemma every_present_all items :
  (forall item, item ∈ present_elements items ->
     callbackfn item h = (Normal true, h)) ->
  every_present callbackfn items h = (Normal true, h).
Proof.
  induction items as [|[item|] rest IH]; intros Hall; simpl.
  - reflexivity.
  - rewrite (bind_normal _ _ h (VBoolean true) h).
    + apply IH. intros x Hx. apply Hall. simpl. now right.
    + apply Hall. simpl. left.
  - apply IH. exact Hall.
Qed.

(** One failing item is enough, wherever it stands, as long as the
    callback answers on the others. *)
Lemma every_present_any items bad :
  (forall item, item ∈ present_elements items ->
     exists b : bool, callbackfn item h = (Normal b, h)) ->
  bad ∈ present_elements items ->
  callbackfn bad h = (Normal false, h) ->
  every_present callbackfn items h = (Normal false, h).
Proof.
  induction items as [|[item|] rest IH]; simpl; intros Hall Hbad Hfalse.
  - inversion Hbad.
  - destruct (Hall item) as [[] Hcb]; [left| |].
    + rewrite (bind_normal _ _ _ _ _ Hcb).
      apply elem_of_cons in Hbad as [->|Hbad]; [congruence|].
      apply IH; auto. intros x Hx. apply Hall. now right.
    + now rewrite (bind_normal _ _ _ _ _ Hcb).
  - now apply IH.
Qed.

(** The loop ends with an answer when the callback answers on every
    item. *)
Lemma every_present_answers items :
  (forall item, item ∈ present_elements items ->
     exists b : bool, callbackfn item h = (Normal b, h)) ->
  exists b : bool, every_present callbackfn items h = (Normal b, h).
Proof.
  induction items as [|[item|] rest IH]; simpl; intros Hall.
  - now exists true.
  - destruct (Hall item) as [[] Hcb]; [left| |].
    + rewrite (bind_normal _ _ _ _ _ Hcb).
      apply IH. intros x Hx. apply Hall. now right.
    + rewrite (bind_normal _ _ _ _ _ Hcb). now exists false.
  - now apply IH.
Qed.

(** The loop stops at the first item that fails. *)
Lemma every_present_stops before bad after :
  (forall item, item ∈ present_elements before ->
     callbackfn item h = (Normal true, h)) ->
  callbackfn bad h = (Normal false, h) ->
  every_present callbackfn (before ++ Some bad :: after) h = (Normal false, h).
Proof.
  induction before as [|[item|] rest IH]; simpl; intros Hbefore Hbad.
  - now rewrite (bind_normal _ _ _ _ _ Hbad).
  - rewrite (bind_normal _ _ h (VBoolean true) h).
    + apply IH; auto. intros x Hx. apply Hbefore. now right.
    + apply Hbefore. left.
  - now apply IH.
Qed.

Section Settled.
Variable items : list (option value).
Hypothesis callbackfn_settled :
  forall item, item ∈ present_elements items -> settled (callbackfn item) h.

Lemma every_present_settled : settled (every_present callbackfn items) h.
Proof.
  revert callbackfn_settled.
  induction items as [|[item|] rest IH]; simpl; intros Hall.
  - now left.
  - destruct (Hall item) as [Hcb|[Hcb|Hcb]]; [left| | |].
    + unfold settled. rewrite (bind_normal _ _ _ _ _ Hcb).
      apply IH. intros x Hx. apply Hall. now right.
    + unfold settled. rewrite (bind_normal _ _ _ _ _ Hcb). now right; left.
    + unfold settled. rewrite (bind_throw _ _ _ _ _ Hcb). now right; right.
  - now apply IH.
Qed.

(** When it answers [true], every item passed. *)
Lemma every_present_true r h' :
  every_present callbackfn items h = (Normal r, h') -> ToBoolean r = true ->
  forall item, item ∈ present_elements items ->
    callbackfn item h = (Normal true, h).
Proof.
  revert callbackfn_settled.
  induction items as [|[item|] rest IH]; simpl; intros Hall Hrun Htrue x Hx.
  - inversion Hx.
  - destruct (Hall item) as [Hcb|[Hcb|Hcb]]; [left| | |].
    + rewrite (bind_normal _ _ _ _ _ Hcb) in Hrun. simpl in Hrun.
      apply elem_of_cons in Hx as [->|Hx]; [exact Hcb|].
      apply IH; auto. intros y Hy. apply Hall. now right.
    + rewrite (bind_normal _ _ _ _ _ Hcb) in Hrun. simpl in Hrun.
      injection Hrun as <- <-. discriminate.
    + rewrite (bind_throw _ _ _ _ _ Hcb) in Hrun. discriminate.
  - now apply IH.
Qed.

(** When it answers [false], some item failed. *)
Lemma every_present_false r h' :
  every_present callbackfn items h = (Normal r, h') -> ToBoolean r = false ->
  exists item, item ∈ present_elements items
               /\ callbackfn item h = (Normal false, h).
Proof.
  revert callbackfn_settled.
  induction items as [|[item|] rest IH]; simpl; intros Hall Hrun Hfalse.
  - injection Hrun as <- <-. discriminate.
  - destruct (Hall item) as [Hcb|[Hcb|Hcb]]; [left| | |].
    + rewrite (bind_normal _ _ _ _ _ Hcb) in Hrun. simpl in Hrun.
      destruct IH as (x & Hx & Hbad); auto.
      { intros y Hy. apply Hall. now right. }
      exists x. split; [now right|exact Hbad].
    + exists item. split; [left|exact Hcb].
    + rewrite (bind_throw _ _ _ _ _ Hcb) in Hrun. discriminate.
  - destruct IH as (x & Hx & Hbad); auto. now exists x.
Qed.

(** When it throws, some item made it throw. *)
Lemma every_present_throws e h' :
  every_present callbackfn items h = (Throw e, h') ->
  exists item, item ∈ present_elements items
               /\ callbackfn item h = (Throw e, h).
Proof.
  revert callbackfn_settled.
  induction items as [|[item|] rest IH]; simpl; intros Hall Hrun.
  - discriminate.
  - destruct (Hall item) as [Hcb|[Hcb|Hcb]]; [left| | |].
    + rewrite (bind_normal _ _ _ _ _ Hcb) in Hrun. simpl in Hrun.
      destruct IH as (x & Hx & Hbad); auto.
      { intros y Hy. apply Hall. now right. }
      exists x. split; [now right|exact Hbad].
    + rewrite (bind_normal _ _ _ _ _ Hcb) in Hrun. discriminate.
    + rewrite (bind_throw _ _ _ _ _ Hcb) in Hrun. injection Hrun as <- <-.
      exists item. split; [left|exact Hcb].
  - destruct IH as (x & Hx & Hbad); auto. now exists x.
Qed.

Lemma settled_stable : stable callbackfn items h.
Proof.
  revert callbackfn_settled.
  induction items as [|[item|] rest IH]; simpl; intros Hall; auto.
  intros r h' Hrun Htrue.
  assert (Hrest : stable callbackfn rest h).
  { apply IH. intros x Hx. apply Hall. now right. }
  destruct (Hall item) as [Hcb|[Hcb|Hcb]]; [left| | |];
    rewrite Hcb in Hrun; try discriminate; injection Hrun as <- <-;
    [now split|discriminate].
Qed.
End Settled.
End Every.

Lemma present_elements_Some (items : list value) :
  present_elements (Some <$> items) = items.
Proof.
  unfold present_elements.
  induction items as [|item rest IH]; simpl; [reflexivity|now f_equal].
Qed.

Lemma present_elements_app (before after : list (option value)) :
  present_elements (before ++ after) =
    (present_elements before ++ present_elements after)%list.
Proof. unfold present_elements. apply omap_app. Qed.

(** Items that pass are items on which the loop goes on in the same
    heap. *)
Lemma stable_stops (f : value -> M value) before bad after h :
  (forall item, item ∈ present_elements before -> f item h = (Normal true, h)) ->
  f bad h = (Normal false, h) ->
  stable f (before ++ Some bad :: after) h.
Proof.
  induction before as [|[item|] rest IH]; simpl; intros Hbefore Hbad.
  - intros r h' Hrun Htrue. rewrite Hbad in Hrun. injection Hrun as <- <-.
    discriminate.
  - intros r h' Hrun Htrue. rewrite Hbefore in Hrun by left.
    injection Hrun as <- <-. split; [reflexivity|].
    apply IH; auto. intros x Hx. apply Hbefore. now right.
  - now apply IH.
Qed.

Lemma stable_all (f : value -> M value) items h :
  (forall item, item ∈ present_elements items ->
     exists b : bool, f item h = (Normal b, h)) ->
  stable f items h.
Proof.
  induction items as [|[item|] rest IH]; simpl; intros Hall; auto.
  intros r h' Hrun Htrue. destruct (Hall item) as [b Hb]; [left|].
  rewrite Hb in Hrun. injection Hrun as <- <-. split; [reflexivity|].
  apply IH. intros x Hx. apply Hall. now right.
Qed.

(** The loop on an array of the heap is the loop on the items found when
    it starts, as long as the callback leaves the heap as it is. *)
Lemma every_from_present (f : value -> M value) l count k h :
  stable f (array_item h l <$> seq k count) h ->
  every_from f l k count h = every_present f (array_item h l <$> seq k count) h.
Proof.
  revert k. induction count as [|count IH]; intros k Hstable; [reflexivity|].
  cbn [every_from seq fmap list_fmap every_present] in *.
  rewrite bind_gets.
  destruct (array_item h l k) as [item|]; [|now apply IH].
  cbn [stable] in Hstable. unfold bind.
  destruct (f item h) as [[r|e] h1] eqn:Hrun; [|reflexivity].
  destruct (ToBoolean r) eqn:Htrue; [|reflexivity].
  destruct (Hstable r h1 eq_refl Htrue) as [-> Hrest]. now apply IH.
Qed.

(** ** The validator, case by case *)

Section Validator.
Context `{host : Host}.

Lemma isJSONValue_primitive depth v h :
  (forall l, v <> VObject l) ->
  isJSONValue (S depth) v h =
    (Normal match v with
            | VNull | VString _ | VNumber _ | VBoolean _ => true
            | _ => false
            end, h).
Proof. intros Hv. destruct v; try reflexivity. now destruct (Hv l). Qed.

(** The code on an object, test by test. *)
Lemma isJSONValue_object depth l h :
  isJSONValue (S depth) (VObject l) h =
    if String.eqb (typeof h (VObject l)) "function" then (Normal false, h)
    else if boxed_instance h (VObject l) then (Normal false, h)
    else if Array_isArray h (VObject l) then
      Call (Get h l "every") l (Some (isJSONValue depth)) "value.every" h
    else if foreign_constructor (Get h l "constructor") then (Normal false, h)
    else if every_builtin h Intrinsics.Array_prototype then
      every (isJSONValue depth) (Object_values h l) h
    else
      (array <- new_array (Object_values h l) ;;
       method <- gets (fun h => Get h array "every") ;;
       Call method array (Some (isJSONValue depth)) "Object.values(...).every") h.
Proof.
  cbn [isJSONValue strict_equals]. cbv iota.
  rewrite bind_gets.
  unfold typeof, Array_isArray, boxed_instance, foreign_constructor.
  destruct (obj_internal (object_at h l)) eqn:Hint;
    cbn -[instanceof Get Object_values every_builtin Call new_array];
    rewrite ?bind_gets;
    try reflexivity;
    destruct (instanceof h (VObject l) Intrinsics.Date_prototype
              || instanceof h (VObject l) Intrinsics.RegExp_prototype
              || instanceof h (VObject l) Intrinsics.Error_prototype);
    try reflexivity; rewrite ?bind_gets, ?Hint; try reflexivity.
  all: rewrite bind_gets; destruct (negb _ && negb _); [reflexivity|].
  all: rewrite !bind_gets; now destruct (every_builtin h Intrinsics.Array_prototype).
Qed.

Lemma strict_equals_object v l :
  strict_equals v (VObject l) = true -> v = VObject l.
Proof.
  destruct v as [| | | | | | |l']; try discriminate.
  cbn. now intros ->%Pos.eqb_eq.
Qed.

(** A call of the built-in [every] is the loop. *)
Lemma Call_every_builtin h l (f : value -> M value) callee :
  every_builtin h l = true ->
  Call (Get h l "every") l (Some f) callee h =
    every_from f l 0 (length (array_elements h l)) h.
Proof.
  unfold every_builtin. intros [Hget Hcallable]%andb_true_iff.
  apply strict_equals_object in Hget. rewrite Hget.
  unfold Call. rewrite bind_gets, Hcallable, Pos.eqb_refl.
  unfold Array_prototype_every. now rewrite bind_gets.
Qed.

(** An object that is rejected before any loop. *)
Lemma isJSONValue_rejected_early depth l h :
  rejected_early h l = true ->
  isJSONValue (S depth) (VObject l) h = (Normal false, h).
Proof.
  unfold rejected_early. rewrite isJSONValue_object. intros Hearly.
  destruct (String.eqb (typeof h (VObject l)) "function"); [reflexivity|].
  destruct (boxed_instance h (VObject l)); [reflexivity|].
  destruct (Array_isArray h (VObject l)); [discriminate|].
  simpl in Hearly. now rewrite Hearly.
Qed.

(** An object on which the built-in loop runs: the validator is that
    loop, on the items found when it starts. *)
Lemma isJSONValue_children depth l h children :
  validated_children h l = Some children ->
  stable (isJSONValue depth) children h ->
  isJSONValue (S depth) (VObject l) h =
    every_present (isJSONValue depth) children h.
Proof.
  unfold validated_children. rewrite isJSONValue_object.
  destruct (String.eqb (typeof h (VObject l)) "function"); [discriminate|].
  destruct (boxed_instance h (VObject l)); [discriminate|].
  destruct (Array_isArray h (VObject l)).
  - destruct (every_builtin h l) eqn:Hbuiltin; [|discriminate].
    intros [= <-] Hstable. rewrite Call_every_builtin by exact Hbuiltin.
    now apply every_from_present.
  - destruct (foreign_constructor (Get h l "constructor")); [discriminate|].
    destruct (every_builtin h Intrinsics.Array_prototype); [|discriminate].
    now intros [= <-] _.
Qed.

(** The items of that loop are the contents of the object. *)
Lemma children_contents h l children :
  validated_children h l = Some children ->
  present_elements children = contents h l.
Proof.
  unfold validated_children, contents.
  destruct (String.eqb (typeof h (VObject l)) "function"); [discriminate|].
  destruct (boxed_instance h (VObject l)); [discriminate|].
  destruct (Array_isArray h (VObject l)).
  - destruct (every_builtin h l); [|discriminate]. now intros [= <-].
  - destruct (foreign_constructor (Get h l "constructor")); [discriminate|].
    destruct (every_builtin h Intrinsics.Array_prototype); [|discriminate].
    intros [= <-]. apply present_elements_Some.
Qed.

(** ** Values whose arrays have the built-in [every] *)

Lemma every_builtin_below_content h l child :
  every_builtin_below h (VObject l) -> child ∈ contents h l ->
  every_builtin_below h child.
Proof.
  intros [Hrealm Hbelow] Hchild. split; [exact Hrealm|].
  intros l' Hreach. apply Hbelow.
  eapply rtc_l; [|exact Hreach]. now exists l.
Qed.

(** With the built-in [every] there is a loop, or an early rejection. *)
Lemma every_builtin_below_loop h l :
  every_builtin_below h (VObject l) ->
  validated_children h l = None -> rejected_early h l = true.
Proof.
  intros [Hrealm Hbelow]. unfold validated_children, rejected_early.
  destruct (String.eqb (typeof h (VObject l)) "function"); [reflexivity|].
  destruct (boxed_instance h (VObject l)); [reflexivity|].
  destruct (Array_isArray h (VObject l)) eqn:Harray.
  - rewrite (Hbelow l) by (reflexivity || assumption). discriminate.
  - rewrite Hrealm.
    now destruct (foreign_constructor (Get h l "constructor")).
Qed.

(** Then the validator only reads the heap, and ends with a boolean or
    with the RangeError of the call stack. *)
Lemma isJSONValue_settled depth v h :
  every_builtin_below h v -> settled (isJSONValue depth v) h.
Proof.
  revert v. induction depth as [|depth IH]; intros v Hbelow.
  { now right; right. }
  destruct v as [| | | | | | |l];
    try (now left); try (now right; left).
  destruct (validated_children h l) as [children|] eqn:Hchildren.
  - assert (Hall : forall item, item ∈ present_elements children ->
                     settled (isJSONValue depth item) h).
    { intros item Hitem. apply IH.
      apply (every_builtin_below_content h l); [exact Hbelow|].
      now rewrite <- (children_contents _ _ _ Hchildren). }
    unfold settled.
    rewrite (isJSONValue_children _ _ _ _ Hchildren)
      by now apply settled_stable.
    now apply every_present_settled.
  - right; left. apply isJSONValue_rejected_early.
    now apply every_builtin_below_loop.
Qed.



(** The loop, for these values. *)
Lemma isJSONValue_loop depth l h children :
  every_builtin_below h (VObject l) ->
  validated_children h l = Some children ->
  isJSONValue (S depth) (VObject l) h =
    every_present (isJSONValue depth) children h
  /\ forall item, item ∈ present_elements children ->
       every_builtin_below h item /\ settled (isJSONValue depth item) h.
Proof.
  intros Hbelow Hchildren.
  assert (Hall : forall item, item ∈ present_elements children ->
                   every_builtin_below h item).
  { intros item Hitem.
    apply (every_builtin_below_content h l); [exact Hbelow|].
    now rewrite <- (children_contents _ _ _ Hchildren). }
  split.
  - apply isJSONValue_children; [exact Hchildren|].
    apply settled_stable. intros item Hitem.
    now apply isJSONValue_settled, Hall.
  - intros item Hitem. split; [now apply Hall|].
    now apply isJSONValue_settled, Hall.
Qed.

(** More call frames do not change an answer. *)
Lemma every_present_mono (f g : value -> M value) items h r h' :
  (forall item, item ∈ present_elements items ->
     settled (f item) h
     /\ forall r1 h1, f item h = (Normal r1, h1) -> g item h = (Normal r1, h1)) ->
  every_present f items h = (Normal r, h') ->
  every_present g items h = (Normal r, h').
Proof.
  induction items as [|[item|] rest IH]; simpl; intros Hfg; auto.
  - intros Hrun. destruct (Hfg item) as [Hsettled Hsame]; [left|].
    assert (Hrest : every_present f rest h = (Normal r, h') ->
                    every_present g rest h = (Normal r, h')).
    { apply IH. intros x Hx. apply Hfg. now right. }
    destruct Hsettled as [Hf|[Hf|Hf]].
    + rewrite (bind_normal _ _ _ _ _ Hf) in Hrun.
      rewrite (bind_normal _ _ _ _ _ (Hsame _ _ Hf)). now apply Hrest.
    + rewrite (bind_normal _ _ _ _ _ Hf) in Hrun.
      now rewrite (bind_normal _ _ _ _ _ (Hsame _ _ Hf)).
    + rewrite (bind_throw _ _ _ _ _ Hf) in Hrun. discriminate.
Qed.

Lemma isJSONValue_mono depth depth' v h r h' :
  every_builtin_below h v ->
  depth <= depth' ->
  isJSONValue depth v h = (Normal r, h') ->
  isJSONValue depth' v h = (Normal r, h').
Proof.
  revert depth' v r h'.
  induction depth as [|depth IH]; intros depth' v r h' Hbelow Hle Hrun;
    [discriminate|].
  destruct depth' as [|depth']; [lia|].
  destruct v as [| | | | | | |l]; try exact Hrun.
  destruct (validated_children h l) as [children|] eqn:Hchildren.
  - destruct (isJSONValue_loop depth _ _ _ Hbelow Hchildren) as [Hloop Hitems].
    destruct (isJSONValue_loop depth' _ _ _ Hbelow Hchildren) as [Hloop' _].
    rewrite Hloop in Hrun. rewrite Hloop'.
    apply (every_present_mono (isJSONValue depth)); [|exact Hrun].
    intros item Hitem. destruct (Hitems item Hitem) as [Hbelow' Hsettled].
    split; [exact Hsettled|]. intros r1 h1 Hr1. apply IH; auto. lia.
  - pose proof (every_builtin_below_loop _ _ Hbelow Hchildren) as Hearly.
    rewrite (isJSONValue_rejected_early depth _ _ Hearly) in Hrun.
    now rewrite (isJSONValue_rejected_early depth' _ _ Hearly).
Qed.

Lemma boxed_instance_false h v :
  boxed_instance h v = false <->
  ~ date_like h v /\ ~ regexp_like h v /\ ~ error_like h v.
Proof.
  unfold boxed_instance, date_like, regexp_like, error_like.
  destruct (instanceof h v Intrinsics.Date_prototype),
           (instanceof h v Intrinsics.RegExp_prototype),
           (instanceof h v Intrinsics.Error_prototype); simpl;
    intuition congruence.
Qed.

Lemma foreign_constructor_false c :
  foreign_constructor c = false <-> plain_constructor c.
Proof.
  unfold foreign_constructor, plain_constructor. split.
  - destruct c as [| | | | | | |l]; try discriminate; auto.
    cbn [strict_equals]. intros Heq.
    destruct (Pos.eqb l Intrinsics.Object) eqn:Hl; [|discriminate].
    apply Pos.eqb_eq in Hl. left. now f_equal.
  - intros [-> | ->]; reflexivity.
Qed.

Lemma typeof_function h l :
  String.eqb (typeof h (VObject l)) "function" = false <->
  typeof h (VObject l) <> "function".
Proof. now rewrite <- String.eqb_neq. Qed.

(** The loop runs exactly on the objects that the rules of the domain go
    into. *)
Lemma validated_children_array h l :
  every_builtin h l = true ->
  typeof h (VObject l) <> "function" ->
  ~ date_like h (VObject l) -> ~ regexp_like h (VObject l) ->
  ~ error_like h (VObject l) ->
  Array_isArray h (VObject l) = true ->
  validated_children h l = Some (array_items h l).
Proof.
  intros Hbuiltin Htype Hdate Hregexp Herror Harray.
  unfold validated_children.
  apply typeof_function in Htype. rewrite Htype.
  now rewrite (proj2 (boxed_instance_false _ _)), Harray, Hbuiltin by auto.
Qed.

Lemma validated_children_object h l :
  every_builtin h Intrinsics.Array_prototype = true ->
  typeof h (VObject l) <> "function" ->
  ~ date_like h (VObject l) -> ~ regexp_like h (VObject l) ->
  ~ error_like h (VObject l) ->
  Array_isArray h (VObject l) = false ->
  plain_constructor (constructor_identity h l) ->
  validated_children h l = Some (Some <$> Object_values h l).
Proof.
  intros Hbuiltin Htype Hdate Hregexp Herror Harray Hctor.
  unfold validated_children.
  apply typeof_function in Htype. rewrite Htype.
  rewrite (proj2 (boxed_instance_false _ _)), Harray by auto.
  now rewrite (proj2 (foreign_constructor_false _)), Hbuiltin by exact Hctor.
Qed.



Lemma uniform_depth (P : value -> nat -> Prop) (items : list value) :
  (forall item, item ∈ items -> exists n, forall depth, n <= depth -> P item depth) ->
  exists n, forall item, item ∈ items -> forall depth, n <= depth -> P item depth.
Proof.
  induction items as [|x rest IH]; intros Hall.
  - exists 0. intros item Hitem. inversion Hitem.
  - destruct (Hall x) as [n1 H1]; [left|].
    destruct IH as [n2 H2]; [intros item Hitem; apply Hall; now right|].
    exists (Nat.max n1 n2). intros item Hitem depth Hle.
    apply elem_of_cons in Hitem as [->|Hitem]; [apply H1|apply H2]; auto; lia.
Qed.

(** A value of the domain is answered [true], given enough call frames. *)
Lemma domain_isJSONValue_true h v :
  JsonValueDomain h v ->
  every_builtin_below h v ->
  exists n, forall depth, n <= depth -> isJSONValue depth v h = (Normal true, h).
Proof.
  induction 1 as [| | | |l Htype Hdate Hregexp Herror Harray _ IH
                  |l Htype Hdate Hregexp Herror Harray Hctor _ IH];
    intros Hbelow;
    try (exists 1; intros [|depth] Hle; [lia|reflexivity]).
  - assert (Hchildren : validated_children h l = Some (array_items h l)).
    { apply validated_children_array; auto.
      apply (proj2 Hbelow); [reflexivity|exact Harray]. }
    pose proof (children_contents _ _ _ Hchildren) as Hcontents.
    destruct (uniform_depth (fun item depth =>
                isJSONValue depth item h = (Normal true, h))
                (present_elements (array_items h l))) as [n Hn].
    { intros item Hitem. apply IH; [exact Hitem|].
      apply (every_builtin_below_content h l); [exact Hbelow|].
      now rewrite <- Hcontents. }
    exists (S n). intros [|depth] Hle; [lia|].
    rewrite (proj1 (isJSONValue_loop depth _ _ _ Hbelow Hchildren)).
    apply every_present_all. intros item Hitem. apply Hn; [exact Hitem|lia].
  - assert (Hchildren :
      validated_children h l = Some (Some <$> Object_values h l)).
    { apply validated_children_object; auto. exact (proj1 Hbelow). }
    pose proof (children_contents _ _ _ Hchildren) as Hcontents.
    rewrite present_elements_Some in Hcontents.
    destruct (uniform_depth (fun item depth =>
                isJSONValue depth item h = (Normal true, h))
                (Object_values h l)) as [n Hn].
    { intros item Hitem. apply IH; [exact Hitem|].
      apply (every_builtin_below_content h l); [exact Hbelow|].
      now rewrite <- Hcontents. }
    exists (S n). intros [|depth] Hle; [lia|].
    rewrite (proj1 (isJSONValue_loop depth _ _ _ Hbelow Hchildren)).
    apply every_present_all. intros item Hitem.
    rewrite present_elements_Some in Hitem. apply Hn; [exact Hitem|lia].
Qed.

(** An answer [false] keeps the value out of the domain. *)
Lemma isJSONValue_false_domain depth v h r h' :
  every_builtin_below h v ->
  isJSONValue depth v h = (Normal r, h') -> ToBoolean r = false ->
  ~ JsonValueDomain h v.
Proof.
  intros Hbelow Hrun Hfalse Hdomain.
  destruct (domain_isJSONValue_true _ _ Hdomain Hbelow) as [n Hn].
  pose proof (isJSONValue_mono depth (Nat.max depth n) v h r h'
                Hbelow ltac:(lia) Hrun) as Hagain.
  rewrite Hn in Hagain by lia. injection Hagain as <- <-. discriminate.
Qed.

(** The validator answers on every such value of finite nesting depth. *)
Lemma isJSONValue_answers depth h v :
  every_builtin_below h v ->
  nesting_within depth h v = true ->
  exists b : bool, isJSONValue depth v h = (Normal b, h).
Proof.
  revert v. induction depth as [|depth IH]; intros v Hbelow Hfinite;
    [discriminate|].
  destruct v as [| | | | | | |l]; try (eexists; reflexivity).
  simpl in Hfinite. rewrite forallb_forall in Hfinite.
  destruct (validated_children h l) as [children|] eqn:Hchildren.
  - destruct (isJSONValue_loop depth _ _ _ Hbelow Hchildren) as [Hloop Hitems].
    rewrite Hloop. apply every_present_answers. intros item Hitem.
    apply IH; [now apply Hitems|]. apply Hfinite, list_elem_of_In.
    now rewrite <- (children_contents _ _ _ Hchildren).
  - exists false. apply isJSONValue_rejected_early.
    now apply every_builtin_below_loop.
Qed.

Lemma array_typeof h l :
  Array_isArray h (VObject l) = true -> typeof h (VObject l) = "object".
Proof.
  unfold Array_isArray, typeof.
  now destruct (obj_internal (object_at h l)).
Qed.

Lemma typeof_object_not_function h v :
  typeof h v = "object" -> String.eqb (typeof h v) "function" = false.
Proof. now intros ->. Qed.

(** Rules 3 and 4, and the last rule for a bigint: the verdict is [false]
    before any element or property is looked at. *)
Lemma isJSONValue_rejects depth v h :
  typeof h v = "undefined" \/ typeof h v = "function"
  \/ typeof h v = "symbol" \/ typeof h v = "bigint"
  \/ date_like h v \/ regexp_like h v \/ error_like h v ->
  isJSONValue (S depth) v h = (Normal false, h).
Proof.
  intros Hrule.
  destruct v as [| | | | | | |l];
    try reflexivity;
    try (exfalso; unfold date_like, regexp_like, error_like in Hrule;
         cbn in Hrule; intuition discriminate).
  rewrite isJSONValue_object.
  destruct (String.eqb (typeof h (VObject l)) "function") eqn:Htype;
    [reflexivity|].
  destruct (boxed_instance h (VObject l)) eqn:Hboxed; [reflexivity|].
  exfalso. apply boxed_instance_false in Hboxed as (Hdate & Hregexp & Herror).
  apply typeof_function in Htype.
  assert (Hobject : typeof h (VObject l) = "object").
  { unfold typeof in *. now destruct (obj_internal (object_at h l)). }
  rewrite Hobject in Hrule. intuition discriminate.
Qed.

(** The decided form of [every_builtin_below]. *)
Lemma arrays_builtin_within_below n h v l :
  arrays_builtin_within n h v = true ->
  rtc (holds h) v (VObject l) ->
  Array_isArray h (VObject l) = true -> every_builtin h l = true.
Proof.
  revert v. induction n as [|n IH]; intros v Hwithin Hreach Harray;
    [discriminate|].
  apply rtc_inv in Hreach as [->|(child & (l0 & -> & Hchild) & Hreach)].
  - cbn [arrays_builtin_within] in Hwithin. rewrite Harray in Hwithin.
    now apply andb_true_iff in Hwithin as [? _].
  - cbn [arrays_builtin_within] in Hwithin.
    apply andb_true_iff in Hwithin as [_ Hall].
    rewrite forallb_forall in Hall.
    apply (IH child); auto. now apply Hall, list_elem_of_In.
Qed.

Lemma every_builtin_within_below n h v :
  every_builtin_within n h v = true -> every_builtin_below h v.
Proof.
  unfold every_builtin_within. intros [Hrealm Hwithin]%andb_true_iff.
  split; [exact Hrealm|]. intros l.
  now apply (arrays_builtin_within_below n).
Qed.

Lemma every_builtin_within_nesting n h v :
  every_builtin_within n h v = true -> nesting_within n h v = true.
Proof.
  unfold every_builtin_within. intros [_ Hwithin]%andb_true_iff.
  revert v Hwithin. induction n as [|n IH]; intros v Hwithin; [discriminate|].
  destruct v as [| | | | | | |l]; try reflexivity.
  cbn [arrays_builtin_within nesting_within] in *.
  apply andb_true_iff in Hwithin as [_ Hall].
  rewrite forallb_forall in *. intros x Hx. now apply IH, Hall.
Qed.
End Validator.

(** ** The validator decides the domain *)


(** ** The value converters *)

(** C3. [serialize] and [parseValue] behave identically: on every input,
    heap and stack depth they are the same computation, so that one
    returns a value iff the other returns that value, and one throws iff
    the other throws the same exception, of the same kind and with the
    same message; the heaps they leave are the same. *)
Theorem serialize_parseValue_identical `{host : Host}
    (depth : nat) (v : value) (h : heap) :
  serialize depth v h = parseValue depth v h
  /\ (forall result h',
        serialize depth v h = (Normal result, h') <->
        parseValue depth v h = (Normal result, h'))
  /\ (forall e h',
        serialize depth v h = (Throw e, h') <->
        parseValue depth v h = (Throw e, h')).
Proof.
  assert (Hsame : serialize depth v h = parseValue depth v h)
    by (unfold serialize, parseValue; reflexivity).
  split; [exact Hsame|].
  split; intros; rewrite Hsame; reflexivity.
Qed.

(** What the validator accepts is no instance of [Date]. *)
Lemma isJSONValue_true_not_date `{host : Host} depth v h r h' :
  isJSONValue depth v h = (Normal r, h') -> ToBoolean r = true ->
  instanceof h v Intrinsics.Date_prototype = false.
Proof.
  intros Hrun Htrue.
  destruct (instanceof h v Intrinsics.Date_prototype) eqn:Hdate; [|reflexivity].
  destruct depth as [|depth]; [discriminate|].
  rewrite isJSONValue_rejects in Hrun by (unfold date_like; tauto).
  injection Hrun as <- <-. discriminate.
Qed.

Lemma serialize_valid `{host : Host} depth v h r h' :
  isJSONValue depth v h = (Normal r, h') -> ToBoolean r = true ->
  serialize depth v h = (Normal v, h').
Proof.
  intros Hrun Htrue. unfold serialize.
  rewrite bind_gets, (isJSONValue_true_not_date _ _ _ _ _ Hrun Htrue).
  now rewrite (bind_normal _ _ _ _ _ Hrun), Htrue.
Qed.

Lemma parseValue_valid `{host : Host} depth v h r h' :
  isJSONValue depth v h = (Normal r, h') -> ToBoolean r = true ->
  parseValue depth v h = (Normal v, h').
Proof.
  intros Hrun Htrue. unfold parseValue.
  rewrite bind_gets, (isJSONValue_true_not_date _ _ _ _ _ Hrun Htrue).
  now rewrite (bind_normal _ _ _ _ _ Hrun), Htrue.
Qed.

(** C4. On a value that [isJSONValue] accepts, [serialize] and
    [parseValue] return that very value: for an object or an array the
    same location, not a copy, in a heap that is the one they were given,
    so nothing was allocated and nothing was written. *)
Theorem converters_return_their_input `{host : Host}
    (depth : nat) (v : value) (h : heap) :
  isJSONValue depth v h = (Normal true, h) ->
  serialize depth v h = (Normal v, h) /\ parseValue depth v h = (Normal v, h).
Proof.
  intros Hrun.
  split; [now apply (serialize_valid _ _ _ true)
         |now apply (parseValue_valid _ _ _ true)].
Qed.

Lemma serialize_not_date `{host : Host} depth v h :
  ~ date_like h v ->
  serialize depth v h =
    match isJSONValue depth v h with
    | (Normal r, h1) =>
        if ToBoolean r then (Normal v, h1)
        else
          match JS_String v h1 with
          | (Normal rendered, h2) =>
              (Throw (TypeError (cannot_represent rendered)), h2)
          | (Throw e, h2) => (Throw e, h2)
          end
    | (Throw e, h1) => (Throw e, h1)
    end.
Proof.
  intros Hdate. unfold serialize, date_like in *. rewrite bind_gets.
  destruct (instanceof h v Intrinsics.Date_prototype); [now destruct Hdate|].
  unfold bind. destruct (isJSONValue depth v h) as [[r|e] h1]; [|reflexivity].
  now destruct (ToBoolean r).
Qed.

Lemma parseValue_not_date `{host : Host} depth v h :
  ~ date_like h v ->
  parseValue depth v h =
    match isJSONValue depth v h with
    | (Normal r, h1) =>
        if ToBoolean r then (Normal v, h1)
        else
          match JS_String v h1 with
          | (Normal rendered, h2) =>
              (Throw (TypeError (cannot_represent rendered)), h2)
          | (Throw e, h2) => (Throw e, h2)
          end
    | (Throw e, h1) => (Throw e, h1)
    end.
Proof.
  intros Hdate. unfold parseValue, date_like in *. rewrite bind_gets.
  destruct (instanceof h v Intrinsics.Date_prototype); [now destruct Hdate|].
  unfold bind. destruct (isJSONValue depth v h) as [[r|e] h1]; [|reflexivity].
  now destruct (ToBoolean r).
Qed.

(** On an instance of [Date] the converters are the call
    [value.toISOString()]. *)
Lemma serialize_date `{host : Host} depth l h :
  date_like h (VObject l) ->
  serialize depth (VObject l) h =
    Call (Get h l "toISOString") l None "value.toISOString" h.
Proof.
  intros Hdate. unfold serialize, date_like in *.
  now rewrite bind_gets, Hdate, bind_gets.
Qed.

Lemma parseValue_date `{host : Host} depth l h :
  date_like h (VObject l) ->
  parseValue depth (VObject l) h =
    Call (Get h l "toISOString") l None "value.toISOString" h.
Proof.
  intros Hdate. unfold parseValue, date_like in *.
  now rewrite bind_gets, Hdate, bind_gets.
Qed.

Lemma date_like_object h v : date_like h v -> exists l, v = VObject l.
Proof. destruct v; try discriminate. eauto. Qed.

(** C5, as amended. On an input that is not date-like, [serialize] and
    [parseValue] throw iff the validator does not return [true]. When it
    returns [false] and String(value) yields a rendering, the exception
    is the TypeError whose message is "JSON cannot represent value: " +
    rendering + ".Only plain objects, arrays, and primitives are
    supported."; when the validator itself throws, its exception is
    passed on as it is; in neither case is there a result. On a date-like
    input the validator is not asked: the outcome, a result or an
    exception, is the one of the call [value.toISOString()]. *)
Theorem converters_reject_exactly `{host : Host}
    (depth : nat) (v : value) (h : heap) :
  (~ date_like h v ->
     (forall r h1,
        isJSONValue depth v h = (Normal r, h1) -> ToBoolean r = true ->
        serialize depth v h = (Normal v, h1)
        /\ parseValue depth v h = (Normal v, h1))
     /\ (forall r h1 rendered h',
           isJSONValue depth v h = (Normal r, h1) -> ToBoolean r = false ->
           JS_String v h1 = (Normal rendered, h') ->
           serialize depth v h
             = (Throw (TypeError (cannot_represent rendered)), h')
           /\ parseValue depth v h
             = (Throw (TypeError (cannot_represent rendered)), h'))
     /\ (forall e h1,
           isJSONValue depth v h = (Throw e, h1) ->
           serialize depth v h = (Throw e, h1)
           /\ parseValue depth v h = (Throw e, h1))
     /\ ((exists e h', serialize depth v h = (Throw e, h')) <->
         ~ exists r h1, isJSONValue depth v h = (Normal r, h1)
                        /\ ToBoolean r = true)
     /\ ((exists e h', parseValue depth v h = (Throw e, h')) <->
         ~ exists r h1, isJSONValue depth v h = (Normal r, h1)
                        /\ ToBoolean r = true))
  /\ (date_like h v ->
      exists l, v = VObject l
        /\ serialize depth v h
           = Call (Get h l "toISOString") l None "value.toISOString" h
        /\ parseValue depth v h
           = Call (Get h l "toISOString") l None "value.toISOString" h).
Proof.
  split.
  - intros Hdate.
    rewrite (serialize_not_date _ _ _ Hdate), (parseValue_not_date _ _ _ Hdate).
    destruct (isJSONValue depth v h) as [[r|e] h1] eqn:Hrun.
    + destruct (ToBoolean r) eqn:Htruth.
      * split; [now intros r' h' [= <- <-] _|].
        split; [intros r' h' rendered h2 [= <- <-]; congruence|].
        split; [discriminate|].
        split; (split; [intros (e & h' & Hthrow); discriminate
                       |intros Hnone; destruct Hnone; eauto]).
      * split; [intros r' h' [= <- <-]; congruence|].
        split.
        { intros r' h' rendered h2 [= <- <-] _ Hrender. now rewrite Hrender. }
        split; [discriminate|].
        split; (split; [intros _ (r' & h' & [= <- <-] & Htrue); congruence
                       |intros _; destruct (JS_String v h1) as [[rendered|e] h2];
                        eauto]).
    + split; [discriminate|]. split; [discriminate|].
      split; [now intros e' h' [= <- <-]|].
      split; (split; [intros _ (r' & h' & Hnormal & _); discriminate|eauto]).
  - intros Hdate. destruct (date_like_object _ _ Hdate) as [l ->].
    exists l. split; [reflexivity|].
    split; [now apply serialize_date|now apply parseValue_date].
Qed.

(** ** Dates *)

Lemma is_digit_digit n : is_digit (digit n) = true.
Proof.
  unfold digit.
  pose proof (Z.mod_pos_bound n 10 ltac:(lia)) as Hbound.
  set (r := (n mod 10)%Z) in *.
  assert (Hr : (r = 0 \/ r = 1 \/ r = 2 \/ r = 3 \/ r = 4 \/ r = 5 \/ r = 6
                \/ r = 7 \/ r = 8 \/ r = 9)%Z) by lia.
  clearbody r.
  repeat (destruct Hr as [-> | Hr]; [reflexivity|]). now subst.
Qed.

(** A year from 0000 to 9999 is written with four digits, and the string
    has the 24 characters of [YYYY-MM-DDTHH:mm:ss.sssZ]. *)
Lemma iso_string_pattern tv :
  (0 <= year_of tv <= 9999)%Z -> iso_pattern (iso_string tv) = true.
Proof.
  unfold year_of, iso_string, iso_year.
  destruct (civil_from_days (tv / ms_per_day)) as [[y m] d]. simpl fst.
  intros [Hlow Hhigh].
  apply Z.leb_le in Hlow, Hhigh. rewrite Hlow, Hhigh.
  unfold iso_pattern, pad4, pad3, pad2.
  cbn [String.list_ascii_of_string andb forallb].
  rewrite !is_digit_digit. reflexivity.
Qed.

Lemma iso_string_expanded tv :
  ~ (0 <= year_of tv <= 9999)%Z -> iso_pattern_expanded (iso_string tv) = true.
Proof.
  unfold year_of, iso_string, iso_year.
  destruct (civil_from_days (tv / ms_per_day)) as [[y m] d]. simpl fst.
  intros Hyear.
  destruct ((0 <=? y)%Z && (y <=? 9999)%Z) eqn:Hrange.
  { apply andb_true_iff in Hrange as [Hlow%Z.leb_le Hhigh%Z.leb_le].
    now destruct Hyear. }
  unfold iso_pattern_expanded, pad6, pad4, pad3, pad2.
  destruct (y <? 0)%Z;
    cbn [String.list_ascii_of_string andb forallb];
    now rewrite !is_digit_digit.
Qed.

Lemma toISOString_valid `{host : Host} h l tv :
  obj_internal (object_at h l) = DateObject (Some tv) ->
  Date_prototype_toISOString l h = (Normal (iso_string tv), h).
Proof.
  intros Hslot. unfold Date_prototype_toISOString.
  now rewrite bind_gets, Hslot.
Qed.

(** A call of the built-in [toISOString] on a date with a finite time
    value. *)
Lemma Call_toISOString_builtin `{host : Host} h l tv callee :
  toISOString_builtin h l = true ->
  obj_internal (object_at h l) = DateObject (Some tv) ->
  Call (Get h l "toISOString") l None callee h
    = (Normal (VString (iso_string tv)), h).
Proof.
  unfold toISOString_builtin. intros [Hget Hcallable]%andb_true_iff Hslot.
  apply strict_equals_object in Hget. rewrite Hget.
  unfold Call. rewrite bind_gets, Hcallable. cbn [Pos.eqb Intrinsics.toISOString
    Intrinsics.every].
  now rewrite (bind_normal _ _ _ _ _ (toISOString_valid _ _ _ Hslot)).
Qed.

(** C6, as amended. For every date-like value that is a Date object with
    a finite time value and whose [toISOString] is the built-in method,
    [serialize] and [parseValue] return the ISO 8601 string of that time
    value and leave the heap alone. They do so whatever number of call
    frames is left, zero included, with which the validator could not
    run. The result is a string, which the validator accepts and which is
    in the JSON-Value domain. When the year is from 0000 to 9999 the
    string has the form YYYY-MM-DDTHH:mm:ss.sssZ, and for any other year
    the expanded form with a sign and six digits. *)
Theorem valid_date_to_iso_string `{host : Host}
    (depth : nat) (h : heap) (l : loc) (tv : Z) :
  date_like h (VObject l) ->
  obj_internal (object_at h l) = DateObject (Some tv) ->
  toISOString_builtin h l = true ->
  serialize depth (VObject l) h = (Normal (VString (iso_string tv)), h)
  /\ parseValue depth (VObject l) h = (Normal (VString (iso_string tv)), h)
  /\ isJSONValue 1 (VString (iso_string tv)) h = (Normal true, h)
  /\ JsonValueDomain h (VString (iso_string tv))
  /\ ((0 <= year_of tv <= 9999)%Z -> iso_pattern (iso_string tv) = true)
  /\ (~ (0 <= year_of tv <= 9999)%Z ->
      iso_pattern_expanded (iso_string tv) = true).
Proof.
  intros Hdate Hslot Hbuiltin.
  rewrite (serialize_date _ _ _ Hdate), (parseValue_date _ _ _ Hdate).
  rewrite (Call_toISOString_builtin _ _ _ _ Hbuiltin Hslot).
  split; [reflexivity|]. split; [reflexivity|]. split; [reflexivity|].
  split; [constructor|].
  split; [apply iso_string_pattern|apply iso_string_expanded].
Qed.

(** ** The literal decoder *)

(** C7. On a node whose kind is none of the seven supported ones,
    [parseLiteral] throws a TypeError whose message names that kind and
    lists the seven kinds that are supported; the heap is not touched. *)
Theorem parseLiteral_unsupported_kind (ast : ValueNode) (h : heap) :
  supported ast = false ->
  parseLiteral ast h =
    (Throw (TypeError
       ("JSON cannot represent value: " ++ kind ast ++
        ".Only StringValue, IntValue, FloatValue, BooleanValue, NullValue, ObjectValue, and ListValue are supported")),
     h).
Proof.
  intros Hkind. destruct ast; try (vm_compute in Hkind; discriminate);
    reflexivity.
Qed.

(** ** Arrays of a subclass *)

(** The items of an array without a hole are its elements. *)
Lemma array_items_dense h l items :
  array_elements h l = Some <$> items -> array_items h l = Some <$> items.
Proof.
  intros Helements. unfold array_items. rewrite Helements.
  apply list_eq. intros i. rewrite !list_lookup_fmap, length_fmap.
  destruct (items !! i) as [item|] eqn:Hitem; simpl.
  - rewrite lookup_seq_lt by (eapply lookup_lt_Some; eauto). simpl.
    unfold array_item. rewrite Helements, list_lookup_fmap, Hitem. reflexivity.
  - rewrite lookup_seq_ge; [reflexivity|]. now apply lookup_ge_None.
Qed.

(** C10, as amended. For a value that [Array.isArray] recognises, that is
    no instance of Date, RegExp or Error and whose [every] is the
    built-in method (a subclass of Array that does not override it
    inherits it), the validator runs the loop over the elements and
    nothing else: the constructor of the value does not occur in its
    answer. An array whose elements all validate is accepted whatever its
    constructor is, and both converters return it, the same object in the
    same heap; an array with an element that is rejected, after elements
    that validate, is rejected, and both converters throw. *)
Theorem array_constructor_not_inspected `{host : Host}
    (depth : nat) (h : heap) (l : loc) :
  Array_isArray h (VObject l) = true ->
  boxed_instance h (VObject l) = false ->
  every_builtin h l = true ->
  (stable (isJSONValue depth) (array_items h l) h ->
   isJSONValue (S depth) (VObject l) h
     = every_present (isJSONValue depth) (array_items h l) h)
  /\ ((forall item, item ∈ present_elements (array_items h l) ->
         isJSONValue depth item h = (Normal true, h)) ->
      isJSONValue (S depth) (VObject l) h = (Normal true, h)
      /\ serialize (S depth) (VObject l) h = (Normal (VObject l), h)
      /\ parseValue (S depth) (VObject l) h = (Normal (VObject l), h))
  /\ (forall before bad after,
        array_items h l = (before ++ Some bad :: after)%list ->
        (forall item, item ∈ present_elements before ->
           isJSONValue depth item h = (Normal true, h)) ->
        isJSONValue depth bad h = (Normal false, h) ->
        isJSONValue (S depth) (VObject l) h = (Normal false, h)
        /\ (exists e h', serialize (S depth) (VObject l) h = (Throw e, h'))
        /\ (exists e h', parseValue (S depth) (VObject l) h = (Throw e, h'))).
Proof.
  intros Harray Hboxed Hbuiltin.
  assert (Hchildren : validated_children h l = Some (array_items h l)).
  { unfold validated_children.
    rewrite (typeof_object_not_function _ _ (array_typeof _ _ Harray)).
    now rewrite Hboxed, Harray, Hbuiltin. }
  split; [now apply isJSONValue_children|].
  split.
  - intros Hitems.
    assert (Hvalid : isJSONValue (S depth) (VObject l) h = (Normal true, h)).
    { rewrite (isJSONValue_children _ _ _ _ Hchildren).
      - now apply every_present_all.
      - apply stable_all. intros item Hitem. exists true. now apply Hitems. }
    split; [exact Hvalid|].
    split; [now apply (serialize_valid _ _ _ true)
           |now apply (parseValue_valid _ _ _ true)].
  - intros before bad after Hsplit Hbefore Hbad.
    assert (Hinvalid : isJSONValue (S depth) (VObject l) h = (Normal false, h)).
    { rewrite (isJSONValue_children _ _ _ _ Hchildren); rewrite Hsplit.
      - now apply every_present_stops.
      - now apply stable_stops. }
    split; [exact Hinvalid|].
    assert (Hdate : ~ date_like h (VObject l))
      by now apply boxed_instance_false in Hboxed as (? & _).
    rewrite (serialize_not_date _ _ _ Hdate), (parseValue_not_date _ _ _ Hdate).
    rewrite Hinvalid. cbn [ToBoolean].
    destruct (JS_String (VObject l) h) as [[rendered|e] h2]; split; eauto.
Qed.

(** ** The decoder and the validator disagree on two field names *)

(** C2, at the literals [{__proto__: 1}] and [{__proto__: []}]. The
    assignment [obj["__proto__"] = ...] reaches the setter that
    [Object.prototype] provides in Node.js (ECMA-262, Annex B). The setter
    ignores a number: the decoded object has no property at all. It makes
    an array the prototype of the decoded object, which again has no
    property. In both cases the field was to be inserted under its
    name. *)
Theorem parseLiteral_drops_proto_field :
  (exists l h',
     parseLiteral Examples.proto_literal initial_heap = (Normal (VObject l), h')
     /\ own_property (object_at h' l) "__proto__" = None
     /\ obj_properties (object_at h' l) = []
     /\ Object_values h' l = []
     /\ obj_prototype (object_at h' l) = Some Intrinsics.Object_prototype)
  /\ (exists l a h',
        parseLiteral Examples.proto_array_literal initial_heap
          = (Normal (VObject l), h')
        /\ own_property (object_at h' l) "__proto__" = None
        /\ obj_properties (object_at h' l) = []
        /\ obj_prototype (object_at h' l) = Some a
        /\ Array_isArray h' (VObject a) = true).
Proof.
  split.
  - eexists _, _. split; [vm_compute; reflexivity|].
    repeat split; vm_compute; reflexivity.
  - eexists _, _, _. split; [vm_compute; reflexivity|].
    repeat split; vm_compute; reflexivity.
Qed.

(** C8, at the literal [{constructor: 1}]. The decoder returns the object
    with the own property [constructor], so that [value.constructor] is
    the number 1, neither [Object] nor [undefined]: the validator answers
    [false] on the value that the decoder has just built, and [serialize]
    and [parseValue] reject it. *)
Theorem parseLiteral_output_rejected :
  exists l h',
    parseLiteral Examples.constructor_literal initial_heap
      = (Normal (VObject l), h')
    /\ h' !! l = Some (Examples.plain [("constructor", Examples.one)])
    /\ constructor_identity h' l = Examples.one
    /\ (forall (host : Host) depth,
          isJSONValue (S depth) (VObject l) h' = (Normal false, h'))
    /\ @serialize default_host 2 (VObject l) h'
       = (Throw (TypeError (cannot_represent "[object Object]")), h')
    /\ @parseValue default_host 2 (VObject l) h'
       = (Throw (TypeError (cannot_represent "[object Object]")), h').
Proof.
  eexists _, _. split; [vm_compute; reflexivity|].
  split; [vm_compute; reflexivity|]. split; [vm_compute; reflexivity|].
  split; [|split; vm_compute; reflexivity].
  intros host depth. apply isJSONValue_rejected_early. vm_compute. reflexivity.
Qed.

(** * The statements at concrete inputs *)

Import Examples.



Lemma converters_return_nested :
  @isJSONValue default_host 5 (VObject nested) example_heap
    = (Normal true, example_heap)
  /\ @serialize default_host 5 (VObject nested) example_heap
     = (Normal (VObject nested), example_heap)
  /\ @parseValue default_host 5 (VObject nested) example_heap
     = (Normal (VObject nested), example_heap).
Proof.
  split; [vm_compute; reflexivity|].
  apply (@converters_return_their_input default_host).
  vm_compute. reflexivity.
Defined.

(** [serialize(undefined)] *)
Lemma converters_reject_undefined :
  ~ date_like example_heap VUndefined
  /\ @isJSONValue default_host 1 VUndefined example_heap
     = (Normal false, example_heap)
  /\ @serialize default_host 1 VUndefined example_heap
     = (Throw (TypeError (cannot_represent "undefined")), example_heap)
  /\ @parseValue default_host 1 VUndefined example_heap
     = (Throw (TypeError (cannot_represent "undefined")), example_heap).
Proof.
  assert (Hdate : ~ date_like example_heap VUndefined)
    by (unfold date_like; simpl; discriminate).
  split; [exact Hdate|]. split; [reflexivity|].
  destruct (proj1 (@converters_reject_exactly default_host 1 VUndefined
                     example_heap) Hdate)
    as (_ & Hmessage & _).
  exact (Hmessage false example_heap "undefined" example_heap
           eq_refl eq_refl eq_refl).
Defined.

(** C5, as stated, fails on [Object.create(Date.prototype)]: the value is
    date-like, and both converters throw a TypeError, the one that the
    built-in [toISOString] raises on a receiver without a time value. It
    fails on the array [a] with [a.every = 1] too: the value is not
    date-like and the validator does not return [false], it throws, and
    the converters throw that TypeError, whose message is the engine's. *)
Lemma converters_type_error_on_date_like :
  (date_like example_heap (VObject date_impostor)
   /\ forall host : Host, exists message,
        serialize 1 (VObject date_impostor) example_heap
          = (Throw (TypeError message), example_heap)
        /\ parseValue 1 (VObject date_impostor) example_heap
          = (Throw (TypeError message), example_heap))
  /\ (~ date_like example_heap (VObject shadowed)
      /\ forall host : Host,
           isJSONValue 2 (VObject shadowed) example_heap
             = (Throw (TypeError "value.every is not a function"), example_heap)
           /\ serialize 2 (VObject shadowed) example_heap
             = (Throw (TypeError "value.every is not a function"), example_heap)
           /\ parseValue 2 (VObject shadowed) example_heap
             = (Throw (TypeError "value.every is not a function"),
                example_heap)).
Proof.
  split.
  - split; [vm_compute; reflexivity|]. intros host.
    eexists. split; vm_compute; reflexivity.
  - split; [vm_compute; discriminate|]. intros host.
    repeat split; vm_compute; reflexivity.
Qed.

(** [serialize(new Date("2023-01-01T00:00:00.000Z"))] *)
Lemma new_year_to_iso_string :
  date_like example_heap (VObject new_year)
  /\ toISOString_builtin example_heap new_year = true
  /\ (0 <= year_of 1672531200000 <= 9999)%Z
  /\ iso_string 1672531200000 = "2023-01-01T00:00:00.000Z"
  /\ @serialize default_host 0 (VObject new_year) example_heap
     = (Normal (VString (iso_string 1672531200000)), example_heap)
  /\ @parseValue default_host 0 (VObject new_year) example_heap
     = (Normal (VString (iso_string 1672531200000)), example_heap)
  /\ iso_pattern (iso_string 1672531200000) = true.
Proof.
  assert (Hdate : date_like example_heap (VObject new_year))
    by (vm_compute; reflexivity).
  assert (Hbuiltin : toISOString_builtin example_heap new_year = true)
    by (vm_compute; reflexivity).
  assert (Hyear : (0 <= year_of 1672531200000 <= 9999)%Z)
    by (vm_compute; split; discriminate).
  destruct (@valid_date_to_iso_string default_host 0 example_heap new_year
              1672531200000 Hdate eq_refl Hbuiltin)
    as (Hserialize & HparseValue & _ & _ & Hpattern & _).
  split; [exact Hdate|]. split; [exact Hbuiltin|]. split; [exact Hyear|].
  split; [vm_compute; reflexivity|].
  split; [exact Hserialize|]. split; [exact HparseValue|].
  exact (Hpattern Hyear).
Defined.

(** C6, as stated, fails on [new Date(NaN)]: the value is date-like, and
    the converters return no string, they throw the RangeError of
    [toISOString]. It fails in its form on the year 10000, whose string is
    not of the form YYYY-MM-DDTHH:mm:ss.sssZ. *)
Lemma date_like_conversion_differs :
  (date_like example_heap (VObject invalid_date)
   /\ @serialize default_host 1 (VObject invalid_date) example_heap
      = (Throw (RangeError "Invalid time value"), example_heap)
   /\ @parseValue default_host 1 (VObject invalid_date) example_heap
      = (Throw (RangeError "Invalid time value"), example_heap))
  /\ (date_like example_heap (VObject year_10000)
      /\ @serialize default_host 1 (VObject year_10000) example_heap
         = (Normal (VString "+010000-01-01T00:00:00.000Z"), example_heap)
      /\ iso_pattern "+010000-01-01T00:00:00.000Z" = false).
Proof. repeat split; vm_compute; reflexivity. Qed.

(** The method is looked up on the date: with [d.toISOString = 1] the
    call is a TypeError, and with [s.toISOString = () => 7] the converters
    return the number 7. *)
Example toISOString_is_looked_up :
  (date_like example_heap (VObject shadowed_date)
   /\ forall host : Host,
        serialize 1 (VObject shadowed_date) example_heap
          = (Throw (TypeError "value.toISOString is not a function"),
             example_heap))
  /\ (date_like example_heap (VObject stamped)
      /\ @serialize default_host 1 (VObject stamped) example_heap
         = (Normal (VNumber (number_of_Z 7)), example_heap)).
Proof.
  split; (split; [vm_compute; reflexivity|]).
  - intros host. vm_compute. reflexivity.
  - vm_compute. reflexivity.
Qed.

(** An enum literal. *)
Lemma parseLiteral_enum_unsupported :
  supported (EnumValue "TEST") = false
  /\ parseLiteral (EnumValue "TEST") initial_heap =
       (Throw (TypeError
          "JSON cannot represent value: EnumValue.Only StringValue, IntValue, FloatValue, BooleanValue, NullValue, ObjectValue, and ListValue are supported"),
        initial_heap).
Proof.
  split; [vm_compute; reflexivity|].
  apply (parseLiteral_unsupported_kind (EnumValue "TEST") initial_heap).
  vm_compute. reflexivity.
Defined.

(** An instance of [class MyArray extends Array {}]: its constructor is
    [MyArray], not [Object], it inherits the built-in [every], and it
    validates. *)
Lemma my_array_validates :
  constructor_identity example_heap my_array = VObject MyArray
  /\ Array_isArray example_heap (VObject my_array) = true
  /\ every_builtin example_heap my_array = true
  /\ @isJSONValue default_host 2 (VObject my_array) example_heap
     = (Normal true, example_heap)
  /\ @serialize default_host 2 (VObject my_array) example_heap
     = (Normal (VObject my_array), example_heap)
  /\ @parseValue default_host 2 (VObject my_array) example_heap
     = (Normal (VObject my_array), example_heap).
Proof.
  split; [vm_compute; reflexivity|]. split; [vm_compute; reflexivity|].
  split; [vm_compute; reflexivity|].
  apply (proj1 (proj2 (@array_constructor_not_inspected default_host 1
                         example_heap my_array eq_refl eq_refl eq_refl))).
  intros item Hitem. vm_compute in Hitem.
  apply elem_of_cons in Hitem as [->|Hitem]; [vm_compute; reflexivity|].
  apply elem_of_cons in Hitem as [->|Hitem]; [vm_compute; reflexivity|].
  inversion Hitem.
Defined.

(** C10, as stated, fails on [Object.setPrototypeOf([1], Error.prototype)]:
    [Array.isArray] recognises the value and its one element is a JSON
    value, but the validator rejects it as an instance of Error before it
    looks at an element. It fails on an instance of [class Picky extends
    Array { every() { return false; } }] too: the validator calls
    [value.every], which is the method of the subclass, and answers
    [false] although the one element is a JSON value. *)
Lemma array_rejected_before_its_elements :
  (Array_isArray example_heap (VObject error_array) = true
   /\ array_elements example_heap error_array = [Some one]
   /\ forall host : Host,
        isJSONValue 1 one example_heap = (Normal true, example_heap)
        /\ isJSONValue 2 (VObject error_array) example_heap
           = (Normal false, example_heap))
  /\ (Array_isArray example_heap (VObject picky) = true
      /\ constructor_identity example_heap picky = VObject Picky
      /\ array_elements example_heap picky = [Some one]
      /\ @isJSONValue default_host 2 (VObject picky) example_heap
         = (Normal false, example_heap)).
Proof.
  split.
  - split; [vm_compute; reflexivity|]. split; [vm_compute; reflexivity|].
    intros host. split; vm_compute; reflexivity.
  - repeat split; vm_compute; reflexivity.
Qed.

(** ** What the test suite checks *)

Example isJSONValue_rejects_test_values `{host : Host} :
  isJSONValue 3 (VObject with_undefined) example_heap = (Normal false, example_heap)
  /\ isJSONValue 3 (VObject with_function) example_heap = (Normal false, example_heap)
  /\ isJSONValue 3 (VObject test_instance) example_heap = (Normal false, example_heap)
  /\ isJSONValue 3 (VObject new_year) example_heap = (Normal false, example_heap)
  /\ isJSONValue 3 (VObject arrow) example_heap = (Normal false, example_heap)
  /\ isJSONValue 3 (VSymbol 1 "test") example_heap = (Normal false, example_heap).
Proof. repeat split; vm_compute; reflexivity. Qed.

Example isJSONValue_accepts_empty_containers `{host : Host} :
  isJSONValue 1 (VObject empty_array) example_heap = (Normal true, example_heap)
  /\ isJSONValue 1 (VObject empty_object) example_heap = (Normal true, example_heap).
Proof. repeat split; vm_compute; reflexivity. Qed.

(** [every] skips a hole: [[1, , 3]] validates although reading its index
    1 gives [undefined], and [[1, undefined, 3]] does not validate. A hole
    is visited when a prototype has a property under its index, as in the
    array [[ , 1]] whose prototype holds [undefined] under 0: that array
    does not validate. *)
Example isJSONValue_skips_holes `{host : Host} :
  isJSONValue 2 (VObject sparse) example_heap = (Normal true, example_heap)
  /\ array_items example_heap filled = [Some VUndefined; Some one]
  /\ isJSONValue 2 (VObject filled) example_heap = (Normal false, example_heap).
Proof. repeat split; vm_compute; reflexivity. Qed.

(** [serialize(new TestClass())] *)
Example serialize_rejects_class_instance :
  @serialize default_host 2 (VObject test_instance) example_heap
  = (Throw (TypeError
       "JSON cannot represent value: [object Object].Only plain objects, arrays, and primitives are supported."),
     example_heap).
Proof. vm_compute. reflexivity. Qed.

(** [String(value)] joins the texts of the elements of an array. *)
Example serialize_rejects_array_with_undefined :
  @serialize default_host 2 (VObject with_undefined) example_heap
  = (Throw (TypeError
       "JSON cannot represent value: 1,,3.Only plain objects, arrays, and primitives are supported."),
     example_heap).
Proof. vm_compute. reflexivity. Qed.

(** The list literal [[1, 2, 3]] and the object literal
    [{a: 1, b: "test"}] decode to a new array and a new object. *)
Example parseLiteral_list :
  exists l h',
    parseLiteral (ListValue [IntValue "1"; IntValue "2"; IntValue "3"]) initial_heap
      = (Normal (VObject l), h')
    /\ initial_heap !! l = None
    /\ h' !! l = Some (array [Some one; Some two; Some three]).
Proof.
  eexists _, _. split; [vm_compute; reflexivity|].
  split; vm_compute; reflexivity.
Qed.

Example parseLiteral_object :
  exists l h',
    parseLiteral
      (ObjectValue [ObjectField "a" (IntValue "1");
                    ObjectField "b" (StringValue "test")]) initial_heap
      = (Normal (VObject l), h')
    /\ initial_heap !! l = None
    /\ h' !! l = Some (plain [("a", one); ("b", VString "test")]).
Proof.
  eexists _, _. split; [vm_compute; reflexivity|].
  split; vm_compute; reflexivity.
Qed.

(** A repeated field name: the later value replaces the earlier one, in
    the place of the earlier one. *)
Example parseLiteral_duplicate_field :
  exists l h',
    parseLiteral
      (ObjectValue [ObjectField "a" (IntValue "1");
                    ObjectField "b" NullValue;
                    ObjectField "a" (StringValue "later")]) initial_heap
      = (Normal (VObject l), h')
    /\ h' !! l = Some (plain [("a", VString "later"); ("b", VNull)]).
Proof. eexists _, _. split; vm_compute; reflexivity. Qed.

(** Numbers are passed through as the host parses them: an overflowing
    float literal is [Infinity], digits that are no number give [NaN], and
    the validator accepts both. *)
Example parseLiteral_non_finite `{host : Host} :
  parseLiteral (FloatValue "1e999") initial_heap
    = (Normal (VNumber Infinity), initial_heap)
  /\ parseLiteral (IntValue "x") initial_heap = (Normal (VNumber NaN), initial_heap)
  /\ isJSONValue 1 (VNumber Infinity) initial_heap = (Normal true, initial_heap)
  /\ isJSONValue 1 (VNumber NaN) initial_heap = (Normal true, initial_heap).
Proof. repeat split; vm_compute; reflexivity. Qed.

(** ** A cyclic object graph *)

(** The array that contains itself has no finite nesting depth, and the
    validator uses up every stack on it: the specification leaves cyclic
    graphs open, and the code has no cycle detection. *)
Lemma cyclic_has_no_depth n :
  nesting_within n example_heap (VObject cyclic) = false.
Proof.
  induction n as [|n IH]; [reflexivity|].
  change (nesting_within (S n) example_heap (VObject cyclic))
    with (forallb (nesting_within n example_heap)
            (contents example_heap cyclic)).
  replace (contents example_heap cyclic) with [VObject cyclic]
    by (vm_compute; reflexivity).
  simpl. now rewrite IH.
Qed.

Lemma isJSONValue_cyclic_overflows `{host : Host} depth :
  isJSONValue depth (VObject cyclic) example_heap
  = (Throw stack_overflow, example_heap).
Proof.
  induction depth as [|depth IH]; [reflexivity|].
  rewrite (isJSONValue_children depth cyclic example_heap
             [Some (VObject cyclic)]).
  - cbn [every_present]. now rewrite (bind_throw _ _ _ _ _ IH).
  - vm_compute. reflexivity.
  - cbn [stable]. intros r h' Hrun. rewrite IH in Hrun. discriminate.
Qed.

(** * The decoder builds the tree of the specification *)

(** ** Induction on nested trees *)

Lemma ValueNode_nested_ind (P : ValueNode -> Prop) :
  (forall name, P (Variable_ name)) ->
  (forall value, P (IntValue value)) ->
  (forall value, P (FloatValue value)) ->
  (forall value, P (StringValue value)) ->
  (forall value, P (BooleanValue value)) ->
  P NullValue ->
  (forall value, P (EnumValue value)) ->
  (forall values, Forall P values -> P (ListValue values)) ->
  (forall fields,
     Forall (fun field => match field with ObjectField _ value => P value end)
       fields ->
     P (ObjectValue fields)) ->
  forall ast, P ast.
Proof.
  intros HVariable HInt HFloat HString HBoolean HNull HEnum HList HObject.
  fix IH 1. intros [name|value|value|value|value| |value|values|fields].
  - apply HVariable.
  - apply HInt.
  - apply HFloat.
  - apply HString.
  - apply HBoolean.
  - apply HNull.
  - apply HEnum.
  - apply HList. induction values as [|val rest IHrest]; constructor.
    + apply IH.
    + exact IHrest.
  - apply HObject.
    induction fields as [|[name value] rest IHrest]; constructor.
    + apply IH.
    + exact IHrest.
Qed.

Lemma json_nested_ind (P : json -> Prop) :
  P JNull ->
  (forall b, P (JBoolean b)) ->
  (forall n, P (JNumber n)) ->
  (forall s, P (JString s)) ->
  (forall items, Forall P items -> P (JArray items)) ->
  (forall members, Forall (fun m => P (snd m)) members -> P (JObject members)) ->
  forall j, P j.
Proof.
  intros HNull HBoolean HNumber HString HArray HObject.
  fix IH 1. intros [|b|n|s|items|members].
  - apply HNull.
  - apply HBoolean.
  - apply HNumber.
  - apply HString.
  - apply HArray. induction items as [|j rest IHrest]; constructor.
    + apply IH.
    + exact IHrest.
  - apply HObject.
    induction members as [|[name j] rest IHrest]; constructor.
    + apply IH.
    + exact IHrest.
Qed.

(** ** The loops, unfolded *)

Lemma parseLiteral_ListValue values :
  parseLiteral (ListValue values) =
    (items <- decode_values values ;;
     array <- new_array items ;;
     ret (VObject array)).
Proof. reflexivity. Qed.

Lemma parseLiteral_ObjectValue fields :
  parseLiteral (ObjectValue fields) =
    (obj <- new_object ;;
     assign_fields obj fields ;;;
     ret (VObject obj)).
Proof. reflexivity. Qed.

Lemma decoded_ListValue values :
  decoded (ListValue values) = JArray <$> decoded_values values.
Proof. reflexivity. Qed.

Lemma decoded_ObjectValue fields :
  decoded (ObjectValue fields) = JObject <$> decoded_fields fields [].
Proof. reflexivity. Qed.

Lemma decode_values_cons val rest :
  decode_values (val :: rest) =
    (item <- parseLiteral val ;;
     items <- decode_values rest ;;
     ret (item :: items)).
Proof. reflexivity. Qed.

Lemma assign_fields_cons obj name value rest :
  assign_fields obj (ObjectField name value :: rest) =
    (decoded <- parseLiteral value ;;
     Set_ obj name decoded ;;;
     assign_fields obj rest).
Proof. reflexivity. Qed.

Lemma decoded_values_cons val rest :
  decoded_values (val :: rest) =
    match decoded val, decoded_values rest with
    | Some j, Some js => Some (j :: js)
    | _, _ => None
    end.
Proof. reflexivity. Qed.

Lemma decoded_fields_cons name value rest members :
  decoded_fields (ObjectField name value :: rest) members =
    match decoded value with
    | Some j => decoded_fields rest (insert_member name j members)
    | None => None
    end.
Proof. reflexivity. Qed.

Lemma names_field_ListValue name val rest :
  names_field name (ListValue (val :: rest)) =
    names_field name val || names_field name (ListValue rest).
Proof. reflexivity. Qed.

Lemma names_field_ObjectValue name k value rest :
  names_field name (ObjectValue (ObjectField k value :: rest)) =
    String.eqb k name || names_field name value
    || names_field name (ObjectValue rest).
Proof. reflexivity. Qed.

Lemma represents_array L h v items :
  represents_within L h v (JArray items) <->
  exists l elements,
    v = VObject l /\ l ∈ L
    /\ h !! l = Some (Object (Some Intrinsics.Array_prototype)
                             (ArrayObject (Some <$> elements)) [])
    /\ Forall2 (represents_within L h) elements items.
Proof.
  cbn [represents_within].
  enough (Hall : forall elements,
            (fix all (vs : list value) (js : list json) {struct js} : Prop :=
               match vs, js with
               | [], [] => True
               | v' :: vs', j' :: js' => represents_within L h v' j' /\ all vs' js'
               | _, _ => False
               end) elements items
            <-> Forall2 (represents_within L h) elements items).
  { split; intros (l & elements & Hv & Hl & Hlookup & Hitems);
      exists l, elements; repeat split; auto; now apply Hall. }
  induction items as [|j rest IH]; intros [|v' vs'];
    split; intros Hall; try constructor; try inversion Hall; subst;
    try tauto; try now apply IH.
Qed.

Lemma represents_object L h v members :
  represents_within L h v (JObject members) <->
  exists l props,
    v = VObject l /\ l ∈ L
    /\ h !! l = Some (Object (Some Intrinsics.Object_prototype)
                             OrdinaryObject props)
    /\ Forall2 (member_represented L h) props members.
Proof.
  cbn [represents_within].
  enough (Hall : forall props,
            (fix all (ps : list (string * property)) (ms : list (string * json))
                 {struct ms} : Prop :=
               match ps, ms with
               | [], [] => True
               | (k, p) :: ps', (name, j') :: ms' =>
                   k = name /\ prop_enumerable p = true
                   /\ represents_within L h (prop_value p) j' /\ all ps' ms'
               | _, _ => False
               end) props members
            <-> Forall2 (member_represented L h) props members).
  { split; intros (l & props & Hv & Hl & Hlookup & Hmembers);
      exists l, props; repeat split; auto; now apply Hall. }
  induction members as [|[name j] rest IH]; intros [|[k p] ps']; split; intros Hall.
  - constructor.
  - exact I.
  - destruct Hall.
  - inversion Hall.
  - destruct Hall.
  - inversion Hall.
  - destruct Hall as (Hk & Henumerable & Hvalue & Hrest).
    constructor; [now repeat split|now apply IH].
  - inversion Hall as [|? ? ? ? (Hk & Henumerable & Hvalue) Hrest]; subst.
    repeat split; auto. now apply IH.
Qed.

(** ** Framing: a representation depends on its own objects only *)

Lemma represents_frame L L' h h' v j :
  represents_within L h v j ->
  L ⊆ L' ->
  (forall l, l ∈ L -> h' !! l = h !! l) ->
  represents_within L' h' v j.
Proof.
  intros Hrep Hsub Hagree. revert v Hrep.
  induction j as [|b|n|s|items IH|members IH] using json_nested_ind;
    intros v Hrep; try exact Hrep.
  - apply represents_array in Hrep as (l & elements & -> & Hl & Hlookup & Hitems).
    apply represents_array. exists l, elements.
    repeat split; [set_solver|now rewrite Hagree|].
    clear Hlookup. induction Hitems as [|v j vs js Hv _ IHitems];
      inversion IH; subst; constructor; auto.
  - apply represents_object in Hrep as (l & props & -> & Hl & Hlookup & Hmembers).
    apply represents_object. exists l, props.
    repeat split; [set_solver|now rewrite Hagree|].
    clear Hlookup.
    induction Hmembers as [|[k p] [name j] ps ms (Hk & Henumerable & Hv) _ IHmembers];
      inversion IH; subst; constructor; auto.
    repeat split; auto.
Qed.

Lemma extends_dom h h' : extends h h' -> dom h ⊆ dom h'.
Proof.
  intros Hext l Hl. apply elem_of_dom. rewrite (Hext l Hl).
  now apply elem_of_dom.
Qed.

Lemma extends_refl h : extends h h.
Proof. now intros l _. Qed.

Lemma extends_trans h1 h2 h3 : extends h1 h2 -> extends h2 h3 -> extends h1 h3.
Proof.
  intros H12 H23 l Hl. rewrite H23, H12; auto. now apply (extends_dom _ _ H12).
Qed.

Lemma alloc_run o h :
  alloc o h = (Normal (fresh (dom h)), <[(fresh (dom h)) := o]> h)
  /\ (fresh (dom h) ∉ dom h)
  /\ extends h (<[(fresh (dom h)) := o]> h).
Proof.
  split; [reflexivity|]. split; [apply is_fresh|].
  intros l Hl. apply lookup_insert_ne. intros <-. now apply (is_fresh (dom h)).
Qed.

(** Outside of [__proto__], an assignment defines an own property. *)
Lemma resolve_not_accessor steps h l key :
  key <> "__proto__" -> resolve steps h l key <> ProtoAccessor.
Proof.
  intros Hkey. revert l. induction steps as [|steps IH]; intros l; [discriminate|].
  cbn [resolve]. apply String.eqb_neq in Hkey. rewrite Hkey, andb_false_r.
  destruct (own_property (object_at h l) key); [discriminate|].
  destruct (prototype_of h l); [apply IH|discriminate].
Qed.

Lemma Set_ordinary_name l key v h :
  key <> "__proto__" -> Set_ l key v h = define_own l key v h.
Proof.
  intros Hkey. unfold Set_. rewrite bind_gets.
  pose proof (resolve_not_accessor (chain_bound h) h l key Hkey).
  now destruct (resolve (chain_bound h) h l key).
Qed.

Lemma assign_own_represented L h name v j props members :
  Forall2 (member_represented L h) props members ->
  represents_within L h v j ->
  Forall2 (member_represented L h)
    (assign_own name v props) (insert_member name j members).
Proof.
  intros Hmembers Hv.
  induction Hmembers as [|[k p] [k' j'] ps ms (Hk & Henumerable & Hold) Htail IH];
    cbn [assign_own insert_member].
  - repeat constructor. exact Hv.
  - cbn in Hk. subst k'. destruct (String.eqb k name).
    + constructor; [|exact Htail]. now repeat split.
    + constructor; [|exact IH]. now repeat split.
Qed.

Lemma fresh_part_grows (A B B' C C' : gset loc) :
  B ⊆ B' -> C' ⊆ C -> A ⊆ B ∖ C -> A ⊆ B' ∖ C'.
Proof.
  intros HB HC HA l Hl. apply HA, elem_of_difference in Hl as [Hin Hout].
  apply elem_of_difference. split; [now apply HB|].
  intros Hl'. now apply Hout, HC.
Qed.

Lemma fresh_part_in (B C : gset loc) l : l ∈ B ∖ C -> l ∈ B.
Proof. now intros [Hin _]%elem_of_difference. Qed.

(** ** The two loops *)

Lemma decode_values_tree values :
  Forall decodes_to_tree values ->
  forall js h,
    decoded_values values = Some js ->
    names_field "__proto__" (ListValue values) = false ->
    exists items h',
      decode_values values h = (Normal items, h')
      /\ extends h h'
      /\ Forall2 (represents_within (dom h' ∖ dom h) h') items js.
Proof.
  induction 1 as [|val rest Hval _ IH]; intros js h Hdecoded Hnames.
  - inversion Hdecoded; subst. exists [], h.
    split; [reflexivity|]. split; [apply extends_refl|constructor].
  - rewrite decoded_values_cons in Hdecoded.
    destruct (decoded val) as [j|] eqn:Hj; [|discriminate].
    destruct (decoded_values rest) as [js'|] eqn:Hjs; [|discriminate].
    inversion Hdecoded; subst js. clear Hdecoded.
    rewrite names_field_ListValue in Hnames.
    apply orb_false_iff in Hnames as [Hname Hnames].
    destruct (Hval j h Hj Hname) as (v & h1 & Hrun & Hext1 & Hv).
    destruct (IH js' h1 eq_refl Hnames) as (items & h2 & Hruns & Hext2 & Hitems).
    exists (v :: items), h2.
    pose proof (extends_dom _ _ Hext1) as Hdom1.
    pose proof (extends_dom _ _ Hext2) as Hdom2.
    split; [|split].
    + rewrite decode_values_cons, (bind_normal _ _ _ _ _ Hrun).
      now rewrite (bind_normal _ _ _ _ _ Hruns).
    + eapply extends_trans; eauto.
    + constructor.
      * apply (represents_frame _ _ _ _ _ _ Hv).
        -- now apply (fresh_part_grows _ (dom h1) _ (dom h)).
        -- intros l Hl. apply Hext2. now apply fresh_part_in in Hl.
      * eapply Forall2_impl; [exact Hitems|].
        intros x y Hxy. apply (represents_frame _ _ _ _ _ _ Hxy); [|auto].
        now apply (fresh_part_grows _ (dom h2) _ (dom h1)).
Qed.

Lemma newer_object (B D : gset loc) (obj l : loc) :
  l ∈ D ∖ B ∖ {[obj]} <-> l ∈ D /\ (l ∉ B) /\ l <> obj.
Proof.
  rewrite !elem_of_difference, elem_of_singleton. tauto.
Qed.

Lemma member_represented_frame L L' h h' kp m :
  member_represented L h kp m ->
  L ⊆ L' ->
  (forall l, l ∈ L -> h' !! l = h !! l) ->
  member_represented L' h' kp m.
Proof.
  intros (Hk & Henumerable & Hv) Hsub Hagree.
  repeat split; auto. eapply represents_frame; eauto.
Qed.

Lemma define_own_run obj name v h props :
  h !! obj = Some (Object (Some Intrinsics.Object_prototype) OrdinaryObject props) ->
  define_own obj name v h =
    (Normal tt,
     <[obj := Object (Some Intrinsics.Object_prototype) OrdinaryObject
                     (assign_own name v props)]> h).
Proof.
  intros Hlookup. unfold define_own, object_at. now rewrite Hlookup.
Qed.

Lemma assign_fields_tree (B : gset loc) (obj : loc) fields :
  Forall (fun field => match field with
                       | ObjectField _ value => decodes_to_tree value
                       end) fields ->
  forall members props h final,
    B ⊆ dom h ->
    obj ∉ B ->
    object_under_construction B obj h props members ->
    decoded_fields fields members = Some final ->
    names_field "__proto__" (ObjectValue fields) = false ->
    exists h' props',
      assign_fields obj fields h = (Normal tt, h')
      /\ (forall l, l ∈ dom h -> l <> obj -> h' !! l = h !! l)
      /\ dom h ⊆ dom h'
      /\ object_under_construction B obj h' props' final.
Proof.
  induction 1 as [|[name value] rest Hvalue _ IH];
    intros members props h final HB Hobj Hinv Hdecoded Hnames.
  - inversion Hdecoded; subst. exists h, props.
    split; [reflexivity|]. split; [reflexivity|]. split; [reflexivity|exact Hinv].
  - rewrite decoded_fields_cons in Hdecoded.
    destruct (decoded value) as [j|] eqn:Hj; [|discriminate].
    rewrite names_field_ObjectValue in Hnames.
    apply orb_false_iff in Hnames as [Hnames Hrest].
    apply orb_false_iff in Hnames as [Hname Hinner].
    apply String.eqb_neq in Hname.
    destruct Hinv as [Hlookup Hmembers].
    assert (Hin : obj ∈ dom h) by (apply elem_of_dom; eauto).
    destruct (Hvalue j h Hj Hinner) as (v & h1 & Hrun & Hext1 & Hv).
    pose proof (extends_dom _ _ Hext1) as Hdom1.
    assert (Hlookup1 : h1 !! obj
              = Some (Object (Some Intrinsics.Object_prototype) OrdinaryObject props))
      by (now rewrite (Hext1 obj Hin)).
    set (h2 := <[obj := Object (Some Intrinsics.Object_prototype) OrdinaryObject
                               (assign_own name v props)]> h1).
    assert (Hdom2 : dom h1 ⊆ dom h2) by (unfold h2; apply dom_insert_subseteq).
    assert (Hinv2 : object_under_construction B obj h2
                      (assign_own name v props) (insert_member name j members)).
    { split; [apply lookup_insert_eq|].
      apply assign_own_represented.
      - eapply Forall2_impl; [exact Hmembers|]. intros kp m Hkp.
        apply (member_represented_frame _ _ _ _ _ _ Hkp).
        + intros l (Hl & HlB & Hne)%newer_object. apply newer_object.
          repeat split; auto.
        + intros l (Hl & HlB & Hne)%newer_object.
          unfold h2. rewrite lookup_insert_ne by auto. now apply Hext1.
      - assert (Hnew : forall l, l ∈ dom h1 ∖ dom h ->
                         l ∈ dom h1 /\ (l ∉ B) /\ l <> obj).
        { intros l [Hl Hout]%elem_of_difference. repeat split; auto.
          intros ->. now apply Hout. }
        apply (represents_frame _ _ _ _ _ _ Hv).
        + intros l (Hl & HlB & Hne)%Hnew. apply newer_object.
          repeat split; auto.
        + intros l (Hl & HlB & Hne)%Hnew.
          unfold h2. now apply lookup_insert_ne. }
    destruct (IH (insert_member name j members) (assign_own name v props) h2 final)
      as (h' & props' & Hruns & Hsame & Hdom' & Hinv'); auto.
    { intros l Hl. apply Hdom2, Hdom1, HB, Hl. }
    exists h', props'. split; [|split; [|split]].
    + rewrite assign_fields_cons, (bind_normal _ _ _ _ _ Hrun).
      rewrite (bind_normal _ _ h1 tt h2).
      * exact Hruns.
      * rewrite (Set_ordinary_name _ _ _ _ Hname).
        now apply define_own_run.
    + intros l Hl Hne. rewrite Hsame by (auto; apply Hdom2, Hdom1, Hl).
      unfold h2. rewrite lookup_insert_ne by auto. now apply Hext1.
    + intros l Hl. apply Hdom', Hdom2, Hdom1, Hl.
    + exact Hinv'.
Qed.

(** ** The decoder refines the table of the specification *)

(** Where the table gives a tree and no field is named [__proto__], the
    decoder returns a value that is that tree, built from new objects
    only, in a heap that has every old object unchanged: scalars as they
    are, a list as a new array of the decoded items in order, an object
    as a new object whose members are inserted under their names in field
    order, the later of two equal names winning. *)
Lemma parseLiteral_builds_tree ast : decodes_to_tree ast.
Proof.
  induction ast as [name|value|value|value|value| |value|values IH|fields IH]
    using ValueNode_nested_ind; intros j h Hdecoded Hnames;
    try discriminate;
    try (inversion Hdecoded; subst; eexists _, h;
         split; [reflexivity|]; split; [apply extends_refl|reflexivity]).
  - rewrite decoded_ListValue in Hdecoded.
    destruct (decoded_values values) as [js|] eqn:Hjs; [|discriminate].
    inversion Hdecoded; subst j.
    destruct (decode_values_tree values IH js h Hjs Hnames)
      as (items & h1 & Hrun & Hext & Hitems).
    destruct (alloc_run (Object (Some Intrinsics.Array_prototype)
                                (ArrayObject (Some <$> items)) []) h1)
      as (Halloc & Hfresh & Hext').
    pose proof (extends_dom _ _ Hext) as Hdom.
    eexists _, _. split; [|split].
    + rewrite parseLiteral_ListValue.
      rewrite (bind_normal _ _ _ _ _ Hrun).
      unfold new_array. rewrite (bind_normal _ _ _ _ _ Halloc). reflexivity.
    + eapply extends_trans; eauto.
    + apply represents_array. eexists _, items.
      split; [reflexivity|]. split; [|split; [apply lookup_insert_eq|]].
      * apply elem_of_difference. split.
        -- apply elem_of_dom. rewrite lookup_insert_eq. eauto.
        -- intros Hold. now apply Hfresh, Hdom.
      * eapply Forall2_impl; [exact Hitems|]. intros x y Hxy.
        apply (represents_frame _ _ _ _ _ _ Hxy).
        -- apply (fresh_part_grows _ (dom h1) _ (dom h)); auto.
           apply (extends_dom _ _ Hext').
        -- intros l Hl. apply Hext'. now apply fresh_part_in in Hl.
  - rewrite decoded_ObjectValue in Hdecoded.
    destruct (decoded_fields fields []) as [members|] eqn:Hmembers; [|discriminate].
    inversion Hdecoded; subst j.
    destruct (alloc_run (Object (Some Intrinsics.Object_prototype)
                                OrdinaryObject []) h)
      as (Halloc & Hfresh & Hext0).
    set (obj := fresh (dom h)) in *.
    set (h0 := <[obj := Object (Some Intrinsics.Object_prototype)
                               OrdinaryObject []]> h) in *.
    pose proof (extends_dom _ _ Hext0) as Hdom0.
    destruct (assign_fields_tree (dom h) obj fields IH [] [] h0 members)
      as (h' & props & Hrun & Hsame & Hdom' & Hlookup & Hprops); auto.
    { split; [apply lookup_insert_eq|constructor]. }
    exists (VObject obj), h'. split; [|split].
    + rewrite parseLiteral_ObjectValue. unfold new_object.
      rewrite (bind_normal _ _ _ _ _ Halloc).
      now rewrite (bind_normal _ _ _ _ _ Hrun).
    + intros l Hl. rewrite Hsame; [now apply Hext0|now apply Hdom0|].
      intros ->. now apply Hfresh.
    + apply represents_object. exists obj, props.
      split; [reflexivity|]. split; [|split; [exact Hlookup|]].
      * apply elem_of_difference. split; [|exact Hfresh].
        apply elem_of_dom. eauto.
      * eapply Forall2_impl; [exact Hprops|]. intros kp m Hkp.
        apply (member_represented_frame _ _ _ _ _ _ Hkp); [|auto].
        intros l (Hl & HlB & Hne)%newer_object.
        now apply elem_of_difference.
Qed.

(** * The validator accepts the trees that name no constructor *)

Lemma json_names_array name items :
  json_names name (JArray items) = existsb (json_names name) items.
Proof.
  cbn [json_names]. induction items as [|j rest IH]; [reflexivity|].
  cbn [existsb]. now rewrite <- IH.
Qed.

Lemma json_names_object name members :
  json_names name (JObject members) = existsb (member_names name) members.
Proof.
  cbn [json_names]. induction members as [|[k j] rest IH]; [reflexivity|].
  cbn [existsb]. unfold member_names at 1. cbn [fst snd]. now rewrite <- IH.
Qed.

Lemma json_depth_array items item :
  item ∈ items -> json_depth item <= pred (json_depth (JArray items)).
Proof.
  cbn [json_depth pred].
  induction 1 as [item rest|item other rest _ IH]; lia.
Qed.

Lemma json_depth_object members m :
  m ∈ members -> json_depth (snd m) <= pred (json_depth (JObject members)).
Proof.
  cbn [json_depth pred].
  induction 1 as [[k j] rest|[k j] [k' j'] rest _ IH]; cbn [snd] in *; lia.
Qed.

Lemma realm_Object_prototype h :
  realm_intact h ->
  object_at h Intrinsics.Object_prototype
  = prototype_object OrdinaryObject None Intrinsics.Object.
Proof. intros [Hobject _]. unfold object_at. now rewrite Hobject. Qed.

Lemma realm_Array_prototype h :
  realm_intact h ->
  object_at h Intrinsics.Array_prototype
  = prototype_with_method (ArrayObject []) (Some Intrinsics.Object_prototype)
      Intrinsics.Array "every" Intrinsics.every.
Proof. intros (_ & Harray & _). unfold object_at. now rewrite Harray. Qed.

Lemma realm_every h :
  realm_intact h -> object_at h Intrinsics.every = builtin_function.
Proof. intros (_ & _ & Hevery). unfold object_at. now rewrite Hevery. Qed.

(** The prototype chain ends at [Object.prototype]. *)
Lemma prototype_of_object h l :
  l <> Intrinsics.Object_prototype ->
  prototype_of h l = obj_prototype (object_at h l).
Proof.
  intros Hl. unfold prototype_of.
  now destruct (Pos.eqb_spec l Intrinsics.Object_prototype).
Qed.

Lemma chain_ends_at_Object_prototype h steps target :
  in_prototype_chain steps h Intrinsics.Object_prototype target = false.
Proof. now destruct steps. Qed.

Lemma chain_of_Array_prototype h steps target :
  realm_intact h ->
  target <> Intrinsics.Object_prototype ->
  in_prototype_chain steps h Intrinsics.Array_prototype target = false.
Proof.
  intros Hrealm Htarget. destruct steps as [|steps]; [reflexivity|].
  cbn [in_prototype_chain]. rewrite prototype_of_object by discriminate.
  rewrite (realm_Array_prototype _ Hrealm).
  cbn [obj_prototype prototype_with_method].
  destruct (Pos.eqb_spec Intrinsics.Object_prototype target) as [Heq|_];
    [now destruct Htarget|].
  now apply chain_ends_at_Object_prototype.
Qed.

(** An object whose prototype is [Object.prototype], or an array whose
    prototype is [Array.prototype], is no instance of Date, RegExp or
    Error. *)
Lemma plain_not_boxed h l o :
  realm_intact h ->
  h !! l = Some o ->
  obj_prototype o = Some Intrinsics.Object_prototype
  \/ obj_prototype o = Some Intrinsics.Array_prototype ->
  boxed_instance h (VObject l) = false.
Proof.
  intros Hrealm Hlookup Hproto.
  assert (Hchain : forall target,
            target <> Intrinsics.Object_prototype ->
            target <> Intrinsics.Array_prototype ->
            instanceof h (VObject l) target = false).
  { intros target Hobject Harray. unfold instanceof, chain_bound.
    cbn [in_prototype_chain]. unfold prototype_of.
    destruct (Pos.eqb l Intrinsics.Object_prototype); [reflexivity|].
    unfold object_at. rewrite Hlookup.
    cbn [default from_option]. unfold id.
    destruct Hproto as [-> | ->].
    - destruct (Pos.eqb_spec Intrinsics.Object_prototype target) as [Heq|_];
        [now destruct Hobject|].
      now apply chain_ends_at_Object_prototype.
    - destruct (Pos.eqb_spec Intrinsics.Array_prototype target) as [Heq|_];
        [now destruct Harray|].
      now apply chain_of_Array_prototype. }
  unfold boxed_instance. now rewrite !Hchain.
Qed.

Lemma object_at_lookup (h : heap) l o : h !! l = Some o -> object_at h l = o.
Proof. intros Hlookup. unfold object_at. now rewrite Hlookup. Qed.

(** In an intact realm an object that has a prototype is not
    [Object.prototype]. *)
Lemma realm_object_inherits h l o :
  realm_intact h -> h !! l = Some o -> obj_prototype o <> None ->
  l <> Intrinsics.Object_prototype.
Proof.
  intros (Hobject & _) Hlookup Hproto ->. rewrite Hobject in Hlookup.
  vm_compute in Hlookup. injection Hlookup as <-. now destruct Hproto.
Qed.

Lemma heap_not_empty (h : heap) l o : h !! l = Some o -> exists n, size h = S n.
Proof.
  intros Hlookup. destruct (size h) as [|n] eqn:Hsize; [|now exists n].
  apply map_size_empty_iff in Hsize. subst h. now rewrite lookup_empty in Hlookup.
Qed.

(** Without an own property of that name, [value.constructor] of an
    object of [Object.prototype] is [Object]. *)
Lemma plain_constructor_is_Object h l props :
  realm_intact h ->
  h !! l = Some (Object (Some Intrinsics.Object_prototype) OrdinaryObject props) ->
  List.find (fun kp => String.eqb (fst kp) "constructor") props = None ->
  Get h l "constructor" = VObject Intrinsics.Object.
Proof.
  intros Hrealm Hlookup Hown.
  destruct (heap_not_empty _ _ _ Hlookup) as [n Hsize].
  pose proof (realm_object_inherits _ _ _ Hrealm Hlookup ltac:(discriminate))
    as Hl.
  unfold Get, chain_bound. rewrite Hsize. cbn [resolve].
  rewrite andb_false_r, (prototype_of_object _ _ Hl).
  rewrite (object_at_lookup _ _ _ Hlookup).
  unfold own_property at 1. cbn [obj_properties obj_prototype obj_internal].
  rewrite Hown. cbn [fmap option_fmap option_map].
  rewrite (realm_Object_prototype _ Hrealm). reflexivity.
Qed.

(** In an intact realm [Array.prototype.every] is the built-in function,
    and an array of [Array.prototype] that has no property of its own
    inherits it. *)
Lemma realm_every_builtin h :
  realm_intact h -> every_builtin h Intrinsics.Array_prototype = true.
Proof.
  intros Hrealm. unfold every_builtin, is_callable, typeof, Get, chain_bound.
  cbn [resolve]. rewrite (realm_Array_prototype _ Hrealm).
  rewrite (realm_every _ Hrealm). reflexivity.
Qed.

Lemma new_array_every_builtin h l elements :
  realm_intact h ->
  h !! l = Some (Object (Some Intrinsics.Array_prototype)
                        (ArrayObject elements) []) ->
  every_builtin h l = true.
Proof.
  intros Hrealm Hlookup.
  destruct (heap_not_empty _ _ _ Hlookup) as [n Hsize].
  pose proof (realm_object_inherits _ _ _ Hrealm Hlookup ltac:(discriminate))
    as Hl.
  unfold every_builtin, is_callable, typeof, Get, chain_bound.
  rewrite Hsize. cbn [resolve].
  rewrite andb_false_r, (prototype_of_object _ _ Hl).
  rewrite (object_at_lookup _ _ _ Hlookup).
  replace (own_property (Object (Some Intrinsics.Array_prototype)
                                (ArrayObject elements) []) "every")
    with (@None property) by reflexivity.
  cbn [obj_prototype]. rewrite (realm_Array_prototype _ Hrealm).
  rewrite (realm_every _ Hrealm). reflexivity.
Qed.

Lemma insert_by_index_elem (x e : N * property) sorted :
  x ∈ insert_by_index e sorted -> x = e \/ x ∈ sorted.
Proof.
  induction sorted as [|s rest IH]; cbn [insert_by_index].
  - intros ->%list_elem_of_singleton. now left.
  - destruct (fst e <=? fst s)%N.
    + intros [->|Hx]%elem_of_cons; auto.
    + intros [->|Hx]%elem_of_cons; [right; left|].
      destruct (IH Hx) as [->|Hrest]; [now left|right; now right].
Qed.

(** [Object.values] returns values of own properties, whatever their
    order. *)
Lemma ordered_properties_elem p props :
  p ∈ ordered_properties props -> exists k, (k, p) ∈ props.
Proof.
  unfold ordered_properties. intros [Hindexed|Hnamed]%elem_of_app.
  - apply list_elem_of_fmap in Hindexed as ([i p'] & -> & Hsorted).
    assert (Hin : forall (xs : list (N * property)) x,
              x ∈ foldr insert_by_index [] xs -> x ∈ xs).
    { induction xs as [|e xs IH]; cbn [foldr]; intros x Hx; [exact Hx|].
      apply insert_by_index_elem in Hx as [->|Hx]; [left|right; auto]. }
    apply Hin, list_elem_of_omap in Hsorted as ([k q] & Hkq & Hsome).
    cbn [fst snd] in Hsome. destruct (array_index k); inversion Hsome; subst.
    now exists k.
  - apply list_elem_of_omap in Hnamed as ([k q] & Hkq & Hsome).
    cbn [fst snd] in Hsome. destruct (array_index k); inversion Hsome; subst.
    now exists k.
Qed.

Lemma Object_values_ordinary h l proto props x :
  h !! l = Some (Object proto OrdinaryObject props) ->
  x ∈ Object_values h l ->
  exists k p, (k, p) ∈ props /\ x = prop_value p.
Proof.
  intros Hlookup. unfold Object_values, array_elements, object_at.
  rewrite Hlookup. cbn [default from_option]. unfold id.
  cbn [obj_internal obj_properties present_elements omap list_omap app].
  intros (p & -> & Hp)%list_elem_of_fmap.
  apply list_elem_of_In, List.filter_In in Hp as [Hp _].
  apply list_elem_of_In, ordered_properties_elem in Hp as [k Hk].
  now exists k, p.
Qed.

Lemma Forall2_elem {A B} (R : A -> B -> Prop) xs ys x :
  Forall2 R xs ys -> x ∈ xs -> exists y, y ∈ ys /\ R x y.
Proof.
  induction 1 as [|x' y' xs ys Hxy _ IH]; intros Hx; [inversion Hx|].
  apply elem_of_cons in Hx as [->|Hx].
  - exists y'. split; [left|exact Hxy].
  - destruct (IH Hx) as (y & Hy & HR). exists y. split; [now right|exact HR].
Qed.

Lemma existsb_false {A} (f : A -> bool) xs x :
  existsb f xs = false -> x ∈ xs -> f x = false.
Proof.
  induction xs as [|x' rest IH]; intros Hnone Hx; [inversion Hx|].
  cbn [existsb] in Hnone. apply orb_false_iff in Hnone as [Hhead Hrest].
  apply elem_of_cons in Hx as [->|Hx]; auto.
Qed.

Lemma members_without_name name props members L h :
  Forall2 (member_represented L h) props members ->
  existsb (member_names name) members = false ->
  List.find (fun kp => String.eqb (fst kp) name) props = None.
Proof.
  induction 1 as [|[k p] [k' j] ps ms (Hk & _) _ IH]; intros Hnone; [reflexivity|].
  cbn [existsb] in Hnone. apply orb_false_iff in Hnone as [Hhead Hrest].
  unfold member_names in Hhead. apply orb_false_iff in Hhead as [Hkey _].
  cbn [fst snd] in *. subst k'. cbn [List.find fst]. rewrite Hkey. now apply IH.
Qed.

(** In an intact realm the validator answers [true] on every value that
    is a tree without a member named [constructor], with as many call
    frames as the tree is deep. *)
Lemma tree_validates `{host : Host} h :
  realm_intact h ->
  forall j L v,
    represents_within L h v j ->
    json_names "constructor" j = false ->
    forall depth, json_depth j <= depth ->
      isJSONValue depth v h = (Normal true, h).
Proof.
  intros Hrealm.
  induction j as [|b|n|s|items IH|members IH] using json_nested_ind;
    intros L v Hrep Hnames depth Hdepth;
    try (cbn in Hrep; subst v; destruct depth as [|depth];
         [cbn in Hdepth; lia|reflexivity]).
  - apply represents_array in Hrep as (l & elements & -> & _ & Hlookup & Hitems).
    destruct depth as [|depth]; [cbn in Hdepth; lia|].
    rewrite json_names_array in Hnames.
    assert (Helements : array_elements h l = Some <$> elements).
    { unfold array_elements, object_at. now rewrite Hlookup. }
    assert (Hchildren : validated_children h l = Some (Some <$> elements)).
    { unfold validated_children.
      rewrite (plain_not_boxed _ _ _ Hrealm Hlookup) by (now right).
      rewrite (new_array_every_builtin _ _ _ Hrealm Hlookup).
      rewrite (array_items_dense _ _ _ Helements).
      unfold typeof, Array_isArray, object_at. now rewrite Hlookup. }
    assert (Hall : forall item, item ∈ present_elements (Some <$> elements) ->
                     isJSONValue depth item h = (Normal true, h)).
    { intros item Hitem. rewrite present_elements_Some in Hitem.
      destruct (Forall2_elem _ _ _ _ Hitems Hitem) as (j & Hj & Hrepresents).
      rewrite Forall_forall in IH.
      apply (IH j Hj L); [exact Hrepresents|now apply (existsb_false _ items)|].
      pose proof (json_depth_array _ _ Hj). lia. }
    rewrite (isJSONValue_children _ _ _ _ Hchildren).
    + now apply every_present_all.
    + apply stable_all. intros item Hitem. exists true. now apply Hall.
  - apply represents_object in Hrep as (l & props & -> & _ & Hlookup & Hmembers).
    destruct depth as [|depth]; [cbn in Hdepth; lia|].
    rewrite json_names_object in Hnames.
    assert (Hchildren :
      validated_children h l = Some (Some <$> Object_values h l)).
    { unfold validated_children.
      rewrite (plain_not_boxed _ _ _ Hrealm Hlookup) by (now left).
      rewrite (plain_constructor_is_Object _ _ _ Hrealm Hlookup)
        by (eapply members_without_name; eauto).
      rewrite (realm_every_builtin _ Hrealm).
      unfold typeof, Array_isArray, object_at. now rewrite Hlookup. }
    assert (Hall : forall item,
              item ∈ present_elements (Some <$> Object_values h l) ->
              isJSONValue depth item h = (Normal true, h)).
    { intros item Hitem. rewrite present_elements_Some in Hitem.
      destruct (Object_values_ordinary _ _ _ _ _ Hlookup Hitem)
        as (k & p & Hkp & ->).
      destruct (Forall2_elem _ _ _ _ Hmembers Hkp)
        as (m & Hm & _ & _ & Hrepresents).
      rewrite Forall_forall in IH.
      apply (IH m Hm L); [exact Hrepresents| |].
      + pose proof (existsb_false _ _ _ Hnames Hm) as Hnone.
        unfold member_names in Hnone. now apply orb_false_iff in Hnone.
      + pose proof (json_depth_object _ _ Hm). lia. }
    rewrite (isJSONValue_children _ _ _ _ Hchildren).
    + now apply every_present_all.
    + apply stable_all. intros item Hitem. exists true. now apply Hall.
Qed.

(** The table names a field only where the literal does. *)
Lemma insert_member_names name k j members :
  member_names name (k, j) = false ->
  existsb (member_names name) members = false ->
  existsb (member_names name) (insert_member k j members) = false.
Proof.
  intros Hnew. induction members as [|[k' j'] rest IH]; intros Hold;
    cbn [insert_member existsb] in *.
  - now rewrite Hnew.
  - apply orb_false_iff in Hold as [Hhead Hrest].
    destruct (String.eqb k' k) eqn:Hk; cbn [existsb].
    + apply String.eqb_eq in Hk. subst k'. now rewrite Hnew, Hrest.
    + now rewrite Hhead, IH.
Qed.

Lemma decoded_names name ast :
  forall j,
    decoded ast = Some j ->
    names_field name ast = false ->
    json_names name j = false.
Proof.
  induction ast as [x|value|value|value|value| |value|values IH|fields IH]
    using ValueNode_nested_ind; intros j Hdecoded Hnames;
    try discriminate; try (inversion Hdecoded; subst; reflexivity).
  - rewrite decoded_ListValue in Hdecoded.
    destruct (decoded_values values) as [js|] eqn:Hjs; [|discriminate].
    inversion Hdecoded; subst j. rewrite json_names_array.
    clear Hdecoded. revert js Hjs Hnames.
    induction IH as [|val rest Hval _ IHrest]; intros js Hjs Hnames.
    + now inversion Hjs.
    + rewrite decoded_values_cons in Hjs.
      destruct (decoded val) as [j|] eqn:Hj; [|discriminate].
      destruct (decoded_values rest) as [js'|] eqn:Hjs'; [|discriminate].
      inversion Hjs; subst js.
      rewrite names_field_ListValue in Hnames.
      apply orb_false_iff in Hnames as [Hhead Hrest].
      cbn [existsb]. rewrite (Hval j eq_refl Hhead). now apply IHrest.
  - rewrite decoded_ObjectValue in Hdecoded.
    destruct (decoded_fields fields []) as [members|] eqn:Hmembers; [|discriminate].
    inversion Hdecoded; subst j. rewrite json_names_object.
    clear Hdecoded.
    assert (Hacc : existsb (member_names name) [] = false) by reflexivity.
    revert Hmembers Hnames Hacc. generalize (@nil (string * json)) as acc.
    induction IH as [|[k value] rest Hvalue _ IHrest]; intros acc Hmembers Hnames Hacc.
    + inversion Hmembers; now subst.
    + rewrite decoded_fields_cons in Hmembers.
      destruct (decoded value) as [j|] eqn:Hj; [|discriminate].
      rewrite names_field_ObjectValue in Hnames.
      apply orb_false_iff in Hnames as [Hhead Hrest].
      apply orb_false_iff in Hhead as [Hkey Hinner].
      apply (IHrest (insert_member k j acc)); auto.
      apply insert_member_names; [|exact Hacc].
      unfold member_names. cbn [fst snd]. now rewrite Hkey, (Hvalue j eq_refl Hinner).
Qed.

Lemma extends_realm h h' : realm_intact h -> extends h h' -> realm_intact h'.
Proof.
  intros (Hobject & Harray & Hevery) Hext.
  repeat split; rewrite Hext; auto; apply elem_of_dom;
    [rewrite Hobject|rewrite Harray|rewrite Hevery]; vm_compute; eauto.
Qed.

(** In an intact realm, a literal whose nodes are all of a supported kind
    and whose fields are named neither [__proto__] nor [constructor]
    decodes to a value that is the tree of the table and that the
    validator accepts; both converters return it unchanged. *)
Lemma decoder_output_validates `{host : Host} ast j h :
  realm_intact h ->
  decoded ast = Some j ->
  names_field "__proto__" ast = false ->
  names_field "constructor" ast = false ->
  exists v h',
    parseLiteral ast h = (Normal v, h')
    /\ extends h h'
    /\ represents_within (dom h' ∖ dom h) h' v j
    /\ (forall depth, json_depth j <= depth ->
          isJSONValue depth v h' = (Normal true, h')
          /\ serialize depth v h' = (Normal v, h')
          /\ parseValue depth v h' = (Normal v, h')).
Proof.
  intros Hrealm Hdecoded Hproto Hconstructor.
  destruct (parseLiteral_builds_tree ast j h Hdecoded Hproto)
    as (v & h' & Hrun & Hext & Hrep).
  assert (Hrealm' : realm_intact h') by now apply (extends_realm h).
  assert (Hvalid : forall depth, json_depth j <= depth ->
                     isJSONValue depth v h' = (Normal true, h')).
  { intros depth Hdepth.
    eapply (tree_validates h' Hrealm' j); eauto.
    now apply (decoded_names _ ast). }
  exists v, h'. split; [exact Hrun|]. split; [exact Hext|]. split; [exact Hrep|].
  intros depth Hdepth. split; [now apply Hvalid|].
  split; [apply (serialize_valid _ _ _ true)
         |apply (parseValue_valid _ _ _ true)]; auto.
Qed.

(** * The host functions on known values *)

Example toISOString_known_values :
  iso_string 0 = "1970-01-01T00:00:00.000Z"
  /\ iso_string (-1) = "1969-12-31T23:59:59.999Z"
  /\ iso_string 951782400000 = "2000-02-29T00:00:00.000Z"
  /\ iso_string 1709210096789 = "2024-02-29T12:34:56.789Z"
  /\ iso_string 253402300799999 = "9999-12-31T23:59:59.999Z"
  /\ iso_string 253402300800000 = "+010000-01-01T00:00:00.000Z"
  /\ iso_string (-62167219200000) = "0000-01-01T00:00:00.000Z"
  /\ iso_string (-62167219200001) = "-000001-12-31T23:59:59.999Z"
  /\ iso_string 8640000000000000 = "+275760-09-13T00:00:00.000Z"
  /\ iso_string (-8640000000000000) = "-271821-04-20T00:00:00.000Z".
Proof. repeat split; vm_compute; reflexivity. Qed.

Example parseInt_known_values :
  parseInt "42" = number_of_Z 42
  /\ parseInt "-17" = number_of_Z (-17)
  /\ parseInt "  12abc" = number_of_Z 12
  /\ parseInt "-0" = S754_zero true
  /\ parseInt "" = NaN
  /\ parseInt "abc" = NaN
  /\ parseInt "9007199254740993" = number_of_Z 9007199254740992.
Proof. repeat split; vm_compute; reflexivity. Qed.

(** 3.14 is 0x40091EB851EB851F and 0.1 is 0x3FB999999999999A. *)
Example parseFloat_known_values :
  parseFloat "3.14" = S754_finite false 7070651414971679 (-51)
  /\ parseFloat "0.1" = S754_finite false 7205759403792794 (-56)
  /\ parseFloat "1.5" = S754_finite false 6755399441055744 (-52)
  /\ parseFloat "-2e3" = number_of_Z (-2000)
  /\ parseFloat ".5e1" = number_of_Z 5
  /\ parseFloat "1e" = number_of_Z 1
  /\ parseFloat "." = NaN
  /\ parseFloat "5e-324" = S754_finite false 1 (-1074)
  /\ parseFloat "2.4e-324" = S754_zero false
  /\ parseFloat "1.7976931348623157e308" = S754_finite false 9007199254740991 971
  /\ parseFloat "1.7976931348623159e308" = Infinity
  /\ parseFloat "-Infinity" = S754_infinity true.
Proof. repeat split; vm_compute; reflexivity. Qed.

Example Number_toString_known_values :
  List.map (fun text => Number_toString (parseFloat text))
    ["0.1"; "3.14"; "100"; "-42"; "1e21"; "1e-7"; "0.000001";
     "123456789012345680000"; "0.30000000000000004"; "5e-324";
     "1.7976931348623157e308"; "-0"; "1e999"; "x"]
  = ["0.1"; "3.14"; "100"; "-42"; "1e+21"; "1e-7"; "0.000001";
     "123456789012345680000"; "0.30000000000000004"; "5e-324";
     "1.7976931348623157e+308"; "0"; "Infinity"; "NaN"].
Proof. vm_compute. reflexivity. Qed.

Example String_of_primitives `{host : Host} (h : heap) :
  JS_String VUndefined h = (Normal "undefined", h)
  /\ JS_String (VSymbol 1 "test") h = (Normal "Symbol(test)", h)
  /\ JS_String (VBigInt (-15)) h = (Normal "-15", h).
Proof. repeat split. Qed.

(** * Further properties of the decoder *)

(** ** The decoder leaves the objects that exist alone *)

Lemma Set_frame l key v h c h' :
  Set_ l key v h = (c, h') ->
  (forall l', l' <> l -> h' !! l' = h !! l') /\ dom h ⊆ dom h'.
Proof.
  assert (Hwrite : forall o,
            (forall l', l' <> l -> <[l := o]> h !! l' = h !! l')
            /\ dom h ⊆ dom (<[l := o]> h)).
  { intros o. split; [|apply dom_insert_subseteq].
    intros l' Hne. now apply lookup_insert_ne. }
  unfold Set_. rewrite bind_gets.
  destruct (resolve (chain_bound h) h l key) as [holder p| |].
  - unfold define_own. intros [= <- <-]. apply Hwrite.
  - unfold set_proto_accessor.
    destruct v as [| | | | | | |parent];
      try (intros [= <- <-]; split; [reflexivity|reflexivity]).
    + unfold set_prototype. intros [= <- <-]. apply Hwrite.
    + rewrite bind_gets.
      destruct (Pos.eqb parent l || in_prototype_chain (chain_bound h) h parent l).
      * intros [= <- <-]. split; reflexivity.
      * unfold set_prototype. intros [= <- <-]. apply Hwrite.
  - unfold define_own. intros [= <- <-]. apply Hwrite.
Qed.

Lemma decode_values_frame values :
  Forall keeps_objects values ->
  forall h c h', decode_values values h = (c, h') -> extends h h'.
Proof.
  induction 1 as [|val rest Hval _ IH]; intros h c h'.
  - intros [= <- <-]. apply extends_refl.
  - rewrite decode_values_cons. unfold bind at 1.
    destruct (parseLiteral val h) as [[v|e] h1] eqn:Hrun.
    + pose proof (Hval _ _ _ Hrun) as Hext1. unfold bind.
      destruct (decode_values rest h1) as [[items|e] h2] eqn:Hruns;
        pose proof (IH _ _ _ Hruns) as Hext2;
        intros [= <- <-]; eapply extends_trans; eauto.
    + intros [= <- <-]. now apply (Hval _ _ _ Hrun).
Qed.

Lemma assign_fields_frame obj fields :
  Forall (fun field => match field with
                       | ObjectField _ value => keeps_objects value
                       end) fields ->
  forall h c h',
    assign_fields obj fields h = (c, h') ->
    (forall l, l ∈ dom h -> l <> obj -> h' !! l = h !! l) /\ dom h ⊆ dom h'.
Proof.
  induction 1 as [|[name value] rest Hvalue _ IH]; intros h c h'.
  - intros [= <- <-]. split; reflexivity.
  - rewrite assign_fields_cons. unfold bind at 1.
    destruct (parseLiteral value h) as [[v|e] h1] eqn:Hrun.
    + pose proof (Hvalue _ _ _ Hrun) as Hext1.
      pose proof (extends_dom _ _ Hext1) as Hdom1.
      unfold bind.
      destruct (Set_ obj name v h1) as [[[]|e] h2] eqn:Hset;
        destruct (Set_frame _ _ _ _ _ _ Hset) as [Hsame2 Hdom2].
      * intros Hrest. destruct (IH _ _ _ Hrest) as [Hsame3 Hdom3].
        split.
        -- intros l Hl Hne. rewrite Hsame3, Hsame2 by auto. now apply Hext1.
        -- intros l Hl. apply Hdom3, Hdom2, Hdom1, Hl.
      * intros [= <- <-]. split.
        -- intros l Hl Hne. rewrite Hsame2 by auto. now apply Hext1.
        -- intros l Hl. apply Hdom2, Hdom1, Hl.
    + intros [= <- <-]. split.
      * intros l Hl _. now apply (Hvalue _ _ _ Hrun).
      * apply extends_dom. now apply (Hvalue _ _ _ Hrun).
Qed.

Lemma parseLiteral_frame ast : keeps_objects ast.
Proof.
  induction ast as [name|value|value|value|value| |value|values IH|fields IH]
    using ValueNode_nested_ind; intros h c h';
    try (intros [= <- <-]; apply extends_refl).
  - rewrite parseLiteral_ListValue. unfold bind at 1.
    destruct (decode_values values h) as [[items|e] h1] eqn:Hrun;
      pose proof (decode_values_frame _ IH _ _ _ Hrun) as Hext.
    + unfold new_array. destruct (alloc_run (Object (Some Intrinsics.Array_prototype)
                                  (ArrayObject (Some <$> items)) []) h1)
        as (Halloc & _ & Hext').
      rewrite (bind_normal _ _ _ _ _ Halloc). intros [= <- <-].
      eapply extends_trans; eauto.
    + now intros [= <- <-].
  - rewrite parseLiteral_ObjectValue. unfold new_object.
    destruct (alloc_run (Object (Some Intrinsics.Object_prototype)
                                OrdinaryObject []) h)
      as (Halloc & Hfresh & Hext0).
    rewrite (bind_normal _ _ _ _ _ Halloc).
    set (obj := fresh (dom h)) in *.
    set (h0 := <[obj := Object (Some Intrinsics.Object_prototype)
                               OrdinaryObject []]> h) in *.
    unfold bind.
    destruct (assign_fields obj fields h0) as [[[]|e] h1] eqn:Hrun;
      destruct (assign_fields_frame obj fields IH _ _ _ Hrun) as [Hsame Hdom];
      intros [= <- <-]; intros l Hl;
      (rewrite Hsame; [now apply Hext0|now apply (extends_dom _ _ Hext0)|]);
      intros ->; now apply Hfresh.
Qed.

Lemma Set_keeps_internal l key v h c h' :
  l ∈ dom h ->
  Set_ l key v h = (c, h') ->
  obj_internal (object_at h' l) = obj_internal (object_at h l).
Proof.
  intros Hl.
  assert (Hwrite : forall proto props,
            obj_internal (object_at
              (<[l := Object proto (obj_internal (object_at h l)) props]> h) l)
            = obj_internal (object_at h l)).
  { intros proto props. unfold object_at at 1. now rewrite lookup_insert_eq. }
  unfold Set_. rewrite bind_gets.
  destruct (resolve (chain_bound h) h l key) as [holder p| |].
  - unfold define_own. intros [= <- <-]. apply Hwrite.
  - unfold set_proto_accessor.
    destruct v as [| | | | | | |parent];
      try (unfold set_prototype; intros [= <- <-]; first [reflexivity|apply Hwrite]).
    rewrite bind_gets.
    destruct (Pos.eqb parent l || in_prototype_chain (chain_bound h) h parent l).
    + now intros [= <- <-].
    + unfold set_prototype. intros [= <- <-]. apply Hwrite.
  - unfold define_own. intros [= <- <-]. apply Hwrite.
Qed.

Lemma assign_fields_keeps_internal obj fields :
  forall h c h',
    obj ∈ dom h ->
    assign_fields obj fields h = (c, h') ->
    obj_internal (object_at h' obj) = obj_internal (object_at h obj).
Proof.
  induction fields as [|[name value] rest IH]; intros h c h' Hobj.
  - now intros [= <- <-].
  - rewrite assign_fields_cons. unfold bind at 1.
    destruct (parseLiteral value h) as [[v|e] h1] eqn:Hrun;
      pose proof (parseLiteral_frame _ _ _ _ Hrun) as Hext1;
      assert (Hsame1 : object_at h1 obj = object_at h obj)
        by (unfold object_at; now rewrite (Hext1 obj Hobj)).
    + pose proof (extends_dom _ _ Hext1 _ Hobj) as Hobj1.
      unfold bind.
      destruct (Set_ obj name v h1) as [[[]|e] h2] eqn:Hset;
        pose proof (Set_keeps_internal _ _ _ _ _ _ Hobj1 Hset) as Hsame2;
        destruct (Set_frame _ _ _ _ _ _ Hset) as [_ Hdom2].
      * intros Hrest. rewrite (IH _ _ _ (Hdom2 _ Hobj1) Hrest). congruence.
      * intros [= <- <-]. congruence.
    + intros [= <- <-]. congruence.
Qed.

Lemma first_unsupported_ListValue values :
  first_unsupported (ListValue values) = first_unsupported_value values.
Proof. reflexivity. Qed.

Lemma first_unsupported_ObjectValue fields :
  first_unsupported (ObjectValue fields) = first_unsupported_field fields.
Proof. reflexivity. Qed.

(** The table has no entry exactly for the literals with an unsupported
    node. *)
Lemma first_unsupported_decoded ast :
  match first_unsupported ast with
  | None => exists j, decoded ast = Some j
  | Some _ => decoded ast = None
  end.
Proof.
  induction ast as [name|value|value|value|value| |value|values IH|fields IH]
    using ValueNode_nested_ind; try (cbn; eauto; fail).
  - rewrite first_unsupported_ListValue, decoded_ListValue.
    enough (Hloop : match first_unsupported_value values with
                    | None => exists js, decoded_values values = Some js
                    | Some _ => decoded_values values = None
                    end).
    { destruct (first_unsupported_value values).
      - now rewrite Hloop.
      - destruct Hloop as [js ->]. now exists (JArray js). }
    induction IH as [|val rest Hval _ IHrest]; [now exists []|].
    rewrite decoded_values_cons. cbn [first_unsupported_value].
    destruct (first_unsupported val); [now rewrite Hval|].
    destruct Hval as [j ->].
    destruct (first_unsupported_value rest); [now rewrite IHrest|].
    destruct IHrest as [js ->]. now exists (j :: js).
  - rewrite first_unsupported_ObjectValue, decoded_ObjectValue.
    enough (Hloop : forall members,
              match first_unsupported_field fields with
              | None => exists ms, decoded_fields fields members = Some ms
              | Some _ => decoded_fields fields members = None
              end).
    { specialize (Hloop []). destruct (first_unsupported_field fields).
      - now rewrite Hloop.
      - destruct Hloop as [ms ->]. now exists (JObject ms). }
    induction IH as [|[name value] rest Hvalue _ IHrest]; intros members;
      [now exists members|].
    rewrite decoded_fields_cons. cbn [first_unsupported_field].
    destruct (first_unsupported value); [now rewrite Hvalue|].
    destruct Hvalue as [j ->]. apply IHrest.
Qed.

Lemma first_unsupported_kinds ast k :
  first_unsupported ast = Some k -> k = "Variable" \/ k = "EnumValue".
Proof.
  induction ast as [name|value|value|value|value| |value|values IH|fields IH]
    using ValueNode_nested_ind; try discriminate;
    try (intros [= <-]; auto; fail).
  - rewrite first_unsupported_ListValue.
    induction IH as [|val rest Hval _ IHrest]; [discriminate|].
    cbn [first_unsupported_value].
    destruct (first_unsupported val); [intros [= <-]; now apply Hval|exact IHrest].
  - rewrite first_unsupported_ObjectValue.
    induction IH as [|[name value] rest Hvalue _ IHrest]; [discriminate|].
    cbn [first_unsupported_field].
    destruct (first_unsupported value);
      [intros [= <-]; now apply Hvalue|exact IHrest].
Qed.

(** What it is for the decoder to fail at the first unsupported node. *)
Lemma parseLiteral_throws_first ast : throws_first_unsupported ast.
Proof.
  induction ast as [name|value|value|value|value| |value|values IH|fields IH]
    using ValueNode_nested_ind; intros k h Hnames Hfirst;
    try discriminate;
    try (injection Hfirst as <-; now exists h).
  - rewrite first_unsupported_ListValue in Hfirst.
    enough (Hloop : exists h',
              decode_values values h = (Throw (unsupported_literal k), h')).
    { destruct Hloop as [h' Hrun]. exists h'.
      now rewrite parseLiteral_ListValue, (bind_throw _ _ _ _ _ Hrun). }
    revert h Hnames Hfirst.
    induction IH as [|val rest Hval _ IHrest]; intros h Hnames Hfirst;
      [discriminate|].
    rewrite names_field_ListValue in Hnames.
    apply orb_false_iff in Hnames as [Hname Hnames].
    cbn [first_unsupported_value] in Hfirst. rewrite decode_values_cons.
    pose proof (first_unsupported_decoded val) as Htable.
    destruct (first_unsupported val) as [k0|] eqn:Hk0.
    + injection Hfirst as ->. destruct (Hval k h Hname Hk0) as [h' Hrun].
      exists h'. now rewrite (bind_throw _ _ _ _ _ Hrun).
    + destruct Htable as [j Hj].
      destruct (parseLiteral_builds_tree val j h Hj Hname) as (v & h1 & Hrun & _).
      destruct (IHrest h1 Hnames Hfirst) as [h' Hruns]. exists h'.
      now rewrite (bind_normal _ _ _ _ _ Hrun), (bind_throw _ _ _ _ _ Hruns).
  - rewrite first_unsupported_ObjectValue in Hfirst.
    rewrite parseLiteral_ObjectValue. unfold new_object.
    destruct (alloc_run (Object (Some Intrinsics.Object_prototype)
                                OrdinaryObject []) h) as (Halloc & _ & _).
    rewrite (bind_normal _ _ _ _ _ Halloc).
    generalize (<[(fresh (dom h)) := Object (Some Intrinsics.Object_prototype)
                                       OrdinaryObject []]> h) as h0.
    generalize (fresh (dom h)) as obj.
    intros obj h0.
    enough (Hloop : exists h',
              assign_fields obj fields h0 = (Throw (unsupported_literal k), h')).
    { destruct Hloop as [h' Hrun]. exists h'.
      now rewrite (bind_throw _ _ _ _ _ Hrun). }
    clear Halloc. revert h0 Hnames Hfirst.
    induction IH as [|[name value] rest Hvalue _ IHrest]; intros h0 Hnames Hfirst;
      [discriminate|].
    rewrite names_field_ObjectValue in Hnames.
    apply orb_false_iff in Hnames as [Hnames Hrest].
    apply orb_false_iff in Hnames as [Hname Hinner].
    apply String.eqb_neq in Hname.
    cbn [first_unsupported_field] in Hfirst. rewrite assign_fields_cons.
    pose proof (first_unsupported_decoded value) as Htable.
    destruct (first_unsupported value) as [k0|] eqn:Hk0.
    + injection Hfirst as ->. destruct (Hvalue k h0 Hinner Hk0) as [h' Hrun].
      exists h'. now rewrite (bind_throw _ _ _ _ _ Hrun).
    + destruct Htable as [j Hj].
      destruct (parseLiteral_builds_tree value j h0 Hj Hinner)
        as (v & h1 & Hrun & _).
      rewrite (bind_normal _ _ _ _ _ Hrun).
      rewrite (bind_normal _ _ h1 tt (snd (define_own obj name v h1)))
        by (now rewrite (Set_ordinary_name _ _ _ _ Hname)).
      now apply IHrest.
Qed.

(** X1. Whatever the literal is, a field named [__proto__] included, and
    whether the decoder returns or throws, it leaves every object that
    existed before the call as it was: it writes to objects of its own
    making only. *)
Theorem parseLiteral_keeps_existing_objects (ast : ValueNode) (h : heap) :
  extends h (snd (parseLiteral ast h))
  /\ (forall l o, h !! l = Some o -> snd (parseLiteral ast h) !! l = Some o)
  /\ dom h ⊆ dom (snd (parseLiteral ast h)).
Proof.
  destruct (parseLiteral ast h) as [c h'] eqn:Hrun. cbn [snd].
  pose proof (parseLiteral_frame ast h c h' Hrun) as Hext.
  split; [exact Hext|]. split; [|now apply extends_dom].
  intros l o Hlookup. rewrite Hext; [exact Hlookup|].
  apply elem_of_dom. now exists o.
Qed.

(** X2. A list literal and an object literal decode to an object that did
    not exist before the call, an array for a list and an ordinary object
    that is no array for an object literal, so that no two calls share a
    result; a scalar literal decodes to a primitive value and leaves the
    heap as it was. *)
Theorem parseLiteral_returns_new_object (ast : ValueNode) (h : heap)
    (v : value) (h' : heap) :
  parseLiteral ast h = (Normal v, h') ->
  match v with
  | VObject l =>
      (l ∉ dom h) /\ l ∈ dom h'
      /\ typeof h' v = "object"
      /\ Array_isArray h' v = bool_decide (kind ast = "ListValue")
  | _ => h' = h
  end.
Proof.
  destruct ast as [name|value|value|value|value| |value|values|fields];
    try (intros [= <- <-]; reflexivity); try discriminate.
  - rewrite parseLiteral_ListValue. unfold bind at 1.
    destruct (decode_values values h) as [[items|e] h1] eqn:Hrun; [|discriminate].
    assert (Hext : extends h h1).
    { apply (decode_values_frame values) with (c := Normal items); [|exact Hrun].
      apply Forall_forall. intros val _. apply parseLiteral_frame. }
    unfold new_array.
    destruct (alloc_run (Object (Some Intrinsics.Array_prototype)
                                (ArrayObject (Some <$> items)) []) h1)
      as (Halloc & Hfresh & _).
    rewrite (bind_normal _ _ _ _ _ Halloc). intros [= <- <-].
    split; [intros Hold; now apply Hfresh, (extends_dom _ _ Hext)|].
    split; [apply elem_of_dom; rewrite lookup_insert_eq; eauto|].
    unfold typeof, Array_isArray, object_at. rewrite lookup_insert_eq.
    split; reflexivity.
  - rewrite parseLiteral_ObjectValue. unfold new_object.
    destruct (alloc_run (Object (Some Intrinsics.Object_prototype)
                                OrdinaryObject []) h)
      as (Halloc & Hfresh & _).
    rewrite (bind_normal _ _ _ _ _ Halloc).
    set (obj := fresh (dom h)) in *.
    set (h0 := <[obj := Object (Some Intrinsics.Object_prototype)
                               OrdinaryObject []]> h) in *.
    assert (Hobj : obj ∈ dom h0)
      by (apply elem_of_dom; unfold h0; rewrite lookup_insert_eq; eauto).
    unfold bind.
    destruct (assign_fields obj fields h0) as [[[]|e] h1] eqn:Hrun; [|discriminate].
    intros [= <- <-].
    pose proof (assign_fields_keeps_internal _ _ _ _ _ Hobj Hrun) as Hinternal.
    assert (Hdom : dom h0 ⊆ dom h1).
    { apply (assign_fields_frame obj fields) with (c := Normal tt); [|exact Hrun].
      apply Forall_forall. intros [name value] _. apply parseLiteral_frame. }
    split; [exact Hfresh|]. split; [now apply Hdom|].
    unfold typeof, Array_isArray. rewrite Hinternal.
    unfold object_at, h0. rewrite lookup_insert_eq. split; reflexivity.
Qed.

(** X3. When some node of the literal, at any depth, is of no supported
    kind (and no field is named [__proto__]), the decoder throws the
    TypeError that names the kind of the first such node in the order of
    the document, a variable or an enum value, and returns nothing of
    what it had decoded before; the objects it had made stay in the heap,
    beside the old ones, which are unchanged. *)
Theorem parseLiteral_names_first_unsupported (ast : ValueNode) (k : string)
    (h : heap) :
  names_field "__proto__" ast = false ->
  first_unsupported ast = Some k ->
  exists h',
    parseLiteral ast h = (Throw (unsupported_literal k), h')
    /\ extends h h'
    /\ (k = "Variable" \/ k = "EnumValue").
Proof.
  intros Hnames Hfirst.
  destruct (parseLiteral_throws_first ast k h Hnames Hfirst) as [h' Hrun].
  exists h'. split; [exact Hrun|].
  split; [now apply (parseLiteral_frame ast h _ h' Hrun)|].
  now apply (first_unsupported_kinds ast).
Qed.

(** X4. On a literal without a field named [__proto__] the decoder
    returns a value exactly when every node is of a supported kind, and
    the value is then the tree of the table of the specification, built
    from new objects: a list as an array of the items in order, an object
    with its members in field order, the later of two equal names
    winning. It throws exactly when the table has no entry. *)
Theorem parseLiteral_succeeds_exactly (ast : ValueNode) (h : heap) :
  names_field "__proto__" ast = false ->
  (forall j, decoded ast = Some j ->
     exists v h',
       parseLiteral ast h = (Normal v, h')
       /\ extends h h'
       /\ represents_within (dom h' ∖ dom h) h' v j)
  /\ (forall v h', parseLiteral ast h = (Normal v, h') ->
        exists j, decoded ast = Some j
                  /\ represents_within (dom h' ∖ dom h) h' v j)
  /\ (decoded ast = None <-> exists e h', parseLiteral ast h = (Throw e, h')).
Proof.
  intros Hnames.
  assert (Hsome : forall j, decoded ast = Some j ->
            exists v h',
              parseLiteral ast h = (Normal v, h')
              /\ extends h h'
              /\ represents_within (dom h' ∖ dom h) h' v j)
    by (intros j Hj; now apply parseLiteral_builds_tree).
  assert (Hnone : decoded ast = None ->
            exists e h', parseLiteral ast h = (Throw e, h')).
  { intros Hdecoded. pose proof (first_unsupported_decoded ast) as Htable.
    destruct (first_unsupported ast) as [k|] eqn:Hfirst.
    - destruct (parseLiteral_throws_first ast k h Hnames Hfirst) as [h' Hrun].
      now exists (unsupported_literal k), h'.
    - destruct Htable as [j Hj]. congruence. }
  split; [exact Hsome|]. split.
  - intros v h' Hrun. destruct (decoded ast) as [j|] eqn:Hdecoded.
    + destruct (Hsome j eq_refl) as (v' & h'' & Hrun' & _ & Hrep).
      exists j. split; [reflexivity|]. congruence.
    + destruct (Hnone eq_refl) as (e & h'' & Hthrow). congruence.
  - split; [exact Hnone|].
    intros (e & h' & Hthrow). destruct (decoded ast) as [j|] eqn:Hdecoded;
      [|reflexivity].
    destruct (Hsome j eq_refl) as (v & h'' & Hrun & _). congruence.
Qed.

Lemma parseLiteral_returns_new_array :
  exists l h',
    parseLiteral (ListValue [IntValue "1"]) initial_heap = (Normal (VObject l), h')
    /\ (l ∉ dom initial_heap) /\ l ∈ dom h'
    /\ typeof h' (VObject l) = "object"
    /\ Array_isArray h' (VObject l) = true.
Proof.
  eexists _, _. split; [vm_compute; reflexivity|].
  apply (parseLiteral_returns_new_object (ListValue [IntValue "1"]) initial_heap
           (VObject _) _).
  vm_compute. reflexivity.
Defined.

Lemma parseLiteral_names_enum_in_list :
  names_field "__proto__" Gallery.enum_in_list = false
  /\ first_unsupported Gallery.enum_in_list = Some "EnumValue"
  /\ exists h',
       parseLiteral Gallery.enum_in_list initial_heap
         = (Throw (unsupported_literal "EnumValue"), h')
       /\ extends initial_heap h'
       /\ ("EnumValue" = "Variable" \/ "EnumValue" = "EnumValue").
Proof.
  split; [reflexivity|]. split; [reflexivity|].
  apply (parseLiteral_names_first_unsupported Gallery.enum_in_list "EnumValue"
           initial_heap); reflexivity.
Defined.

Lemma parseLiteral_builds_nested_tree :
  names_field "__proto__" Gallery.nested_literal = false
  /\ decoded Gallery.nested_literal = Some Gallery.nested_tree
  /\ exists v h',
       parseLiteral Gallery.nested_literal initial_heap = (Normal v, h')
       /\ extends initial_heap h'
       /\ represents_within (dom h' ∖ dom initial_heap) h' v Gallery.nested_tree.
Proof.
  split; [reflexivity|]. split; [vm_compute; reflexivity|].
  apply (proj1 (parseLiteral_succeeds_exactly Gallery.nested_literal
                  initial_heap eq_refl)).
  vm_compute. reflexivity.
Defined.

(** ** A field named [__proto__] *)

Lemma resolve_proto_setter obj h :
  proto_setter_in_reach obj h ->
  resolve (chain_bound h) h obj "__proto__" = ProtoAccessor.
Proof.
  intros (Hobj & Hproto & Hown).
  apply elem_of_dom in Hobj as [o Hlookup].
  destruct (heap_not_empty _ _ _ Hlookup) as [n Hsize].
  unfold chain_bound. rewrite Hsize. cbn [resolve].
  destruct (Pos.eqb_spec obj Intrinsics.Object_prototype) as [->|Hne];
    [reflexivity|].
  cbn [andb]. rewrite Hown, (prototype_of_object _ _ Hne), Hproto. reflexivity.
Qed.

Lemma scalar_literal_run value h :
  scalar_literal value = true ->
  exists v,
    parseLiteral value h = (Normal v, h)
    /\ forall l h1, set_proto_accessor l v h1 = (Normal tt, h1).
Proof.
  destruct value; try discriminate; intros _; eexists; split; reflexivity.
Qed.

Lemma find_assign_own key name v props :
  key <> name ->
  List.find (fun kp => String.eqb (fst kp) key) (assign_own name v props) = None
  <-> List.find (fun kp => String.eqb (fst kp) key) props = None.
Proof.
  intros Hne. induction props as [|[k p] rest IH]; cbn [assign_own List.find fst].
  - apply String.eqb_neq in Hne. rewrite String.eqb_sym, Hne. reflexivity.
  - destruct (String.eqb k name) eqn:Hk; cbn [List.find fst].
    + apply String.eqb_eq in Hk. subst k.
      apply not_eq_sym, String.eqb_neq in Hne. now rewrite Hne.
    + destruct (String.eqb k key); [reflexivity|exact IH].
Qed.

(** A key that is no array index names a property of the list, in an
    array as in any other object. *)
Lemma own_property_named o key :
  array_index key = None ->
  own_property o key =
    snd <$> List.find (fun kp => String.eqb (fst kp) key) (obj_properties o).
Proof.
  intros Hindex. unfold own_property. rewrite Hindex.
  now destruct (obj_internal o).
Qed.

Lemma own_property_None o key :
  array_index key = None ->
  own_property o key = None
  <-> List.find (fun kp => String.eqb (fst kp) key) (obj_properties o) = None.
Proof.
  intros Hindex. rewrite (own_property_named _ _ Hindex).
  destruct (List.find _ (obj_properties o)); cbn; split; congruence.
Qed.

Lemma object_at_insert (h : heap) l o : object_at (<[l := o]> h) l = o.
Proof. unfold object_at. now rewrite lookup_insert_eq. Qed.

Lemma define_own_keeps_setter obj name v h :
  name <> "__proto__" ->
  proto_setter_in_reach obj h ->
  proto_setter_in_reach obj (snd (define_own obj name v h)).
Proof.
  intros Hname (Hobj & Hproto & Hown). unfold define_own. cbn [snd].
  split; [apply elem_of_dom; rewrite lookup_insert_eq; eauto|].
  rewrite object_at_insert. cbn [obj_prototype].
  split; [exact Hproto|].
  apply own_property_None; [reflexivity|]. cbn [obj_properties].
  apply find_assign_own; [congruence|]. now apply own_property_None.
Qed.

Lemma frame_keeps_setter obj h h' :
  extends h h' -> proto_setter_in_reach obj h -> proto_setter_in_reach obj h'.
Proof.
  intros Hext (Hobj & Hproto & Hown).
  assert (Hsame : object_at h' obj = object_at h obj)
    by (unfold object_at; now rewrite (Hext obj Hobj)).
  split; [now apply (extends_dom _ _ Hext)|]. now rewrite Hsame.
Qed.

Lemma without_field_cons name field rest :
  without_field name (field :: rest) =
    if String.eqb (field_name field) name then without_field name rest
    else field :: without_field name rest.
Proof.
  unfold without_field. cbn [List.filter].
  now destruct (String.eqb (field_name field) name).
Qed.

(** The loop over the fields, with and without the fields named
    [__proto__]. *)
Lemma assign_fields_drops_proto obj fields :
  proto_fields_scalar fields = true ->
  forall h,
    proto_setter_in_reach obj h ->
    assign_fields obj fields h
      = assign_fields obj (without_field "__proto__" fields) h
    /\ proto_setter_in_reach obj (snd (assign_fields obj fields h)).
Proof.
  induction fields as [|[name value] rest IH]; intros Hscalar h Hreach.
  - split; [reflexivity|exact Hreach].
  - cbn [proto_fields_scalar forallb field_name field_value] in Hscalar.
    apply andb_true_iff in Hscalar as [Hfield Hrest].
    specialize (IH Hrest).
    rewrite without_field_cons. cbn [field_name].
    rewrite assign_fields_cons.
    destruct (String.eqb name "__proto__") eqn:Hname.
    + apply String.eqb_eq in Hname. subst name.
      cbn [negb orb] in Hfield.
      destruct (scalar_literal_run value h Hfield) as (v & Hrun & Hignored).
      rewrite (bind_normal _ _ _ _ _ Hrun).
      rewrite (bind_normal _ _ h tt h).
      * now apply IH.
      * unfold Set_. rewrite bind_gets, (resolve_proto_setter _ _ Hreach).
        apply Hignored.
    + apply String.eqb_neq in Hname.
      rewrite assign_fields_cons.
      destruct (parseLiteral value h) as [[v|e] h1] eqn:Hrun;
        pose proof (frame_keeps_setter obj _ _
                      (parseLiteral_frame _ _ _ _ Hrun) Hreach) as Hreach1.
      * rewrite !(bind_normal _ _ _ _ _ Hrun).
        pose proof (define_own_keeps_setter obj name v h1 Hname Hreach1) as Hreach2.
        assert (Hset : Set_ obj name v h1
                       = (Normal tt, snd (define_own obj name v h1)))
          by (now rewrite (Set_ordinary_name _ _ _ _ Hname)).
        rewrite !(bind_normal _ _ _ _ _ Hset). now apply IH.
      * rewrite !(bind_throw _ _ _ _ _ Hrun). split; [reflexivity|exact Hreach1].
Qed.

(** X5. A field named [__proto__] whose value is a number, a string or a
    boolean leaves no trace: the assignment reaches the setter of
    [Object.prototype], which ignores such a value. When every field of
    that name is of this sort, the decoder does on the object literal
    exactly what it does on the literal without those fields, and the
    object it returns has no own property [__proto__] and still inherits
    from [Object.prototype]. *)
Theorem proto_field_with_scalar_dropped (fields : list ObjectFieldNode)
    (h : heap) :
  proto_fields_scalar fields = true ->
  parseLiteral (ObjectValue fields) h
    = parseLiteral (ObjectValue (without_field "__proto__" fields)) h
  /\ (forall l h',
        parseLiteral (ObjectValue fields) h = (Normal (VObject l), h') ->
        own_property (object_at h' l) "__proto__" = None
        /\ obj_prototype (object_at h' l) = Some Intrinsics.Object_prototype).
Proof.
  intros Hscalar.
  rewrite !parseLiteral_ObjectValue. unfold new_object.
  destruct (alloc_run (Object (Some Intrinsics.Object_prototype)
                              OrdinaryObject []) h) as (Halloc & _ & _).
  rewrite !(bind_normal _ _ _ _ _ Halloc).
  set (obj := fresh (dom h)) in *.
  set (h0 := <[obj := Object (Some Intrinsics.Object_prototype)
                             OrdinaryObject []]> h) in *.
  assert (Hreach : proto_setter_in_reach obj h0).
  { split; [apply elem_of_dom; unfold h0; rewrite lookup_insert_eq; eauto|].
    unfold h0. rewrite object_at_insert. split; reflexivity. }
  destruct (assign_fields_drops_proto obj fields Hscalar h0 Hreach)
    as [Hsame Hreach'].
  unfold bind at 1 2. rewrite <- Hsame. split; [reflexivity|].
  intros l h'. unfold bind.
  destruct (assign_fields obj fields h0) as [[[]|e] h1]; [|discriminate].
  intros [= <- <-]. destruct Hreach' as (_ & Hproto & Hown). now split.
Qed.

Lemma proto_fields_dropped :
  proto_fields_scalar Gallery.proto_fields = true
  /\ without_field "__proto__" Gallery.proto_fields
     = [ObjectField "a" (IntValue "1"); ObjectField "b" (BooleanValue true)]
  /\ parseLiteral (ObjectValue Gallery.proto_fields) initial_heap
     = parseLiteral
         (ObjectValue (without_field "__proto__" Gallery.proto_fields))
         initial_heap.
Proof.
  split; [reflexivity|]. split; [reflexivity|].
  apply (proto_field_with_scalar_dropped Gallery.proto_fields initial_heap).
  reflexivity.
Defined.

(** ** A field named [constructor] *)

Lemma insert_member_keys k name j members :
  k ∈ (fst <$> insert_member name j members)
  <-> k = name \/ k ∈ (fst <$> members).
Proof.
  induction members as [|[k' j'] rest IH]; cbn [insert_member fmap list_fmap fst].
  - rewrite elem_of_cons. reflexivity.
  - destruct (String.eqb k' name) eqn:Hk; cbn [fmap list_fmap fst].
    + apply String.eqb_eq in Hk. subst k'. rewrite !elem_of_cons. tauto.
    + rewrite !elem_of_cons, IH. tauto.
Qed.

Lemma decoded_fields_keys fields :
  forall members final k,
    decoded_fields fields members = Some final ->
    k ∈ (field_name <$> fields) \/ k ∈ (fst <$> members) ->
    k ∈ (fst <$> final).
Proof.
  induction fields as [|[name value] rest IH]; intros members final k Hdecoded Hk.
  - injection Hdecoded as <-. destruct Hk as [Hk|Hk]; [inversion Hk|exact Hk].
  - rewrite decoded_fields_cons in Hdecoded.
    destruct (decoded value) as [j|]; [|discriminate].
    apply (IH _ _ _ Hdecoded). rewrite insert_member_keys.
    cbn [fmap list_fmap field_name] in Hk. rewrite elem_of_cons in Hk. tauto.
Qed.

Lemma member_represented_keys L h props members :
  Forall2 (member_represented L h) props members ->
  fst <$> props = fst <$> members.
Proof.
  induction 1 as [|kp m ps ms (Hk & _) _ IH]; [reflexivity|].
  cbn [fmap list_fmap]. now rewrite Hk, IH.
Qed.

Lemma find_key (props : list (string * property)) key :
  key ∈ (fst <$> props) ->
  exists p, List.find (fun kp => String.eqb (fst kp) key) props = Some (key, p)
            /\ (key, p) ∈ props.
Proof.
  induction props as [|[k p] rest IH]; cbn [fmap list_fmap fst List.find];
    [intros Hin; inversion Hin|].
  destruct (String.eqb k key) eqn:Hk.
  - apply String.eqb_eq in Hk. subst k. intros _. exists p. split; [reflexivity|left].
  - intros [->|Hin]%elem_of_cons; [now rewrite String.eqb_refl in Hk|].
    destruct (IH Hin) as (q & Hfind & Hq). exists q. split; [exact Hfind|now right].
Qed.

(** A value that is a tree is a primitive of JSON or an object of the
    footprint. *)
Lemma represents_value L h v j :
  represents_within L h v j ->
  match v with
  | VObject l => l ∈ L
  | VNull | VBoolean _ | VNumber _ | VString _ => True
  | _ => False
  end.
Proof.
  destruct j as [|b|n|s|items|members]; cbn [represents_within];
    try (intros ->; exact I).
  - now intros (l & elements & -> & Hl & _).
  - now intros (l & props & -> & Hl & _).
Qed.

Lemma own_data_property h l key p :
  l ∈ dom h ->
  key <> "__proto__" ->
  own_property (object_at h l) key = Some p ->
  Get h l key = prop_value p.
Proof.
  intros Hl Hkey Hown. apply elem_of_dom in Hl as [o Hlookup].
  destruct (heap_not_empty _ _ _ Hlookup) as [n Hsize].
  unfold Get, chain_bound. rewrite Hsize. cbn [resolve].
  apply String.eqb_neq in Hkey. now rewrite Hkey, andb_false_r, Hown.
Qed.

(** X6. An object literal with a field named [constructor] decodes to an
    object that the validator rejects: the own property shadows the
    [constructor] that is inherited from [Object.prototype], and no value
    that a literal can give it is [Object] or [undefined]. So [serialize]
    and [parseValue] throw on what [parseLiteral] has returned. *)
Theorem constructor_field_rejected `{host : Host}
    (fields : list ObjectFieldNode) (h : heap) :
  Intrinsics.Object ∈ dom h ->
  names_field "__proto__" (ObjectValue fields) = false ->
  first_unsupported (ObjectValue fields) = None ->
  "constructor" ∈ (field_name <$> fields) ->
  exists l h',
    parseLiteral (ObjectValue fields) h = (Normal (VObject l), h')
    /\ foreign_constructor (Get h' l "constructor") = true
    /\ (forall depth, isJSONValue (S depth) (VObject l) h' = (Normal false, h'))
    /\ (forall depth, exists e h'',
          serialize depth (VObject l) h' = (Throw e, h'')
          /\ parseValue depth (VObject l) h' = (Throw e, h'')).
Proof.
  intros HObject Hnames Hsupported Hfield.
  pose proof (first_unsupported_decoded (ObjectValue fields)) as Htable.
  rewrite Hsupported in Htable. destruct Htable as [j Hdecoded].
  destruct (parseLiteral_builds_tree _ j h Hdecoded Hnames)
    as (v & h' & Hrun & Hext & Hrep).
  rewrite decoded_ObjectValue in Hdecoded.
  destruct (decoded_fields fields []) as [members|] eqn:Hmembers; [|discriminate].
  injection Hdecoded as <-.
  apply represents_object in Hrep as (l & props & -> & Hl & Hlookup & Hprops).
  exists l, h'. split; [exact Hrun|].
  assert (Hkey : "constructor" ∈ (fst <$> props)).
  { rewrite (member_represented_keys _ _ _ _ Hprops).
    apply (decoded_fields_keys fields [] members); auto. }
  destruct (find_key props "constructor" Hkey) as (p & Hfind & Hp).
  destruct (Forall2_elem _ _ _ _ Hprops Hp) as (m & _ & _ & _ & Hvalue).
  cbn [snd] in Hvalue. apply represents_value in Hvalue.
  assert (Hat : object_at h' l
                = Object (Some Intrinsics.Object_prototype) OrdinaryObject props)
    by (unfold object_at; now rewrite Hlookup).
  assert (Hget : Get h' l "constructor" = prop_value p).
  { apply own_data_property; [now apply fresh_part_in in Hl|discriminate|].
    unfold own_property. rewrite Hat. cbn [obj_properties]. now rewrite Hfind. }
  assert (Hforeign : foreign_constructor (Get h' l "constructor") = true).
  { rewrite Hget. unfold foreign_constructor.
    destruct (prop_value p) as [| | | | | | |l']; try reflexivity;
      try (now destruct Hvalue).
    cbn [strict_equals]. rewrite andb_true_r. apply negb_true_iff.
    apply Pos.eqb_neq. intros ->.
    now apply elem_of_difference in Hvalue as [_ Hnew]. }
  assert (Hfalse : forall depth,
            isJSONValue (S depth) (VObject l) h' = (Normal false, h')).
  { intros depth. apply isJSONValue_rejected_early. unfold rejected_early.
    rewrite Hforeign. unfold Array_isArray. rewrite Hat. cbn [obj_internal].
    now rewrite !orb_true_r. }
  split; [exact Hforeign|]. split; [exact Hfalse|].
  intros depth.
  assert (Hnot : ~ date_like h' (VObject l)).
  { unfold date_like, instanceof, chain_bound. cbn [in_prototype_chain].
    unfold prototype_of.
    destruct (Pos.eqb l Intrinsics.Object_prototype); [discriminate|].
    rewrite Hat. cbn [obj_prototype].
    replace (Pos.eqb Intrinsics.Object_prototype Intrinsics.Date_prototype)
      with false by reflexivity.
    rewrite chain_ends_at_Object_prototype. discriminate. }
  rewrite (serialize_not_date _ _ _ Hnot), (parseValue_not_date _ _ _ Hnot).
  destruct depth as [|depth]; [eexists _, _; split; reflexivity|].
  rewrite (Hfalse depth). cbn [ToBoolean].
  destruct (JS_String (VObject l) h') as [[rendered|e] h''];
    eexists _, _; split; reflexivity.
Qed.

Lemma constructor_fields_rejected :
  (Intrinsics.Object ∈ dom initial_heap)
  /\ names_field "__proto__" (ObjectValue Gallery.constructor_fields) = false
  /\ first_unsupported (ObjectValue Gallery.constructor_fields) = None
  /\ "constructor" ∈ (field_name <$> Gallery.constructor_fields)
  /\ exists l h',
       parseLiteral (ObjectValue Gallery.constructor_fields) initial_heap
         = (Normal (VObject l), h')
       /\ foreign_constructor (Get h' l "constructor") = true
       /\ (forall depth,
             @isJSONValue default_host (S depth) (VObject l) h'
               = (Normal false, h'))
       /\ (forall depth, exists e h'',
             @serialize default_host depth (VObject l) h' = (Throw e, h'')
             /\ @parseValue default_host depth (VObject l) h' = (Throw e, h'')).
Proof.
  assert (HObject : Intrinsics.Object ∈ dom initial_heap)
    by (apply elem_of_dom; vm_compute; eauto).
  assert (Hfield : "constructor" ∈ (field_name <$> Gallery.constructor_fields))
    by (cbn; right; left).
  split; [exact HObject|]. split; [reflexivity|]. split; [reflexivity|].
  split; [exact Hfield|].
  exact (@constructor_field_rejected default_host Gallery.constructor_fields
           initial_heap HObject eq_refl eq_refl Hfield).
Defined.

(** ** A field named [__proto__] that holds an object *)

Lemma heap_two_objects (h : heap) a b oa ob :
  h !! a = Some oa -> h !! b = Some ob -> a <> b ->
  exists n, size h = S (S n).
Proof.
  intros Ha Hb Hne.
  assert (Hb' : delete a h !! b = Some ob) by (now rewrite lookup_delete_ne).
  destruct (heap_not_empty _ _ _ Hb') as [n Hsize].
  rewrite map_size_delete_Some in Hsize by eauto.
  exists n. destruct (size h) as [|m] eqn:Hm; [|cbn in Hsize; congruence].
  apply map_size_empty_iff in Hm. subst h. now rewrite lookup_empty in Ha.
Qed.

Lemma heap_three_objects (h : heap) a b c oa ob oc :
  h !! a = Some oa -> h !! b = Some ob -> h !! c = Some oc ->
  a <> b -> a <> c -> b <> c ->
  exists n, size h = S (S (S n)).
Proof.
  intros Ha Hb Hc Hab Hac Hbc.
  assert (Hb' : delete a h !! b = Some ob) by (now rewrite lookup_delete_ne).
  assert (Hc' : delete a h !! c = Some oc) by (now rewrite lookup_delete_ne).
  destruct (heap_two_objects _ _ _ _ _ Hb' Hc' Hbc) as [n Hsize].
  rewrite map_size_delete_Some in Hsize by eauto.
  exists n. destruct (size h) as [|m] eqn:Hm; [|cbn in Hsize; congruence].
  apply map_size_empty_iff in Hm. subst h. now rewrite lookup_empty in Ha.
Qed.

Lemma resolve_step steps h l key :
  key <> "__proto__" ->
  l <> Intrinsics.Object_prototype ->
  resolve (S steps) h l key =
    match own_property (object_at h l) key with
    | Some p => DataProperty l p
    | None =>
        match obj_prototype (object_at h l) with
        | Some parent => resolve steps h parent key
        | None => Unresolved
        end
    end.
Proof.
  intros Hkey Hl. cbn [resolve]. apply String.eqb_neq in Hkey.
  now rewrite Hkey, andb_false_r, (prototype_of_object _ _ Hl).
Qed.

Lemma in_prototype_chain_step steps h l target :
  l <> Intrinsics.Object_prototype ->
  in_prototype_chain (S steps) h l target =
    match obj_prototype (object_at h l) with
    | None => false
    | Some p =>
        if Pos.eqb p target then true
        else in_prototype_chain steps h p target
    end.
Proof.
  intros Hl. cbn [in_prototype_chain]. now rewrite (prototype_of_object _ _ Hl).
Qed.

(** A heap that has the objects of a fresh realm as they were made. *)
Lemma intrinsics_kept h :
  extends initial_heap h ->
  realm_intact h
  /\ (forall l, l ∈ dom initial_heap -> l ∈ dom h)
  /\ exists o, h !! Intrinsics.Object_prototype = Some o.
Proof.
  intros Hext.
  assert (HinO : Intrinsics.Object_prototype ∈ dom initial_heap)
    by (apply elem_of_dom; vm_compute; eauto).
  split.
  { repeat split; apply Hext, elem_of_dom; vm_compute; eauto. }
  split; [apply (extends_dom _ _ Hext)|].
  rewrite (Hext _ HinO). vm_compute. eauto.
Qed.

(** X7. A field named [__proto__] that holds an object literal is not
    stored: the decoded inner object becomes the prototype of the result.
    In a realm whose intrinsic objects are untouched, the literal
    [{__proto__: {...}}] decodes to an object without any own property
    that inherits every member of the inner object, so that reading a
    member on the result gives the inner value; the validator accepts the
    result, and [serialize] and [parseValue] return it. *)
Theorem proto_field_with_object_becomes_prototype `{host : Host}
    (inner_fields : list ObjectFieldNode) (members : list (string * json))
    (h : heap) :
  extends initial_heap h ->
  decoded (ObjectValue inner_fields) = Some (JObject members) ->
  names_field "__proto__" (ObjectValue inner_fields) = false ->
  names_field "constructor" (ObjectValue inner_fields) = false ->
  exists l inner h',
    parseLiteral
      (ObjectValue [ObjectField "__proto__" (ObjectValue inner_fields)]) h
      = (Normal (VObject l), h')
    /\ obj_properties (object_at h' l) = []
    /\ obj_prototype (object_at h' l) = Some inner
    /\ represents_within (dom h' ∖ dom h) h' (VObject inner) (JObject members)
    /\ (forall key p,
          key <> "__proto__" ->
          own_property (object_at h' inner) key = Some p ->
          Get h' l key = prop_value p)
    /\ (forall depth,
          isJSONValue (S depth) (VObject l) h' = (Normal true, h')
          /\ serialize (S depth) (VObject l) h' = (Normal (VObject l), h')
          /\ parseValue (S depth) (VObject l) h' = (Normal (VObject l), h')).
Proof.
  intros Hintrinsics Hdecoded Hproto Hconstructor.
  destruct (intrinsics_kept h Hintrinsics) as (Hrealm & Hpresent & oP & HoP).
  (* the new object *)
  destruct (alloc_run (Object (Some Intrinsics.Object_prototype)
                              OrdinaryObject []) h) as (Halloc & Hfresh & Hext0).
  set (obj := fresh (dom h)) in *.
  set (h0 := <[obj := Object (Some Intrinsics.Object_prototype)
                             OrdinaryObject []]> h) in *.
  assert (Hobj0 : h0 !! obj = Some (Object (Some Intrinsics.Object_prototype)
                                           OrdinaryObject []))
    by (unfold h0; apply lookup_insert_eq).
  assert (Hold : forall l, l ∈ dom initial_heap -> l <> obj).
  { intros l Hl ->. now apply Hfresh, Hpresent. }
  (* the inner object *)
  destruct (parseLiteral_builds_tree _ _ h0 Hdecoded Hproto)
    as (v & h1 & Hrun & Hext1 & Hrep).
  apply represents_object in Hrep as (inner & props & -> & Hinner & Hlookup & Hprops).
  apply elem_of_difference in Hinner as [Hinner1 Hinner0].
  assert (Hobj_in0 : obj ∈ dom h0) by (apply elem_of_dom; eauto).
  assert (Hne : inner <> obj) by (intros ->; contradiction).
  assert (Hobj1 : h1 !! obj = Some (Object (Some Intrinsics.Object_prototype)
                                           OrdinaryObject []))
    by (now rewrite (Hext1 obj Hobj_in0)).
  assert (Hnew : forall l, l ∈ dom initial_heap -> l <> inner).
  { intros l Hl ->. apply Hinner0, (extends_dom _ _ Hext0), Hpresent, Hl. }
  assert (Hext01 : extends h h1) by (eapply extends_trans; eauto).
  (* the assignment reaches the setter, which accepts the object *)
  set (h2 := <[obj := Object (Some inner) OrdinaryObject []]> h1).
  assert (Hrealm1 : realm_intact h1) by now apply (extends_realm h).
  assert (HinnerOP : inner <> Intrinsics.Object_prototype).
  { apply not_eq_sym, Hnew, elem_of_dom. vm_compute. eauto. }
  assert (HisOP : forall target,
            target <> Intrinsics.Object_prototype ->
            forall (g : heap) steps,
              realm_intact g ->
              g !! inner = Some (Object (Some Intrinsics.Object_prototype)
                                        OrdinaryObject props) ->
              in_prototype_chain steps g inner target = false).
  { intros target Htarget g steps Hg Hat. destruct steps as [|steps]; [reflexivity|].
    rewrite in_prototype_chain_step by exact HinnerOP.
    unfold object_at. rewrite Hat.
    cbn [default from_option]. unfold id. cbn [obj_prototype].
    destruct (Pos.eqb_spec Intrinsics.Object_prototype target) as [Heq|_];
      [now destruct Htarget|].
    now apply chain_ends_at_Object_prototype. }
  assert (HobjOP : obj <> Intrinsics.Object_prototype).
  { apply not_eq_sym, Hold, elem_of_dom. vm_compute. eauto. }
  assert (Hset : Set_ obj "__proto__" (VObject inner) h1 = (Normal tt, h2)).
  { unfold Set_. rewrite bind_gets.
    rewrite resolve_proto_setter.
    - unfold set_proto_accessor. rewrite bind_gets.
      destruct (Pos.eqb_spec inner obj) as [Heq|_]; [contradiction|].
      rewrite (HisOP obj HobjOP h1 _ Hrealm1 Hlookup).
      cbn [orb]. unfold set_prototype, object_at. now rewrite Hobj1.
    - split; [apply elem_of_dom; eauto|].
      unfold object_at. rewrite Hobj1. split; reflexivity. }
  assert (Hrun_all :
            parseLiteral
              (ObjectValue [ObjectField "__proto__" (ObjectValue inner_fields)]) h
            = (Normal (VObject obj), h2)).
  { rewrite parseLiteral_ObjectValue. unfold new_object.
    rewrite (bind_normal _ _ _ _ _ Halloc).
    rewrite (bind_normal _ _ h0 tt h2); [reflexivity|].
    rewrite assign_fields_cons, (bind_normal _ _ _ _ _ Hrun).
    now rewrite (bind_normal _ _ _ _ _ Hset). }
  (* the heap that results *)
  assert (Hat_obj : object_at h2 obj = Object (Some inner) OrdinaryObject [])
    by (unfold h2; apply object_at_insert).
  assert (Hlookup2 : h2 !! inner = Some (Object (Some Intrinsics.Object_prototype)
                                                OrdinaryObject props))
    by (unfold h2; now rewrite lookup_insert_ne).
  assert (Hat_inner : object_at h2 inner
                      = Object (Some Intrinsics.Object_prototype)
                               OrdinaryObject props)
    by (unfold object_at; now rewrite Hlookup2).
  assert (Hrealm2 : realm_intact h2).
  { destruct Hrealm1 as (HO & HA & HE). unfold h2.
    repeat split; (rewrite lookup_insert_ne; [assumption|]);
      apply not_eq_sym, Hold, elem_of_dom; vm_compute; eauto. }
  assert (HoP2 : exists o, h2 !! Intrinsics.Object_prototype = Some o).
  { destruct Hrealm2 as [HO _]. rewrite HO. vm_compute. eauto. }
  destruct HoP2 as [oP2 HoP2].
  assert (Hlookup_obj : h2 !! obj = Some (Object (Some inner) OrdinaryObject []))
    by (unfold h2; apply lookup_insert_eq).
  destruct (heap_three_objects h2 obj inner Intrinsics.Object_prototype _ _ _
              Hlookup_obj Hlookup2 HoP2)
    as [n Hsize]; auto.
  exists obj, inner, h2. split; [exact Hrun_all|].
  split; [now rewrite Hat_obj|]. split; [now rewrite Hat_obj|].
  split.
  { apply represents_object. exists inner, props.
    split; [reflexivity|]. split; [|split; [exact Hlookup2|]].
    - apply elem_of_difference. split.
      + apply elem_of_dom. eauto.
      + intros Hin. apply Hinner0, (extends_dom _ _ Hext0), Hin.
    - eapply Forall2_impl; [exact Hprops|]. intros kp m Hkp.
      apply (member_represented_frame _ _ _ _ _ _ Hkp).
      + intros l [Hl1 Hl0]%elem_of_difference. apply elem_of_difference. split.
        * unfold h2. apply dom_insert_subseteq, Hl1.
        * intros Hin. apply Hl0, (extends_dom _ _ Hext0), Hin.
      + intros l [Hl1 Hl0]%elem_of_difference. unfold h2.
        apply lookup_insert_ne. intros <-. contradiction. }
  split.
  { intros key p Hkey Hown. unfold Get, chain_bound. rewrite Hsize.
    rewrite resolve_step, Hat_obj by assumption.
    unfold own_property at 1.
    cbn [obj_properties List.find fmap option_fmap option_map obj_prototype
         obj_internal].
    now rewrite resolve_step, Hown by assumption. }
  assert (Hctor : Get h2 obj "constructor" = VObject Intrinsics.Object).
  { assert (Hnone : List.find (fun kp => String.eqb (fst kp) "constructor") props
                     = None).
    { apply (members_without_name "constructor" props members _ h1 Hprops).
      rewrite <- json_names_object.
      apply (decoded_names "constructor" (ObjectValue inner_fields));
        assumption. }
    unfold Get, chain_bound. rewrite Hsize.
    rewrite resolve_step, Hat_obj by (assumption || discriminate).
    unfold own_property at 1.
    cbn [obj_properties List.find fmap option_fmap option_map obj_prototype
         obj_internal].
    rewrite resolve_step, Hat_inner by (assumption || discriminate).
    unfold own_property at 1. cbn [obj_properties obj_prototype obj_internal].
    rewrite Hnone. cbn [fmap option_fmap option_map resolve].
    rewrite (realm_Object_prototype _ Hrealm2). reflexivity. }
  assert (Hboxed : boxed_instance h2 (VObject obj) = false).
  { assert (Hchain : forall target,
              target ∈ dom initial_heap ->
              target <> Intrinsics.Object_prototype ->
              instanceof h2 (VObject obj) target = false).
    { intros target Htarget HtargetOP. unfold instanceof, chain_bound.
      rewrite Hsize, in_prototype_chain_step, Hat_obj by exact HobjOP.
      cbn [obj_prototype].
      destruct (Pos.eqb_spec inner target) as [Heq|_];
        [now destruct (Hnew target Htarget)|].
      now apply HisOP. }
    unfold boxed_instance.
    rewrite !Hchain; try discriminate; try (apply elem_of_dom; vm_compute; eauto).
    reflexivity. }
  assert (Hvalid : forall depth,
            isJSONValue (S depth) (VObject obj) h2 = (Normal true, h2)).
  { intros depth.
    rewrite (isJSONValue_children depth obj h2 []); [reflexivity| |exact I].
    unfold validated_children.
    rewrite Hboxed, Hctor, (realm_every_builtin _ Hrealm2).
    unfold typeof, Array_isArray, Object_values, array_elements.
    rewrite Hat_obj. reflexivity. }
  intros depth. split; [apply Hvalid|].
  split; [apply (serialize_valid _ _ _ true)
         |apply (parseValue_valid _ _ _ true)]; auto.
Qed.

(** [{__proto__: {admin: true}}]: the result has no property of its own,
    reads [admin] as [true], and validates. *)
Lemma admin_is_inherited :
  extends initial_heap initial_heap
  /\ decoded (ObjectValue Gallery.admin_fields)
     = Some (JObject [("admin", JBoolean true)])
  /\ exists l h',
       parseLiteral Gallery.admin_literal initial_heap = (Normal (VObject l), h')
       /\ obj_properties (object_at h' l) = []
       /\ Object_values h' l = []
       /\ Get h' l "admin" = VBoolean true
       /\ @isJSONValue default_host 1 (VObject l) h' = (Normal true, h')
       /\ @serialize default_host 1 (VObject l) h' = (Normal (VObject l), h').
Proof.
  split; [apply extends_refl|]. split; [reflexivity|].
  destruct (@proto_field_with_object_becomes_prototype default_host
              Gallery.admin_fields [("admin", JBoolean true)] initial_heap
              (extends_refl initial_heap) eq_refl eq_refl eq_refl)
    as (l & inner & h' & Hrun & Hempty & _ & _ & _ & Hvalid).
  destruct (Hvalid 0) as (Htrue & Hserialize & _).
  exists l, h'. split; [exact Hrun|]. split; [exact Hempty|].
  split; [|split; [|split; [exact Htrue|exact Hserialize]]].
  - unfold Gallery.admin_literal in Hrun. vm_compute in Hrun.
    injection Hrun as <- <-. vm_compute. reflexivity.
  - unfold Gallery.admin_literal in Hrun. vm_compute in Hrun.
    injection Hrun as <- <-. vm_compute. reflexivity.
Defined.

(** ** Integer literals *)

Lemma digit_value_pretty_N_char (d : N) :
  (d < 10)%N -> digit_value (pretty_N_char d) = Some d.
Proof.
  intros Hd.
  assert (Hcases : (d = 0 \/ d = 1 \/ d = 2 \/ d = 3 \/ d = 4 \/ d = 5 \/ d = 6
                    \/ d = 7 \/ d = 8 \/ d = 9)%N) by lia.
  repeat (destruct Hcases as [-> | Hcases]; [reflexivity|]). now subst.
Qed.

(** Reading the digits that [pretty_N_go] has written gives the number
    back. *)
Lemma decimal_value_pretty_N_go (x : N) :
  forall s, decimal_value 0 (pretty_N_go x s) = decimal_value x s.
Proof.
  induction x as [x IH] using (well_founded_induction N.lt_wf_0). intros s.
  destruct (N.eq_dec x 0%N) as [->|Hx]; [now rewrite pretty_N_go_0|].
  rewrite pretty_N_go_step by lia.
  rewrite IH by (apply N.div_lt; lia).
  cbn [decimal_value].
  rewrite digit_value_pretty_N_char by (apply N.mod_lt; lia).
  f_equal. symmetry. apply N.div_mod. lia.
Qed.

Lemma span_digits_pretty_N_go (x : N) :
  forall s, span_digits s = (s, "") ->
    span_digits (pretty_N_go x s) = (pretty_N_go x s, "").
Proof.
  induction x as [x IH] using (well_founded_induction N.lt_wf_0). intros s Hs.
  destruct (N.eq_dec x 0%N) as [->|Hx]; [now rewrite pretty_N_go_0|].
  rewrite pretty_N_go_step by lia.
  apply IH; [apply N.div_lt; lia|].
  cbn [span_digits].
  rewrite digit_value_pretty_N_char by (apply N.mod_lt; lia).
  now rewrite Hs.
Qed.

(** The numeral of a natural number: digits only, at least one, and they
    read as the number. *)
Lemma pretty_N_numeral (x : N) :
  span_digits (pretty x) = (pretty x, "")
  /\ Z_of_digits (pretty x) = Z.of_N x
  /\ pretty x <> "".
Proof.
  unfold pretty, pretty_N, Z_of_digits.
  destruct (decide (x = 0%N)) as [->|Hx]; [now repeat split|].
  pose proof (decimal_value_pretty_N_go x "") as Hvalue.
  cbn [decimal_value] in Hvalue.
  split; [now apply span_digits_pretty_N_go|].
  split; [now rewrite Hvalue|].
  intros Hempty. rewrite Hempty in Hvalue. cbn [decimal_value] in Hvalue.
  congruence.
Qed.

(** A digit is no white space and no sign. *)
Lemma digit_starts_number c d rest :
  digit_value c = Some d ->
  trim_start (String c rest) = String c rest
  /\ strip_sign (String c rest) = (false, String c rest).
Proof.
  destruct c as [[] [] [] [] [] [] [] []]; try discriminate; intros _;
    split; reflexivity.
Qed.

Lemma parseInt_numeral (digits : string) :
  span_digits digits = (digits, "") ->
  digits <> "" ->
  parseInt digits = binary_normalize prec emax (Z_of_digits digits) 0 false
  /\ parseInt ("-" ++ digits)
     = binary_normalize prec emax (- Z_of_digits digits) 0 true.
Proof.
  intros Hspan Hdigits. destruct digits as [|c rest]; [congruence|].
  assert (Hdigit : exists d, digit_value c = Some d).
  { cbn [span_digits] in Hspan. destruct (digit_value c) as [d|]; [now exists d|].
    discriminate. }
  destruct Hdigit as [d Hd].
  destruct (digit_starts_number c d rest Hd) as [Htrim Hsign].
  split.
  - unfold parseInt. rewrite Htrim, Hsign. cbv beta iota.
    now rewrite Hspan.
  - unfold parseInt.
    change (trim_start ("-" ++ String c rest)) with ("-" ++ String c rest).
    change (strip_sign ("-" ++ String c rest)) with (true, String c rest).
    cbv beta iota. now rewrite Hspan.
Qed.

(** X8. An integer literal, whatever its size, decodes to the Number
    of the integer it denotes: the numeral of [z], as the lexer of
    GraphQL delivers it, gives the binary64 value of [z], rounded when
    [z] does not fit in 53 bits, and the heap is not touched. No range is
    checked: a literal beyond 32 bits, or beyond 53, is taken as it comes.
    ([parseInt] here rounds the integer that the digits denote, to
    nearest; ECMA-262 lets an implementation replace the digits after the
    twentieth by zeros first.) *)
Theorem parseLiteral_integer_numeral (z : Z) (h : heap) :
  parseLiteral (IntValue (pretty z)) h = (Normal (VNumber (number_of_Z z)), h).
Proof.
  cbn [parseLiteral]. unfold ret. do 3 f_equal.
  unfold number_of_Z, pretty, pretty_Z.
  destruct z as [|p|p]; [reflexivity| |].
  - destruct (pretty_N_numeral (N.pos p)) as (Hspan & Hvalue & Hdigits).
    destruct (parseInt_numeral _ Hspan Hdigits) as [Hparse _].
    unfold pretty at 1, pretty_positive. rewrite Hparse, Hvalue. reflexivity.
  - destruct (pretty_N_numeral (N.pos p)) as (Hspan & Hvalue & Hdigits).
    destruct (parseInt_numeral _ Hspan Hdigits) as [_ Hparse].
    unfold pretty at 1, pretty_positive.
    change (parseInt ("-" ++ pretty (N.pos p))
            = binary_normalize prec emax (Z.neg p) 0 false).
    rewrite Hparse, Hvalue. reflexivity.
Qed.

(** Beyond 53 bits two literals can decode to one Number. *)
Example parseLiteral_integer_rounds :
  parseLiteral (IntValue "9007199254740993") initial_heap
  = parseLiteral (IntValue "9007199254740992") initial_heap.
Proof. vm_compute. reflexivity. Qed.

(** * The runs of the decoder end *)

(** The size of the heap after a run is within the budget. *)
Ltac within_budget :=
  unfold bounded, ret, throw in *;
  cbn [fst snd decode_values assign_fields parseLiteral
       containers_of_values containers_of_fields containers] in *;
  unfold ret, throw in *; cbn [fst snd] in *;
  split; [lia|try exact I; try assumption].

Lemma insert_existing_size (h : heap) l o :
  l ∈ dom h -> size (<[l := o]> h) = size h.
Proof.
  intros Hl%elem_of_dom. now apply map_size_insert_Some.
Qed.

(** An assignment to an object of the heap makes no object, and throws
    nothing but the TypeError of a cyclic prototype chain. *)
Lemma Set_bounded l key v h :
  l ∈ dom h -> bounded 0 h (Set_ l key v h).
Proof.
  intros Hl.
  assert (Hwrite : forall o c,
            bounded 0 h (@Normal unit c, <[l := o]> h)).
  { intros o c. split; [|exact I]. cbn [snd].
    rewrite insert_existing_size by exact Hl. lia. }
  assert (Hsame : forall c : unit, bounded 0 h (Normal c, h)).
  { intros c. split; [cbn [snd]; lia|exact I]. }
  unfold Set_. rewrite bind_gets.
  destruct (resolve (chain_bound h) h l key) as [holder p| |].
  - apply Hwrite.
  - unfold set_proto_accessor.
    destruct v as [| | | | | | |parent]; try apply Hsame.
    + apply Hwrite.
    + rewrite bind_gets.
      destruct (Pos.eqb parent l || in_prototype_chain (chain_bound h) h parent l).
      * split; [cbn; lia|]. now right.
      * apply Hwrite.
  - apply Hwrite.
Qed.

Lemma decode_values_bounded values :
  Forall bounded_run values ->
  forall h, bounded (containers_of_values values) h (decode_values values h).
Proof.
  induction 1 as [|val rest Hval _ IH]; intros h.
  - within_budget.
  - rewrite decode_values_cons. cbn [containers_of_values].
    destruct (Hval h) as [Hsize1 Hthrow1]. unfold bind at 1.
    destruct (parseLiteral val h) as [[v|e] h1]; cbn [fst snd] in *.
    + destruct (IH h1) as [Hsize2 Hthrow2]. unfold bind.
      destruct (decode_values rest h1) as [[items|e] h2]; cbn [fst snd] in *;
        within_budget.
    + within_budget.
Qed.

Lemma assign_fields_bounded obj fields :
  Forall (fun field => match field with
                       | ObjectField _ value => bounded_run value
                       end) fields ->
  forall h, obj ∈ dom h ->
    bounded (containers_of_fields fields) h (assign_fields obj fields h).
Proof.
  induction 1 as [|[name value] rest Hvalue _ IH]; intros h Hobj.
  - within_budget.
  - rewrite assign_fields_cons. cbn [containers_of_fields].
    destruct (Hvalue h) as [Hsize1 Hthrow1]. unfold bind at 1.
    destruct (parseLiteral value h) as [[v|e] h1] eqn:Hrun; cbn [fst snd] in *.
    + assert (Hobj1 : obj ∈ dom h1).
      { apply (extends_dom h); [|exact Hobj].
        now apply (parseLiteral_frame value h _ h1 Hrun). }
      destruct (Set_bounded obj name v h1 Hobj1) as [Hsize2 Hthrow2].
      unfold bind.
      destruct (Set_ obj name v h1) as [[[]|e] h2] eqn:Hset; cbn [fst snd] in *.
      * assert (Hobj2 : obj ∈ dom h2).
        { destruct (Set_frame _ _ _ _ _ _ Hset) as [_ Hdom]. now apply Hdom. }
        destruct (IH h2 Hobj2) as [Hsize3 Hthrow3].
        within_budget.
      * within_budget.
    + within_budget.
Qed.

Lemma containers_ListValue values :
  containers (ListValue values) = S (containers_of_values values).
Proof. reflexivity. Qed.

Lemma containers_ObjectValue fields :
  containers (ObjectValue fields) = S (containers_of_fields fields).
Proof. reflexivity. Qed.

(** Every run of the decoder ends, with a value or with one of its two
    exceptions, and has made at most one object for each list or object
    node of the literal. *)
Lemma parseLiteral_bounded ast : bounded_run ast.
Proof.
  induction ast as [name|value|value|value|value| |value|values IH|fields IH]
    using ValueNode_nested_ind; intros h;
    try (within_budget).
  - left. exists "Variable". auto.
  - left. exists "EnumValue". auto.
  - rewrite parseLiteral_ListValue, containers_ListValue.
    destruct (decode_values_bounded values IH h) as [Hsize Hthrow].
    unfold bind at 1.
    destruct (decode_values values h) as [[items|e] h1]; cbn [fst snd] in *.
    + unfold new_array, alloc, bind, ret, bounded. cbn [fst snd].
      split; [|exact I].
      rewrite map_size_insert_None; [lia|].
      apply not_elem_of_dom, is_fresh.
    + within_budget.
  - rewrite parseLiteral_ObjectValue, containers_ObjectValue.
    unfold new_object, alloc. unfold bind at 1.
    set (obj := fresh (dom h)).
    set (h0 := <[obj := Object (Some Intrinsics.Object_prototype)
                               OrdinaryObject []]> h).
    assert (Hsize0 : size h0 = S (size h)).
    { unfold h0. apply map_size_insert_None, not_elem_of_dom, is_fresh. }
    assert (Hobj : obj ∈ dom h0).
    { unfold h0. apply elem_of_dom. rewrite lookup_insert_eq. eauto. }
    destruct (assign_fields_bounded obj fields IH h0 Hobj) as [Hsize Hthrow].
    unfold bind.
    destruct (assign_fields obj fields h0) as [[[]|e] h1]; cbn [fst snd] in *;
      within_budget.
Qed.

(** C9, as amended. The validator is total on every input of finite
    nesting depth whose arrays have the built-in [every], the values
    being built from data properties: with as many call frames as the
    depth it returns a boolean, throws nothing and leaves the heap as it
    was, and more frames give the same answer. The decoder recurses on
    the sub-nodes of its argument only: every run on a literal ends, in a
    value or in one of the two TypeErrors of the decoder, and it has made
    at most one object for each list or object node of the literal. *)
Theorem validator_and_decoder_total `{host : Host} :
  (forall depth h v,
     every_builtin_below h v ->
     nesting_within depth h v = true ->
     exists b : bool, forall depth', depth <= depth' ->
       isJSONValue depth' v h = (Normal b, h))
  /\ (forall ast h, exists completion h',
        parseLiteral ast h = (completion, h')
        /\ size h' <= size h + containers ast
        /\ match completion with
           | Normal _ => True
           | Throw e => decoder_exception e
           end).
Proof.
  split.
  - intros depth h v Hbelow Hdepth.
    destruct (isJSONValue_answers _ _ _ Hbelow Hdepth) as [b Hrun].
    exists b. intros depth' Hle. eapply isJSONValue_mono; eauto.
  - intros ast h. destruct (parseLiteral_bounded ast h) as [Hsize Hthrow].
    destruct (parseLiteral ast h) as [completion h'] eqn:Hrun.
    now exists completion, h'.
Qed.

Lemma validator_total_nested :
  every_builtin_below example_heap (VObject nested)
  /\ nesting_within 5 example_heap (VObject nested) = true
  /\ exists b : bool, forall depth, 5 <= depth ->
       @isJSONValue default_host depth (VObject nested) example_heap
         = (Normal b, example_heap).
Proof.
  assert (Hbelow : every_builtin_below example_heap (VObject nested))
    by (apply (every_builtin_within_below 5); vm_compute; reflexivity).
  split; [exact Hbelow|]. split; [vm_compute; reflexivity|].
  apply (proj1 (@validator_and_decoder_total default_host) 5 example_heap
           (VObject nested) Hbelow).
  vm_compute. reflexivity.
Defined.

(** C9, as stated, fails on the array [a] with [a.every = 1]: the value
    has nesting depth 1 and the validator, which finds no function under
    [every], throws a TypeError, whatever the number of call frames. *)
Lemma validator_throws_without_every :
  nesting_within 2 example_heap (VObject shadowed) = true
  /\ array_elements example_heap shadowed = [Some one]
  /\ Get example_heap shadowed "every" = one
  /\ forall (host : Host) depth,
       isJSONValue (S depth) (VObject shadowed) example_heap
         = (Throw (TypeError "value.every is not a function"), example_heap).
Proof.
  split; [vm_compute; reflexivity|]. split; [vm_compute; reflexivity|].
  split; [vm_compute; reflexivity|].
  intros host depth. rewrite isJSONValue_object. vm_compute. reflexivity.
Qed.

(** * Further properties of the validator and the converters *)

(** ** What the validator looks at *)

Lemma children_not_date h l children :
  validated_children h l = Some children -> ~ date_like h (VObject l).
Proof.
  unfold validated_children, boxed_instance, date_like.
  destruct (String.eqb (typeof h (VObject l)) "function"); [discriminate|].
  destruct (instanceof h (VObject l) Intrinsics.Date_prototype);
    [discriminate|]. discriminate.
Qed.

(** On a value of the domain the validator answers [true] or runs out of
    stack, whatever the number of call frames. *)
Lemma domain_true_or_overflow `{host : Host} depth h v :
  JsonValueDomain h v -> every_builtin_below h v ->
  isJSONValue depth v h = (Normal true, h)
  \/ isJSONValue depth v h = (Throw stack_overflow, h).
Proof.
  intros Hdomain Hbelow.
  destruct (isJSONValue_settled depth v h Hbelow) as [Hrun|[Hrun|Hrun]]; auto.
  now destruct (isJSONValue_false_domain _ _ _ _ _ Hbelow Hrun).
Qed.

(** X9. On a value whose arrays have the built-in [every], the values
    being built from data properties, the validator raises no error of
    its own. A run that does not end in a boolean ends in the RangeError
    of the exhausted call stack, with the heap as it was, and only on a
    value whose nesting is deeper than the stack. *)
Theorem isJSONValue_throws_only_stack_overflow `{host : Host} (depth : nat)
    (v : value) (h : heap) (e : exn) (h' : heap) :
  every_builtin_below h v ->
  isJSONValue depth v h = (Throw e, h') ->
  e = stack_overflow /\ h' = h /\ nesting_within depth h v = false.
Proof.
  intros Hbelow Hrun.
  destruct (isJSONValue_settled depth v h Hbelow) as [H|[H|H]];
    rewrite H in Hrun; try discriminate. injection Hrun as <- <-.
  split; [reflexivity|]. split; [reflexivity|].
  destruct (nesting_within depth h v) eqn:Hfinite; [|reflexivity].
  destruct (isJSONValue_answers _ _ _ Hbelow Hfinite) as [b Hanswer]. congruence.
Qed.

(** The loop reaches an item on which the validator runs out of stack
    when the items before it are in the domain. *)
Lemma every_present_reaches_overflow `{host : Host} depth before self after h :
  (forall item, item ∈ present_elements before ->
     JsonValueDomain h item /\ every_builtin_below h item) ->
  isJSONValue depth self h = (Throw stack_overflow, h) ->
  every_present (isJSONValue depth) (before ++ Some self :: after)%list h
    = (Throw stack_overflow, h)
  /\ stable (isJSONValue depth) (before ++ Some self :: after)%list h.
Proof.
  intros Hbefore Hself.
  induction before as [|[item|] rest IH]; cbn [app every_present stable].
  - rewrite (bind_throw _ _ _ _ _ Hself). split; [reflexivity|].
    intros r h' Hrun. congruence.
  - assert (Hrest : forall x, x ∈ present_elements rest ->
                      JsonValueDomain h x /\ every_builtin_below h x).
    { intros x Hx. apply Hbefore. cbn. now right. }
    destruct (IH Hrest) as [Hloop Hstable].
    destruct (Hbefore item) as [Hdomain Hbelow]; [cbn; left|].
    destruct (domain_true_or_overflow depth h item Hdomain Hbelow) as [Hrun|Hrun].
    + rewrite (bind_normal _ _ _ _ _ Hrun). split; [exact Hloop|].
      intros r h' Hr _. rewrite Hrun in Hr. injection Hr as <- <-. now split.
    + rewrite (bind_throw _ _ _ _ _ Hrun). split; [reflexivity|].
      intros r h' Hr. congruence.
  - now apply IH.
Qed.

(** X10. There is no cycle detection. On an array that has the built-in
    [every] and holds itself, or a plain object one of whose values is
    the object itself, the validator exhausts every stack, when the
    values it meets before the self-reference are in the domain and have
    the built-in [every] in their arrays: it returns no boolean, and
    [serialize] and [parseValue] end in that RangeError, not in their
    TypeError. *)
Theorem self_containing_value_overflows `{host : Host} (h : heap) (l : loc)
    (before after : list (option value)) :
  validated_children h l = Some (before ++ Some (VObject l) :: after)%list ->
  (forall item, item ∈ present_elements before ->
     JsonValueDomain h item /\ every_builtin_below h item) ->
  forall depth,
    isJSONValue depth (VObject l) h = (Throw stack_overflow, h)
    /\ serialize depth (VObject l) h = (Throw stack_overflow, h)
    /\ parseValue depth (VObject l) h = (Throw stack_overflow, h).
Proof.
  intros Hchildren Hbefore depth.
  assert (Hrun : isJSONValue depth (VObject l) h = (Throw stack_overflow, h)).
  { induction depth as [|depth IH]; [reflexivity|].
    destruct (every_present_reaches_overflow depth before (VObject l) after h
                Hbefore IH) as [Hloop Hstable].
    now rewrite (isJSONValue_children _ _ _ _ Hchildren Hstable). }
  pose proof (children_not_date _ _ _ Hchildren) as Hdate.
  split; [exact Hrun|].
  rewrite (serialize_not_date _ _ _ Hdate), (parseValue_not_date _ _ _ Hdate).
  rewrite Hrun. split; reflexivity.
Qed.

(** X11. The built-in [every] stops at the first element that is
    rejected: when the values before it are accepted, the container is
    rejected whatever follows, be it a value on which the validator would
    not return. The converters then throw their TypeError, with the
    rendering that [String(value)] returns. *)
Theorem validator_stops_at_first_rejected `{host : Host} (depth : nat)
    (h : heap) (l : loc) (before : list (option value)) (bad : value)
    (after : list (option value)) :
  validated_children h l = Some (before ++ Some bad :: after)%list ->
  (forall item, item ∈ present_elements before ->
     isJSONValue depth item h = (Normal true, h)) ->
  isJSONValue depth bad h = (Normal false, h) ->
  isJSONValue (S depth) (VObject l) h = (Normal false, h)
  /\ (forall rendered h',
        JS_String (VObject l) h = (Normal rendered, h') ->
        serialize (S depth) (VObject l) h
          = (Throw (TypeError (cannot_represent rendered)), h')
        /\ parseValue (S depth) (VObject l) h
          = (Throw (TypeError (cannot_represent rendered)), h')).
Proof.
  intros Hchildren Hbefore Hbad.
  assert (Hrun : isJSONValue (S depth) (VObject l) h = (Normal false, h)).
  { rewrite (isJSONValue_children _ _ _ _ Hchildren).
    - now apply every_present_stops.
    - now apply stable_stops. }
  pose proof (children_not_date _ _ _ Hchildren) as Hdate.
  split; [exact Hrun|]. intros rendered h' Hrendered.
  rewrite (serialize_not_date _ _ _ Hdate), (parseValue_not_date _ _ _ Hdate).
  rewrite Hrun. cbn [ToBoolean]. rewrite Hrendered. split; reflexivity.
Qed.

(** X12. A date is converted at the top level only. An array or a plain
    object of finite nesting depth that holds a date-like value, at any
    position, is rejected by the validator when its arrays have the
    built-in [every], and the converters throw their TypeError on it,
    with the rendering that [String(value)] returns, instead of
    converting the date inside. *)
Theorem nested_date_rejected `{host : Host} (depth : nat) (h : heap) (l : loc)
    (children : list (option value)) (d : value) :
  validated_children h l = Some children ->
  d ∈ present_elements children ->
  date_like h d ->
  every_builtin_below h (VObject l) ->
  nesting_within (S depth) h (VObject l) = true ->
  isJSONValue (S depth) (VObject l) h = (Normal false, h)
  /\ (forall rendered h',
        JS_String (VObject l) h = (Normal rendered, h') ->
        serialize (S depth) (VObject l) h
          = (Throw (TypeError (cannot_represent rendered)), h')
        /\ parseValue (S depth) (VObject l) h
          = (Throw (TypeError (cannot_represent rendered)), h')).
Proof.
  intros Hchildren Hd Hdate Hbelow Hfinite.
  cbn [nesting_within] in Hfinite. rewrite forallb_forall in Hfinite.
  destruct (isJSONValue_loop depth _ _ _ Hbelow Hchildren) as [Hloop Hitems].
  assert (Hinner : forall item, item ∈ present_elements children ->
                     nesting_within depth h item = true).
  { intros item Hitem. apply Hfinite, list_elem_of_In.
    now rewrite <- (children_contents _ _ _ Hchildren). }
  assert (Hrun : isJSONValue (S depth) (VObject l) h = (Normal false, h)).
  { rewrite Hloop. apply (every_present_any _ _ _ d).
    - intros item Hitem.
      apply isJSONValue_answers; [now apply Hitems|now apply Hinner].
    - exact Hd.
    - specialize (Hinner d Hd). destruct depth as [|depth]; [discriminate|].
      apply isJSONValue_rejects. tauto. }
  pose proof (children_not_date _ _ _ Hchildren) as Hnot.
  split; [exact Hrun|]. intros rendered h' Hrendered.
  rewrite (serialize_not_date _ _ _ Hnot), (parseValue_not_date _ _ _ Hnot).
  rewrite Hrun. cbn [ToBoolean]. rewrite Hrendered. split; reflexivity.
Qed.

(** ** Holes *)

(** The key of an index begins with a digit, so it is none of the names
    that the prototypes of the realm hold. *)
Lemma index_key_digit k :
  exists c rest d, index_key k = String c rest /\ digit_value c = Some d.
Proof.
  unfold index_key.
  destruct (pretty_N_numeral (N.of_nat k)) as (Hspan & _ & Hnonempty).
  destruct (pretty (N.of_nat k)) as [|c rest]; [now destruct Hnonempty|].
  cbn [span_digits] in Hspan.
  destruct (digit_value c) as [d|] eqn:Hdigit; [now exists c, rest, d|].
  discriminate.
Qed.

Lemma digit_is_no_letter c d :
  digit_value c = Some d ->
  Ascii.eqb "c" c = false /\ Ascii.eqb "e" c = false /\ Ascii.eqb c "_" = false.
Proof.
  destruct c as [[] [] [] [] [] [] [] []]; try discriminate; intros _;
    repeat split; reflexivity.
Qed.

(** In an intact realm no index is inherited from [Array.prototype]. *)
Lemma realm_no_inherited_index h steps k :
  realm_intact h ->
  resolve steps h Intrinsics.Array_prototype (index_key k) = Unresolved.
Proof.
  intros Hrealm.
  destruct (index_key_digit k) as (c & rest & d & -> & Hdigit).
  destruct (digit_is_no_letter _ _ Hdigit) as (Hc & He & Hu).
  destruct steps as [|steps]; [reflexivity|]. cbn [resolve].
  rewrite (realm_Array_prototype _ Hrealm).
  replace (Pos.eqb Intrinsics.Array_prototype Intrinsics.Object_prototype)
    with false by reflexivity.
  cbn [andb].
  assert (Hown : own_property
                   (prototype_with_method (ArrayObject [])
                      (Some Intrinsics.Object_prototype) Intrinsics.Array
                      "every" Intrinsics.every) (String c rest) = None).
  { unfold own_property, prototype_with_method. cbn [obj_internal obj_properties].
    destruct (array_index (String c rest)); [now rewrite lookup_nil|].
    cbn [List.find fst String.eqb]. now rewrite Hc, He. }
  rewrite Hown. rewrite prototype_of_object by discriminate.
  rewrite (realm_Array_prototype _ Hrealm). cbn [obj_prototype prototype_with_method].
  destruct steps as [|steps]; [reflexivity|]. cbn [resolve].
  rewrite (realm_Object_prototype _ Hrealm).
  cbn [String.eqb]. rewrite Hu, andb_false_r.
  unfold own_property, prototype_object. cbn [obj_internal obj_properties].
  cbn [List.find fst String.eqb]. now rewrite Hc.
Qed.

(** So the loop visits the elements of an array of [Array.prototype],
    and skips its holes. *)
Lemma realm_array_items h l :
  realm_intact h ->
  prototype_of h l = Some Intrinsics.Array_prototype ->
  array_items h l = array_elements h l.
Proof.
  intros Hrealm Hproto. unfold array_items.
  apply list_eq. intros i. rewrite list_lookup_fmap.
  destruct (array_elements h l !! i) as [element|] eqn:Helement; simpl.
  - rewrite lookup_seq_lt by (eapply lookup_lt_Some; eauto). simpl.
    unfold array_item. rewrite Helement, Hproto.
    destruct element as [item|]; [reflexivity|].
    now rewrite (realm_no_inherited_index _ _ _ Hrealm).
  - rewrite lookup_seq_ge; [reflexivity|]. now apply lookup_ge_None.
Qed.

Lemma every_present_skips_holes (f : value -> M value) items h :
  every_present f items h = every f (present_elements items) h.
Proof.
  revert h. unfold every.
  induction items as [|[item|] rest IH]; intros h;
    cbn [present_elements omap list_omap id fmap list_fmap every_present].
  - reflexivity.
  - unfold bind. destruct (f item h) as [[r|e] h1]; [|reflexivity].
    destruct (ToBoolean r); [apply IH|reflexivity].
  - apply IH.
Qed.

(** X13. The built-in [every] skips a hole unless a prototype of the
    array has a property under the index of the hole. In an intact realm,
    on an array whose prototype is [Array.prototype] and that has the
    built-in [every], the loop visits the elements that are present and
    nothing else: when the validator leaves the heap as it is on them,
    the verdict is the one of the loop over these elements, so that two
    such arrays with the same elements in the same order, holes apart,
    get the same verdict, and an array that has nothing but holes is
    accepted and returned by the converters as it is. *)
Theorem holes_are_not_validated `{host : Host} (h : heap) (l : loc) :
  realm_intact h ->
  Array_isArray h (VObject l) = true ->
  prototype_of h l = Some Intrinsics.Array_prototype ->
  every_builtin h l = true ->
  array_items h l = array_elements h l
  /\ (forall depth,
        (forall item, item ∈ present_elements (array_elements h l) ->
           every_builtin_below h item) ->
        isJSONValue (S depth) (VObject l) h
          = every (isJSONValue depth) (present_elements (array_elements h l)) h)
  /\ (present_elements (array_elements h l) = [] ->
      forall depth,
        isJSONValue (S depth) (VObject l) h = (Normal true, h)
        /\ serialize (S depth) (VObject l) h = (Normal (VObject l), h)
        /\ parseValue (S depth) (VObject l) h = (Normal (VObject l), h)).
Proof.
  intros Hrealm Harray Hproto Hbuiltin.
  pose proof (realm_array_items _ _ Hrealm Hproto) as Hitems.
  assert (Hboxed : boxed_instance h (VObject l) = false).
  { destruct (h !! l) as [o|] eqn:Hlookup.
    - apply (plain_not_boxed h l o Hrealm Hlookup). right.
      unfold prototype_of in Hproto.
      destruct (Pos.eqb l Intrinsics.Object_prototype); [discriminate|].
      now rewrite (object_at_lookup _ _ _ Hlookup) in Hproto.
    - unfold Array_isArray, object_at in Harray. rewrite Hlookup in Harray.
      discriminate. }
  assert (Hchildren : validated_children h l = Some (array_items h l)).
  { unfold validated_children.
    rewrite (typeof_object_not_function _ _ (array_typeof _ _ Harray)).
    now rewrite Hboxed, Harray, Hbuiltin. }
  split; [exact Hitems|]. split.
  - intros depth Hbelow.
    rewrite (isJSONValue_children _ _ _ _ Hchildren).
    + now rewrite every_present_skips_holes, Hitems.
    + apply settled_stable. intros item Hitem. rewrite Hitems in Hitem.
      now apply isJSONValue_settled, Hbelow.
  - intros Hempty depth.
    assert (Hrun : isJSONValue (S depth) (VObject l) h = (Normal true, h)).
    { rewrite (isJSONValue_children _ _ _ _ Hchildren).
      - rewrite every_present_skips_holes, Hitems, Hempty. reflexivity.
      - apply stable_all. intros item Hitem. rewrite Hitems, Hempty in Hitem.
        inversion Hitem. }
    split; [exact Hrun|].
    split; [now apply (serialize_valid _ _ _ true)
           |now apply (parseValue_valid _ _ _ true)].
Qed.

(** ** Properties that are not validated *)

Lemma Object_values_enumerable h l x :
  Array_isArray h (VObject l) = false ->
  x ∈ Object_values h l ->
  exists k p, (k, p) ∈ obj_properties (object_at h l)
              /\ prop_enumerable p = true /\ x = prop_value p.
Proof.
  unfold Array_isArray, Object_values, array_elements. intros Harray.
  replace (present_elements
             match obj_internal (object_at h l) with
             | ArrayObject elements => elements
             | _ => []
             end) with (@nil value)
    by (now destruct (obj_internal (object_at h l))).
  cbn [app]. intros (p & -> & Hp)%list_elem_of_fmap.
  apply list_elem_of_In, List.filter_In in Hp as [Hp Henumerable].
  apply list_elem_of_In, ordered_properties_elem in Hp as [k Hk].
  now exists k, p.
Qed.

(** X14. Of an object that is not an array the validator validates the
    values of the own enumerable properties and nothing else: when these
    are accepted the object is accepted and the converters return it,
    whatever its non-enumerable properties and the properties that it
    inherits hold, [constructor] apart. *)
Theorem only_own_enumerable_values_validated `{host : Host} (depth : nat)
    (h : heap) (l : loc) (children : list (option value)) :
  validated_children h l = Some children ->
  Array_isArray h (VObject l) = false ->
  (forall k p,
     (k, p) ∈ obj_properties (object_at h l) ->
     prop_enumerable p = true ->
     isJSONValue depth (prop_value p) h = (Normal true, h)) ->
  isJSONValue (S depth) (VObject l) h = (Normal true, h)
  /\ serialize (S depth) (VObject l) h = (Normal (VObject l), h)
  /\ parseValue (S depth) (VObject l) h = (Normal (VObject l), h).
Proof.
  intros Hchildren Harray Hvalues.
  assert (Hall : forall item, item ∈ present_elements children ->
                   isJSONValue depth item h = (Normal true, h)).
  { intros item Hitem.
    rewrite (children_contents _ _ _ Hchildren) in Hitem.
    unfold contents in Hitem. rewrite Harray in Hitem.
    destruct (Object_values_enumerable _ _ _ Harray Hitem)
      as (k & p & Hp & Henumerable & ->).
    now apply (Hvalues k). }
  assert (Hrun : isJSONValue (S depth) (VObject l) h = (Normal true, h)).
  { rewrite (isJSONValue_children _ _ _ _ Hchildren).
    - now apply every_present_all.
    - apply stable_all. intros item Hitem. exists true. now apply Hall. }
  split; [exact Hrun|].
  split; [now apply (serialize_valid _ _ _ true)
         |now apply (parseValue_valid _ _ _ true)].
Qed.

(** ** What the converters return *)



(** X16. [serialize] after [parseLiteral] is [parseLiteral]: in an intact
    realm, a literal whose nodes are all of a supported kind and in which
    no field is named [__proto__] or [constructor] decodes to a value
    that the validator accepts and that both converters return as it is,
    with as many call frames as the literal is deep. *)
Theorem converters_after_parseLiteral `{host : Host} (ast : ValueNode)
    (j : json) (h : heap) (depth : nat) :
  realm_intact h ->
  decoded ast = Some j ->
  names_field "__proto__" ast = false ->
  names_field "constructor" ast = false ->
  json_depth j <= depth ->
  (v <- parseLiteral ast ;; serialize depth v) h = parseLiteral ast h
  /\ (v <- parseLiteral ast ;; parseValue depth v) h = parseLiteral ast h
  /\ exists v h',
       parseLiteral ast h = (Normal v, h')
       /\ isJSONValue depth v h' = (Normal true, h').
Proof.
  intros Hrealm Hdecoded Hproto Hconstructor Hdepth.
  destruct (decoder_output_validates ast j h Hrealm Hdecoded Hproto Hconstructor)
    as (v & h' & Hrun & _ & _ & Hvalid).
  destruct (Hvalid depth Hdepth) as (Htrue & Hserialize & HparseValue).
  rewrite !(bind_normal _ _ _ _ _ Hrun), Hserialize, HparseValue, Hrun.
  split; [reflexivity|]. split; [reflexivity|]. now exists v, h'.
Qed.

(** X17. The order of the elements of an array that has the built-in
    [every], or of the properties of an object, does not change the
    verdict as long as the validator returns a boolean on each of them
    and leaves the heap as it is: two containers that hold the same
    values in another order are both accepted or both rejected. *)
Theorem verdict_independent_of_order `{host : Host} (depth : nat) (h : heap)
    (l1 l2 : loc) (children1 children2 : list (option value)) :
  validated_children h l1 = Some children1 ->
  validated_children h l2 = Some children2 ->
  present_elements children1 ≡ₚ present_elements children2 ->
  (forall item, item ∈ present_elements children1 ->
     exists b : bool, isJSONValue depth item h = (Normal b, h)) ->
  exists b : bool,
    isJSONValue (S depth) (VObject l1) h = (Normal b, h)
    /\ isJSONValue (S depth) (VObject l2) h = (Normal b, h).
Proof.
  intros Hchildren1 Hchildren2 Hsame Hanswers.
  assert (Hanswers2 : forall item, item ∈ present_elements children2 ->
            exists b : bool, isJSONValue depth item h = (Normal b, h)).
  { intros item Hitem. apply Hanswers. now rewrite Hsame. }
  assert (Hsettled : forall children,
            (forall item, item ∈ present_elements children ->
               exists b : bool, isJSONValue depth item h = (Normal b, h)) ->
            forall item, item ∈ present_elements children ->
              settled (isJSONValue depth item) h).
  { intros children Hall item Hitem.
    destruct (Hall item Hitem) as [[] Hb]; [now left|now right; left]. }
  rewrite (isJSONValue_children _ _ _ _ Hchildren1) by now apply stable_all.
  rewrite (isJSONValue_children _ _ _ _ Hchildren2) by now apply stable_all.
  destruct (every_present_answers _ _ children1 Hanswers) as [[] Hrun1].
  - exists true. split; [exact Hrun1|].
    apply every_present_all. intros item Hitem.
    apply (every_present_true _ _ children1 (Hsettled _ Hanswers) true h);
      [exact Hrun1|reflexivity|]. now rewrite Hsame.
  - exists false. split; [exact Hrun1|].
    destruct (every_present_false _ _ children1 (Hsettled _ Hanswers) false h
                Hrun1 eq_refl) as (bad & Hbad & Hfalse).
    apply (every_present_any _ _ _ bad); auto. now rewrite <- Hsame.
Qed.

(** ** The statements at concrete inputs *)

(** The values that can be reached stay in a set that holds the value
    and, with a container, its contents. *)
Lemma every_builtin_below_closed h v (reached : value -> Prop) :
  every_builtin h Intrinsics.Array_prototype = true ->
  reached v ->
  (forall l child, reached (VObject l) -> child ∈ contents h l -> reached child) ->
  (forall l, reached (VObject l) -> Array_isArray h (VObject l) = true ->
     every_builtin h l = true) ->
  every_builtin_below h v.
Proof.
  intros Hrealm Hv Hclosed Hbuiltin. split; [exact Hrealm|].
  assert (Hreach : forall x y, rtc (holds h) x y -> reached x -> reached y).
  { induction 1 as [x|x y z (l & -> & Hchild) _ IH]; [auto|].
    intros Hx. apply IH. now apply (Hclosed l). }
  intros l Hl. apply Hbuiltin. now apply (Hreach v).
Qed.

(** The literal of the nested structure, decoded and handed to the
    converters. *)
Lemma converters_after_nested_literal :
  realm_intact initial_heap
  /\ decoded Gallery.nested_literal = Some Gallery.nested_tree
  /\ json_depth Gallery.nested_tree <= 5
  /\ (v <- parseLiteral Gallery.nested_literal ;; @serialize default_host 5 v)
       initial_heap
     = parseLiteral Gallery.nested_literal initial_heap
  /\ (v <- parseLiteral Gallery.nested_literal ;; @parseValue default_host 5 v)
       initial_heap
     = parseLiteral Gallery.nested_literal initial_heap
  /\ exists v h',
       parseLiteral Gallery.nested_literal initial_heap = (Normal v, h')
       /\ @isJSONValue default_host 5 v h' = (Normal true, h').
Proof.
  assert (Hrealm : realm_intact initial_heap) by (repeat split; reflexivity).
  assert (Hdecoded : decoded Gallery.nested_literal = Some Gallery.nested_tree)
    by (vm_compute; reflexivity).
  assert (Hdepth : json_depth Gallery.nested_tree <= 5) by (vm_compute; lia).
  split; [exact Hrealm|]. split; [exact Hdecoded|]. split; [exact Hdepth|].
  exact (@converters_after_parseLiteral default_host Gallery.nested_literal
           Gallery.nested_tree initial_heap 5 Hrealm Hdecoded eq_refl eq_refl
           Hdepth).
Defined.


(** The array that contains itself, which has the built-in [every], with
    three call frames. *)
Lemma cyclic_array_exhausts_stack :
  every_builtin_below example_heap (VObject cyclic)
  /\ @isJSONValue default_host 3 (VObject cyclic) example_heap
     = (Throw stack_overflow, example_heap)
  /\ nesting_within 3 example_heap (VObject cyclic) = false.
Proof.
  assert (Hbelow : every_builtin_below example_heap (VObject cyclic)).
  { apply (every_builtin_below_closed _ _ (fun x => x = VObject cyclic)).
    - vm_compute. reflexivity.
    - reflexivity.
    - intros l child [= ->] Hchild. vm_compute in Hchild.
      now apply list_elem_of_singleton in Hchild.
    - intros l [= ->] _. vm_compute. reflexivity. }
  assert (Hrun : @isJSONValue default_host 3 (VObject cyclic) example_heap
                 = (Throw stack_overflow, example_heap))
    by (vm_compute; reflexivity).
  split; [exact Hbelow|]. split; [exact Hrun|].
  exact (proj2 (proj2 (@isJSONValue_throws_only_stack_overflow default_host 3
                         (VObject cyclic) example_heap stack_overflow
                         example_heap Hbelow Hrun))).
Defined.

(** [const node = {name: "node"}; node.self = node] *)
Lemma self_object_overflows :
  validated_children Gallery.gallery_heap Gallery.self_object
  = Some ([Some (VString "node")] ++ [Some (VObject Gallery.self_object)])%list
  /\ @isJSONValue default_host 1000 (VObject Gallery.self_object)
       Gallery.gallery_heap
     = (Throw stack_overflow, Gallery.gallery_heap)
  /\ @serialize default_host 1000 (VObject Gallery.self_object)
       Gallery.gallery_heap
     = (Throw stack_overflow, Gallery.gallery_heap)
  /\ @parseValue default_host 1000 (VObject Gallery.self_object)
       Gallery.gallery_heap
     = (Throw stack_overflow, Gallery.gallery_heap).
Proof.
  assert (Hchildren :
            validated_children Gallery.gallery_heap Gallery.self_object
            = Some ([Some (VString "node")]
                    ++ [Some (VObject Gallery.self_object)])%list)
    by (vm_compute; reflexivity).
  split; [exact Hchildren|].
  apply (@self_containing_value_overflows default_host Gallery.gallery_heap
           Gallery.self_object [Some (VString "node")] [] Hchildren).
  intros item Hitem. simpl in Hitem.
  apply list_elem_of_singleton in Hitem. subst item.
  split; [constructor|].
  apply (every_builtin_within_below 1). vm_compute. reflexivity.
Defined.

(** [[undefined, cyclic]]: rejected, although the validator does not
    return on the second element; with the two elements in the other
    order it does not return. *)
Lemma guarded_cycle_rejected :
  validated_children Gallery.gallery_heap Gallery.guarded
  = Some ([] ++ Some VUndefined :: [Some (VObject cyclic)])%list
  /\ @isJSONValue default_host 1 VUndefined Gallery.gallery_heap
     = (Normal false, Gallery.gallery_heap)
  /\ @isJSONValue default_host 1 (VObject cyclic) Gallery.gallery_heap
     = (Throw stack_overflow, Gallery.gallery_heap)
  /\ @isJSONValue default_host 2 (VObject Gallery.guarded) Gallery.gallery_heap
     = (Normal false, Gallery.gallery_heap)
  /\ @isJSONValue default_host 2 (VObject Gallery.cycle_first)
       Gallery.gallery_heap
     = (Throw stack_overflow, Gallery.gallery_heap).
Proof.
  assert (Hchildren :
            validated_children Gallery.gallery_heap Gallery.guarded
            = Some ([] ++ Some VUndefined :: [Some (VObject cyclic)])%list)
    by (vm_compute; reflexivity).
  split; [exact Hchildren|]. split; [reflexivity|].
  split; [vm_compute; reflexivity|].
  split; [|vm_compute; reflexivity].
  apply (@validator_stops_at_first_rejected default_host 1 Gallery.gallery_heap
           Gallery.guarded [] VUndefined [Some (VObject cyclic)] Hchildren).
  - intros item Hitem. inversion Hitem.
  - reflexivity.
Defined.

(** [serialize({when: new Date(...)})] *)
Lemma date_in_object_rejected :
  validated_children Gallery.gallery_heap Gallery.with_date
  = Some [Some (VObject new_year)]
  /\ date_like Gallery.gallery_heap (VObject new_year)
  /\ every_builtin_below Gallery.gallery_heap (VObject Gallery.with_date)
  /\ nesting_within 2 Gallery.gallery_heap (VObject Gallery.with_date) = true
  /\ @isJSONValue default_host 2 (VObject Gallery.with_date) Gallery.gallery_heap
     = (Normal false, Gallery.gallery_heap)
  /\ @serialize default_host 2 (VObject Gallery.with_date) Gallery.gallery_heap
     = (Throw (TypeError (cannot_represent "[object Object]")),
        Gallery.gallery_heap).
Proof.
  assert (Hchildren :
            validated_children Gallery.gallery_heap Gallery.with_date
            = Some [Some (VObject new_year)]) by (vm_compute; reflexivity).
  assert (Hdate : date_like Gallery.gallery_heap (VObject new_year))
    by (vm_compute; reflexivity).
  assert (Hbelow : every_builtin_below Gallery.gallery_heap
                     (VObject Gallery.with_date))
    by (apply (every_builtin_within_below 3); vm_compute; reflexivity).
  assert (Hfinite : nesting_within 2 Gallery.gallery_heap
                      (VObject Gallery.with_date) = true)
    by (vm_compute; reflexivity).
  assert (Hd : VObject new_year ∈ present_elements [Some (VObject new_year)])
    by (simpl; left).
  destruct (@nested_date_rejected default_host 1 Gallery.gallery_heap
              Gallery.with_date [Some (VObject new_year)] (VObject new_year)
              Hchildren Hd Hdate Hbelow Hfinite) as [Hrun Hthrow].
  split; [exact Hchildren|]. split; [exact Hdate|]. split; [exact Hbelow|].
  split; [exact Hfinite|]. split; [exact Hrun|].
  apply (Hthrow "[object Object]" Gallery.gallery_heap).
  vm_compute. reflexivity.
Defined.

(** [[1, , 3]], which is validated as [[1, 3]] is, and [new Array(3)] *)
Lemma sparse_validates_as_dense :
  realm_intact Gallery.gallery_heap
  /\ array_items Gallery.gallery_heap sparse = [Some one; None; Some three]
  /\ @isJSONValue default_host 2 (VObject sparse) Gallery.gallery_heap
     = every (@isJSONValue default_host 1) [one; three] Gallery.gallery_heap
  /\ array_elements Gallery.gallery_heap Gallery.holes = [None; None; None]
  /\ @isJSONValue default_host 1 (VObject Gallery.holes) Gallery.gallery_heap
     = (Normal true, Gallery.gallery_heap)
  /\ @serialize default_host 1 (VObject Gallery.holes) Gallery.gallery_heap
     = (Normal (VObject Gallery.holes), Gallery.gallery_heap).
Proof.
  assert (Hrealm : realm_intact Gallery.gallery_heap)
    by (repeat split; vm_compute; reflexivity).
  destruct (@holes_are_not_validated default_host Gallery.gallery_heap sparse
              Hrealm eq_refl eq_refl eq_refl) as (Hitems & Hloop & _).
  destruct (@holes_are_not_validated default_host Gallery.gallery_heap
              Gallery.holes Hrealm eq_refl eq_refl eq_refl)
    as (_ & _ & Hholes).
  split; [exact Hrealm|]. split; [exact Hitems|].
  split.
  { apply (Hloop 1). intros item Hitem.
    apply (every_builtin_within_below 1). vm_compute in Hitem.
    repeat (apply elem_of_cons in Hitem as [->|Hitem];
            [vm_compute; reflexivity|]).
    inversion Hitem. }
  split; [vm_compute; reflexivity|].
  destruct (Hholes eq_refl 0) as (Hrun & Hserialize & _).
  split; [exact Hrun|exact Hserialize].
Defined.

(** An object that inherits a method and hides a function in a
    non-enumerable property. *)
Lemma inheritor_validates :
  validated_children Gallery.gallery_heap Gallery.inheritor = Some [Some one]
  /\ Get Gallery.gallery_heap Gallery.inheritor "greet" = VObject arrow
  /\ Get Gallery.gallery_heap Gallery.inheritor "secret" = VObject arrow
  /\ @isJSONValue default_host 2 (VObject Gallery.inheritor) Gallery.gallery_heap
     = (Normal true, Gallery.gallery_heap)
  /\ @serialize default_host 2 (VObject Gallery.inheritor) Gallery.gallery_heap
     = (Normal (VObject Gallery.inheritor), Gallery.gallery_heap)
  /\ @parseValue default_host 2 (VObject Gallery.inheritor) Gallery.gallery_heap
     = (Normal (VObject Gallery.inheritor), Gallery.gallery_heap).
Proof.
  assert (Hchildren :
            validated_children Gallery.gallery_heap Gallery.inheritor
            = Some [Some one]) by (vm_compute; reflexivity).
  split; [exact Hchildren|].
  split; [vm_compute; reflexivity|]. split; [vm_compute; reflexivity|].
  apply (@only_own_enumerable_values_validated default_host 1
           Gallery.gallery_heap Gallery.inheritor [Some one] Hchildren).
  - vm_compute. reflexivity.
  - intros k p Hp Henumerable.
    replace (obj_properties (object_at Gallery.gallery_heap Gallery.inheritor))
      with [("x", visible one); ("secret", hidden (VObject arrow))] in Hp
      by (vm_compute; reflexivity).
    apply elem_of_cons in Hp as [Hp|Hp]; [now inversion Hp|].
    apply list_elem_of_singleton in Hp. inversion Hp; subst.
    discriminate Henumerable.
Defined.

(** [[1, undefined, 3]] and [[3, undefined, 1]] *)
Lemma reordered_array_same_verdict :
  validated_children Gallery.gallery_heap with_undefined
  = Some [Some one; Some VUndefined; Some three]
  /\ validated_children Gallery.gallery_heap Gallery.reordered
     = Some [Some three; Some VUndefined; Some one]
  /\ exists b : bool,
       @isJSONValue default_host 2 (VObject with_undefined) Gallery.gallery_heap
       = (Normal b, Gallery.gallery_heap)
       /\ @isJSONValue default_host 2 (VObject Gallery.reordered)
            Gallery.gallery_heap
          = (Normal b, Gallery.gallery_heap).
Proof.
  assert (Hchildren1 :
            validated_children Gallery.gallery_heap with_undefined
            = Some [Some one; Some VUndefined; Some three])
    by (vm_compute; reflexivity).
  assert (Hchildren2 :
            validated_children Gallery.gallery_heap Gallery.reordered
            = Some [Some three; Some VUndefined; Some one])
    by (vm_compute; reflexivity).
  split; [exact Hchildren1|]. split; [exact Hchildren2|].
  apply (@verdict_independent_of_order default_host 1 Gallery.gallery_heap
           with_undefined Gallery.reordered _ _ Hchildren1 Hchildren2).
  - apply (Permutation_rev [one; VUndefined; three]).
  - intros item Hitem. simpl in Hitem.
    repeat (apply elem_of_cons in Hitem as [->|Hitem];
            [eexists (_ : bool); vm_compute; reflexivity|]).
    inversion Hitem.
Defined.

(** * The build script *)

Lemma length_append (s1 s2 : string) :
  String.length (s1 ++ s2) = String.length s1 + String.length s2.
Proof.
  induction s1 as [|c s1 IH]; [reflexivity|].
  change (S (String.length (s1 ++ s2))
          = S (String.length s1 + String.length s2)).
  now rewrite IH.
Qed.

Lemma append_assoc (s1 s2 s3 : string) : (s1 ++ s2) ++ s3 = s1 ++ (s2 ++ s3).
Proof.
  induction s1 as [|c s1 IH]; [reflexivity|].
  change (String c ((s1 ++ s2) ++ s3) = String c (s1 ++ (s2 ++ s3))).
  now rewrite IH.
Qed.

Lemma strip_suffix_unfold suffix s :
  strip_suffix suffix s =
    if String.eqb s suffix then Some EmptyString
    else
      match s with
      | EmptyString => None
      | String c rest => String c <$> strip_suffix suffix rest
      end.
Proof. now destruct s. Qed.

(** [strip_suffix] is the inverse of appending the suffix. *)
Lemma strip_suffix_spec suffix s stem :
  strip_suffix suffix s = Some stem <-> s = stem ++ suffix.
Proof.
  split.
  - revert stem. induction s as [|c rest IH]; intros stem;
      rewrite strip_suffix_unfold.
    + destruct (String.eqb_spec "" suffix) as [<-|_]; [|discriminate].
      now intros [= <-].
    + destruct (String.eqb_spec (String c rest) suffix) as [<-|_];
        [now intros [= <-]|].
      destruct (strip_suffix suffix rest) as [stem'|]; [|discriminate].
      intros [= <-].
      change (String c rest = String c (stem' ++ suffix)).
      now rewrite (IH stem' eq_refl).
  - intros ->. induction stem as [|c stem IH]; rewrite strip_suffix_unfold.
    + change ("" ++ suffix) with suffix. now rewrite String.eqb_refl.
    + change (String c stem ++ suffix) with (String c (stem ++ suffix)).
      destruct (String.eqb_spec (String c (stem ++ suffix)) suffix) as [Heq|_].
      * apply (f_equal String.length) in Heq.
        change (S (String.length (stem ++ suffix)) = String.length suffix) in Heq.
        rewrite length_append in Heq. lia.
      * now rewrite IH.
Qed.

Lemma endsWith_spec s suffix :
  endsWith s suffix = true <-> exists stem, s = stem ++ suffix.
Proof.
  unfold endsWith. destruct (strip_suffix suffix s) as [stem|] eqn:Hstrip.
  - apply strip_suffix_spec in Hstrip. split; [now exists stem|reflexivity].
  - split; [discriminate|]. intros [stem Hstem].
    apply strip_suffix_spec in Hstem. congruence.
Qed.

(** Two ways of cutting a string before suffixes of one length agree. *)
Lemma append_same_length (p1 p2 s1 s2 : string) :
  String.length s1 = String.length s2 ->
  p1 ++ s1 = p2 ++ s2 -> p1 = p2 /\ s1 = s2.
Proof.
  intros Hlength. revert p2.
  induction p1 as [|c p1 IH]; intros [|c' p2] Heq.
  - now split.
  - apply (f_equal String.length) in Heq.
    change (String.length s1 = S (String.length (p2 ++ s2))) in Heq.
    rewrite length_append in Heq. lia.
  - apply (f_equal String.length) in Heq.
    change (S (String.length (p1 ++ s1)) = String.length s2) in Heq.
    rewrite length_append in Heq. lia.
  - change (String c (p1 ++ s1) = String c' (p2 ++ s2)) in Heq.
    injection Heq as -> Heq. destruct (IH p2 Heq) as [-> ->]. now split.
Qed.

Lemma replace_same extension s : replace_at_end extension extension s = s.
Proof.
  unfold replace_at_end.
  destruct (strip_suffix extension s) as [stem|] eqn:Hstrip; [|reflexivity].
  now apply strip_suffix_spec in Hstrip.
Qed.

Lemma map_is_not_js stem : strip_suffix ".js" (stem ++ ".js.map") = None.
Proof.
  destruct (strip_suffix ".js" (stem ++ ".js.map")) as [stem'|] eqn:Hstrip;
    [|reflexivity].
  apply strip_suffix_spec in Hstrip.
  change ".js.map" with (".js." ++ "map") in Hstrip.
  rewrite <- append_assoc in Hstrip.
  now apply append_same_length in Hstrip as [_ [=]].
Qed.

(** Which files are moved, and where to. *)
Lemma new_name_cases file target :
  new_name file = Some target ->
  (exists stem, file = stem ++ ".js" /\ target = stem ++ ".cjs")
  \/ (exists stem, file = stem ++ ".js.map" /\ target = file).
Proof.
  unfold new_name, endsWith. rewrite replace_same. unfold replace_at_end.
  destruct (strip_suffix ".js" file) as [stem|] eqn:Hjs; cbn [orb].
  - apply strip_suffix_spec in Hjs. intros [= <-]. left. now exists stem.
  - destruct (strip_suffix ".js.map" file) as [stem|] eqn:Hmap; [|discriminate].
    apply strip_suffix_spec in Hmap. intros [= <-]. right. now exists stem.
Qed.

(** X18. A file whose name ends in [.js] is moved to [dist] under the name
    with [.cjs] in place of [.js]. A source map, whose name ends in
    [.js.map], is moved under the name it has: the pattern [/\.js$/] does
    not match a name that goes on after [.js], so that the map of
    [index.js] arrives as [index.js.map], not as [index.cjs.map]. No other
    file is moved, a declaration file among them. *)
Theorem source_map_keeps_its_name (stem : string) :
  new_name (stem ++ ".js") = Some (stem ++ ".cjs")
  /\ new_name (stem ++ ".js.map") = Some (stem ++ ".js.map")
  /\ new_name (stem ++ ".d.ts") = None
  /\ new_name (stem ++ ".d.ts.map") = None
  /\ (forall file target,
        new_name file = Some target ->
        (exists stem', file = stem' ++ ".js" /\ target = stem' ++ ".cjs")
        \/ (exists stem', file = stem' ++ ".js.map" /\ target = file)).
Proof.
  split; [|split; [|split; [|split]]].
  - unfold new_name, endsWith. rewrite replace_same. unfold replace_at_end.
    now rewrite (proj2 (strip_suffix_spec ".js" (stem ++ ".js") stem) eq_refl).
  - unfold new_name, endsWith. rewrite replace_same. unfold replace_at_end.
    rewrite map_is_not_js.
    now rewrite (proj2 (strip_suffix_spec ".js.map" (stem ++ ".js.map") stem)
                   eq_refl).
  - destruct (new_name (stem ++ ".d.ts")) as [target|] eqn:Hname; [|reflexivity].
    apply new_name_cases in Hname as [(stem' & Hfile & _)|(stem' & Hfile & _)].
    + change ".d.ts" with (".d" ++ ".ts") in Hfile. rewrite <- append_assoc in Hfile.
      now apply append_same_length in Hfile as [_ [=]].
    + change ".js.map" with (".j" ++ "s.map") in Hfile.
      rewrite <- append_assoc in Hfile.
      now apply append_same_length in Hfile as [_ [=]].
  - destruct (new_name (stem ++ ".d.ts.map")) as [target|] eqn:Hname;
      [|reflexivity].
    apply new_name_cases in Hname as [(stem' & Hfile & _)|(stem' & Hfile & _)].
    + change ".d.ts.map" with (".d.ts." ++ "map") in Hfile.
      rewrite <- append_assoc in Hfile.
      now apply append_same_length in Hfile as [_ [=]].
    + change ".d.ts.map" with (".d" ++ ".ts.map") in Hfile.
      rewrite <- append_assoc in Hfile.
      now apply append_same_length in Hfile as [_ [=]].
  - apply new_name_cases.
Qed.

Lemma new_name_inj file1 file2 target :
  new_name file1 = Some target -> new_name file2 = Some target -> file1 = file2.
Proof.
  intros [(stem1 & -> & ->)|(stem1 & Hfile1 & <-)]%new_name_cases
         [(stem2 & -> & Heq)|(stem2 & Hfile2 & Heq)]%new_name_cases.
  - apply append_same_length in Heq as [-> _]; reflexivity.
  - exfalso. rewrite Hfile2 in Heq.
    change ".js.map" with (".js" ++ ".map") in Heq.
    rewrite <- append_assoc in Heq.
    now apply append_same_length in Heq as [_ [=]].
  - exfalso. rewrite Hfile1 in Heq.
    change ".js.map" with (".js" ++ ".map") in Heq.
    rewrite <- append_assoc in Heq.
    now apply append_same_length in Heq as [_ [=]].
  - congruence.
Qed.

Lemma moves_elem files target :
  target ∈ (snd <$> moves files) ->
  exists file, file ∈ files /\ new_name file = Some target.
Proof.
  intros ([file target'] & -> & Hmove)%list_elem_of_fmap.
  apply list_elem_of_omap in Hmove as (file' & Hfile & Hname).
  destruct (new_name file') as [t|] eqn:Hnew; [|discriminate].
  injection Hname as <- <-. now exists file'.
Qed.

(** X19. No two files are moved to the same place: the new name
    determines the file. So the moves of a listing without repetition
    have distinct destinations: no move overwrites what another move has
    brought, in whatever order [readdirSync] lists the files. *)
Theorem moved_files_do_not_collide :
  (forall file1 file2 target,
     new_name file1 = Some target -> new_name file2 = Some target ->
     file1 = file2)
  /\ (forall files, NoDup files -> NoDup (snd <$> moves files)).
Proof.
  split; [exact new_name_inj|].
  induction 1 as [|file files Hfresh _ IH]; [constructor|].
  unfold moves. cbn [omap list_omap].
  destruct (new_name file) as [target|] eqn:Hname; [|exact IH].
  cbn [fmap option_fmap option_map list_fmap snd]. constructor; [|exact IH].
  intros (file' & Hfile' & Hname')%moves_elem.
  now rewrite (new_name_inj _ _ _ Hname Hname') in Hfresh.
Qed.

Example moves_of_a_build :
  moves ["index.js"; "index.js.map"; "index.d.ts"; "index.d.ts.map";
         "types.js"; "types.js.map"; "README.md"]
  = [("index.js", "index.cjs"); ("index.js.map", "index.js.map");
     ("types.js", "types.cjs"); ("types.js.map", "types.js.map")].
Proof. reflexivity. Qed.

Lemma move_files_spec files :
  forall source target,
    NoDup files ->
    (forall file, file ∈ files -> new_name file <> None -> file ∈ dom source) ->
    exists source' target',
      move_files files source target = (true, source', target')
      /\ (forall file content name,
            file ∈ files -> source !! file = Some content ->
            new_name file = Some name -> target' !! name = Some content)
      /\ (forall name,
            (forall file, file ∈ files -> new_name file <> Some name) ->
            target' !! name = target !! name).
Proof.
  induction files as [|file rest IH]; intros source target Hnodup Hlisted.
  - exists source, target. split; [reflexivity|].
    split; [intros file content name Hin; inversion Hin|reflexivity].
  - apply NoDup_cons in Hnodup as [Hfresh Hnodup]. cbn [move_files].
    destruct (new_name file) as [name|] eqn:Hname.
    + assert (Hfile : file ∈ dom source)
        by (apply Hlisted; [left|congruence]).
      apply elem_of_dom in Hfile as [content Hcontent]. rewrite Hcontent.
      destruct (IH (delete file source) (<[name := content]> target) Hnodup)
        as (source' & target' & Hrun & Hmoved & Hkept).
      { intros other Hother Hmoves. apply elem_of_dom.
        rewrite lookup_delete_ne by (intros ->; contradiction).
        apply elem_of_dom, Hlisted; [now right|exact Hmoves]. }
      exists source', target'. split; [exact Hrun|]. split.
      * intros other content' name' [->|Hother]%elem_of_cons Hlookup Hname'.
        -- assert (name' = name) by congruence. subst name'.
           assert (content' = content) by congruence. subst content'.
           rewrite Hkept; [apply lookup_insert_eq|].
           intros other Hother Hsame.
           rewrite (new_name_inj _ _ _ Hsame Hname) in Hother. contradiction.
        -- apply (Hmoved other); [exact Hother| |exact Hname'].
           rewrite lookup_delete_ne by (intros ->; contradiction). exact Hlookup.
      * intros name' Hnone. rewrite Hkept.
        -- apply lookup_insert_ne. intros ->. now apply (Hnone file); [left|].
        -- intros other Hother. apply Hnone. now right.
    + destruct (IH source target Hnodup) as (source' & target' & Hrun & Hmoved & Hkept).
      { intros other Hother. apply Hlisted. now right. }
      exists source', target'. split; [exact Hrun|]. split.
      * intros other content' name' [->|Hother]%elem_of_cons Hlookup Hname';
          [congruence|]. now apply (Hmoved other).
      * intros name' Hnone. apply Hkept. intros other Hother. apply Hnone.
        now right.
Qed.

(** X20. Given a listing without repetition of what [dist-cjs] holds, the
    script runs to its end and removes [dist-cjs]. Every file whose name
    ends in [.js] or [.js.map] is then in [dist] under its new name, with
    its content, in the place of whatever [dist] had under that name; a
    name that is the new name of no file keeps what it had, and the other
    files of [dist-cjs], the declaration files among them, are gone
    without a copy. Without a directory [dist-cjs] the script exits with
    code 1 and changes nothing. *)
Theorem rename_cjs_moves_the_scripts (files : list string)
    (source target : directory) :
  NoDup files ->
  (forall file, file ∈ files <-> file ∈ dom source) ->
  rename_cjs files (FileSystem None target) = (Exited 1, FileSystem None target)
  /\ exists target',
       rename_cjs files (FileSystem (Some source) target)
         = (Finished, FileSystem None target')
       /\ (forall file content name,
             source !! file = Some content -> new_name file = Some name ->
             target' !! name = Some content)
       /\ (forall name,
             (forall file, file ∈ dom source -> new_name file <> Some name) ->
             target' !! name = target !! name).
Proof.
  intros Hnodup Hlisting. split; [reflexivity|].
  destruct (move_files_spec files source target Hnodup)
    as (source' & target' & Hrun & Hmoved & Hkept).
  { intros file Hfile _. now apply Hlisting. }
  exists target'. unfold rename_cjs. cbn [dist_cjs dist]. rewrite Hrun.
  split; [reflexivity|]. split.
  - intros file content name Hcontent Hname.
    apply (Hmoved file); [|exact Hcontent|exact Hname].
    apply Hlisting, elem_of_dom. now exists content.
  - intros name Hnone. apply Hkept. intros file Hfile.
    now apply Hnone, Hlisting.
Qed.

(** After the two builds of one module: the CommonJS script and its map
    arrive, the map in the place of the map of the ESM build, and the
    script and the declarations of the ESM build stay. *)
Lemma build_is_moved :
  NoDup Build.listing
  /\ (forall file, file ∈ Build.listing <-> file ∈ dom Build.cjs_output)
  /\ exists target',
       rename_cjs Build.listing
         (FileSystem (Some Build.cjs_output) Build.esm_output)
         = (Finished, FileSystem None target')
       /\ target' !! "index.cjs" = Some "cjs code"
       /\ target' !! "index.js.map" = Some "cjs map"
       /\ target' !! "index.js" = Some "esm code"
       /\ target' !! "index.d.ts" = Some "esm types".
Proof.
  assert (Hnodup : NoDup Build.listing).
  { unfold Build.listing. repeat constructor; simpl.
    - intros Hin. repeat (apply elem_of_cons in Hin as [Hin|Hin];
                          [discriminate|]). inversion Hin.
    - intros Hin. repeat (apply elem_of_cons in Hin as [Hin|Hin];
                          [discriminate|]). inversion Hin.
    - intros Hin. inversion Hin. }
  assert (Hlisting : forall file,
            file ∈ Build.listing <-> file ∈ dom Build.cjs_output).
  { intros file. rewrite elem_of_dom. unfold Build.listing. split.
    - intros Hin.
      repeat (apply elem_of_cons in Hin as [->|Hin];
              [eexists; vm_compute; reflexivity|]).
      inversion Hin.
    - intros [content Hcontent].
      apply elem_of_list_to_map_2 in Hcontent.
      repeat (apply elem_of_cons in Hcontent as [Hcontent|Hcontent];
              [injection Hcontent as -> _;
               repeat first [left|right; left|right; right; left]|]).
      inversion Hcontent. }
  assert (Hothers : forall name,
            name <> "index.cjs" -> name <> "index.js.map" ->
            forall file, file ∈ dom Build.cjs_output ->
                         new_name file <> Some name).
  { intros name Hcjs Hmap file Hfile. apply Hlisting in Hfile.
    unfold Build.listing in Hfile.
    repeat (apply elem_of_cons in Hfile as [->|Hfile];
            [vm_compute; congruence|]).
    inversion Hfile. }
  split; [exact Hnodup|]. split; [exact Hlisting|].
  destruct (rename_cjs_moves_the_scripts Build.listing Build.cjs_output
              Build.esm_output Hnodup Hlisting)
    as (_ & target' & Hrun & Hmoved & Hkept).
  exists target'. split; [exact Hrun|].
  split; [apply (Hmoved "index.js"); vm_compute; reflexivity|].
  split; [apply (Hmoved "index.js.map"); vm_compute; reflexivity|].
  split.
  - rewrite Hkept by (apply Hothers; discriminate). vm_compute. reflexivity.
  - rewrite Hkept by (apply Hothers; discriminate). vm_compute. reflexivity.
Defined.
